(** * AuditAPI: scoring, configuration validation and casing detection

    A shallow embedding of the scoring and rule-categorisation engine of
    AuditAPI (config/loader.ts, core/auditor.ts, functions/consistent-casing.js,
    types/config.ts and the grade order of cli/index.ts), with the properties
    of its specification proved about it.

    Number model.  A finite JavaScript [number] is embedded as an exact
    rational ([Q]) with the decidable comparisons of [QArith]; a number
    that may be NaN is a [JS.number], NaN or a rational, with the
    arithmetic and the comparisons of the language on NaN.  The values
    that parsed YAML supplies to the validators (weights, the bounds of the
    grading scale) and the values that the auditor computes (points
    deducted, scores) are of the second kind; the fields of a scoring
    configuration that the auditor reads at its declared type are of the
    first.  Infinities and the rounding error of binary64 are left out:
    the embedding is exact wherever the operations of the program are.
    Counters that the program only ever increments from zero are natural
    numbers.

    Object model.  A JavaScript object that holds parsed YAML is the
    association list of its own properties in the order in which the
    language enumerates them ([JS.Obj]): integer-like keys first, then the
    other keys as the document wrote them.  [Object.values],
    [Object.entries] and [Object.keys] give the list in that order.
    [JS.get] reads an object at its declared type: the value of an own
    property, or [undefined]; [JS.lookup] reads it as the language does,
    an own property first and then the members inherited from
    [Object.prototype].  The objects that the program indexes with a name
    taken from a document or a finding, the function table of the loader
    and the penalties of the auditor, are read with the second.

    Effects.  Exceptions are a sum type ([JS.Throws]); the counters that
    [countCasingStyles] updates in place are passed from call to call; the
    parts of [audit] that touch the file system, the clock and the rule
    engine are its parameters. *)

From Stdlib Require Import ZArith QArith Qround Qabs Qminmax.
From Stdlib Require Import List String Ascii Bool Lia Permutation Sorted.
From Stdlib Require Import DecimalString Decimal.
From Stdlib Require DecimalNat DecimalFacts.
Import ListNotations.

Set Implicit Arguments.

(* ====================================================================== *)
(** ** JavaScript built-ins used by the program *)
(* ====================================================================== *)

Module JS.

(** An object with string keys: its own properties, in the order in
    which the language enumerates them. *)
Definition Obj (A : Type) : Type := list (string * A).

(** [o[k]] on own properties: [None] stands for [undefined]. *)
Fixpoint get {A} (o : Obj A) (k : string) : option A :=
  match o with
  | [] => None
  | (k', v) :: rest => if String.eqb k' k then Some v else get rest k
  end.

(** [k in o] for a key that is not a member of [Object.prototype]. *)
Definition has {A} (o : Obj A) (k : string) : bool :=
  match get o k with Some _ => true | None => false end.

(** [Object.values(o)] and [Object.entries(o)]. *)
Definition values {A} (o : Obj A) : list A := map snd o.
Definition entries {A} (o : Obj A) : list (string * A) := o.

(** [arr.includes(x)] on an array of strings. *)
Definition includes (arr : list string) (x : string) : bool :=
  existsb (String.eqb x) arr.

(** [s.startsWith(p)]. *)
Definition startsWith (s p : string) : bool := String.prefix p s.

(** [s.includes(c)] for a one-character needle. *)
Fixpoint includesChar (s : string) (c : ascii) : bool :=
  match s with
  | EmptyString => false
  | String a rest => Ascii.eqb a c || includesChar rest c
  end.

(** Numeric comparisons [x >= y], [x > y], [x < y], [x === y]. *)
Definition geb (x y : Q) : bool := Qle_bool y x.
Definition gtb (x y : Q) : bool := negb (Qle_bool x y).
Definition ltb (x y : Q) : bool := negb (Qle_bool y x).
Definition eqb (x y : Q) : bool := Qeq_bool x y.

(** [Math.max(x, y)] and [Math.abs(x)]. *)
Definition Math_max (x y : Q) : Q := Qmax x y.
Definition Math_abs (x : Q) : Q := Qabs x.

(** [Math.round(x)]: the integer nearest to [x], ties towards +infinity,
    that is floor(x + 1/2). *)
Definition Math_round (x : Q) : Q := inject_Z (Qfloor (x + (1 # 2))).

(** A number that may be NaN.  An operand that is [undefined] makes the
    arithmetic and the comparisons below behave as NaN does, and is
    written [NaN] too. *)
Inductive number : Type :=
| NaN
| Num (q : Q).

(** [x + y], [x - y] and [x * y]. *)
Definition addN (x y : number) : number :=
  match x, y with
  | Num a, Num b => Num (a + b)
  | _, _ => NaN
  end.
Definition subN (x y : number) : number :=
  match x, y with
  | Num a, Num b => Num (a - b)
  | _, _ => NaN
  end.
Definition mulN (x y : number) : number :=
  match x, y with
  | Num a, Num b => Num (a * b)
  | _, _ => NaN
  end.

(** [x >= y], [x > y], [x < y] and [x !== y]: a comparison with NaN is
    false, and NaN is different from everything. *)
Definition gebN (x y : number) : bool :=
  match x, y with
  | Num a, Num b => geb a b
  | _, _ => false
  end.
Definition gtbN (x y : number) : bool :=
  match x, y with
  | Num a, Num b => gtb a b
  | _, _ => false
  end.
Definition ltbN (x y : number) : bool :=
  match x, y with
  | Num a, Num b => ltb a b
  | _, _ => false
  end.
Definition neqbN (x y : number) : bool :=
  match x, y with
  | Num a, Num b => negb (eqb a b)
  | _, _ => true
  end.

(** [Math.max(x, y)], [Math.abs(x)] and [Math.round(x)] on such numbers:
    NaN as soon as an argument is. *)
Definition Math_maxN (x y : number) : number :=
  match x, y with
  | Num a, Num b => Num (Math_max a b)
  | _, _ => NaN
  end.
Definition Math_absN (x : number) : number :=
  match x with
  | Num a => Num (Math_abs a)
  | NaN => NaN
  end.
Definition Math_roundN (x : number) : number :=
  match x with
  | Num a => Num (Math_round a)
  | NaN => NaN
  end.

(** [arr.sort(compareFn)]: the stable sort of the language, as an
    insertion sort.  [compareFn(a, b) > 0] puts [b] first; an element
    stays in front of the later elements it compares equal to, and a
    comparison that gives NaN counts as equal.  (With a comparator that
    gives NaN for some pairs the language leaves the order to the
    implementation; the properties below are about comparators that do
    not.) *)
Fixpoint insert {A} (compareFn : A -> A -> number) (x : A) (l : list A)
  : list A :=
  match l with
  | [] => [x]
  | y :: rest =>
      if gtbN (compareFn x y) (Num 0) then y :: insert compareFn x rest
      else x :: y :: rest
  end.

Fixpoint sort {A} (compareFn : A -> A -> number) (l : list A) : list A :=
  match l with
  | [] => []
  | x :: rest => insert compareFn x (sort compareFn rest)
  end.

(** The names every ordinary object inherits from [Object.prototype]. *)
Definition objectPrototypeKeys : list string :=
  ["constructor"; "__defineGetter__"; "__defineSetter__"; "hasOwnProperty";
   "__lookupGetter__"; "__lookupSetter__"; "isPrototypeOf";
   "propertyIsEnumerable"; "toString"; "valueOf"; "__proto__";
   "toLocaleString"]%string.

(** What [o[k]] finds for an ordinary object [o]: an own property, a
    member inherited from [Object.prototype] (a function or an object,
    hence truthy, and without any of the fields of a configuration entry),
    or nothing. *)
Inductive Member (A : Type) : Type :=
| Own (value : A)
| Inherited (name : string)
| Missing.
Arguments Own {A} value.
Arguments Inherited {A} name.
Arguments Missing {A}.

Definition lookup {A} (o : Obj A) (k : string) : Member A :=
  match get o k with
  | Some v => Own v
  | None => if includes objectPrototypeKeys k then Inherited k else Missing
  end.

(** A thrown exception ([inl]) or a returned value ([inr]). *)
Definition Throws (E A : Type) : Type := (E + A)%type.

(** [arr.map(f)] where [f] may throw: the first exception ends the map. *)
Fixpoint mapThrows {E A B} (f : A -> Throws E B) (l : list A)
  : Throws E (list B) :=
  match l with
  | [] => inr []
  | x :: rest =>
      match f x with
      | inl e => inl e
      | inr y =>
          match mapThrows f rest with
          | inl e => inl e
          | inr ys => inr (y :: ys)
          end
      end
  end.

(** [String(i)] for an array index. *)
Definition indexKey (i : nat) : string :=
  NilEmpty.string_of_uint (Nat.to_uint i).

End JS.

(** A rational is read as a number where one is expected. *)
Coercion JS.Num : Q >-> JS.number.

(* ====================================================================== *)
(** ** types/config.ts *)
(* ====================================================================== *)

Module Types.

Record PenaltyRule : Type := mkPenaltyRule {
  points : Q;
  fatal : bool
}.

(** The keys of [CategoryWeights]. *)
Inductive Category : Type :=
| security | completeness | structure | consistency | architecture.

Definition category_name (c : Category) : string :=
  match c with
  | security => "security"
  | completeness => "completeness"
  | structure => "structure"
  | consistency => "consistency"
  | architecture => "architecture"
  end.

Record CategoryWeights : Type := mkCategoryWeights {
  w_security : Q;
  w_completeness : Q;
  w_structure : Q;
  w_consistency : Q;
  w_architecture : Q
}.

(** [weights[category]] for a key of the interface. *)
Definition weight_of (w : CategoryWeights) (c : Category) : Q :=
  match c with
  | security => w_security w
  | completeness => w_completeness w
  | structure => w_structure w
  | consistency => w_consistency w
  | architecture => w_architecture w
  end.

Record GradeThreshold : Type := mkGradeThreshold {
  min : Q;
  max : Q
}.

Record GradingScale : Type := mkGradingScale {
  A : GradeThreshold;
  B : GradeThreshold;
  C : GradeThreshold;
  D : GradeThreshold;
  F : GradeThreshold
}.

Record ScoringConfig : Type := mkScoringConfig {
  base_score : Q;
  weights : CategoryWeights;
  penalties : JS.Obj PenaltyRule;
  grading_scale : GradingScale
}.

Inductive SpectralSeverity : Type := error | warn | info | hint.

Definition severity_eqb (a b : SpectralSeverity) : bool :=
  match a, b with
  | error, error | warn, warn | info, info | hint, hint => true
  | _, _ => false
  end.

Record Violation : Type := mkViolation {
  ruleId : string;
  severity : SpectralSeverity;
  message : string;
  path : string;
  line : option Z;
  column : option Z
}.

Record CategoryScore : Type := mkCategoryScore {
  category : Category;
  weight : Q;
  pointsDeducted : JS.number;
  cs_violations : list Violation
}.

Record Summary : Type := mkSummary {
  totalViolations : nat;
  errorCount : nat;
  warningCount : nat;
  infoCount : nat;
  fatalCount : nat
}.

(** [AuditResult] without the fields read from the clock and the file
    system ([filePath], [timestamp], [duration]). *)
Record AuditResult : Type := mkAuditResult {
  finalScore : JS.number;
  grade : string;
  passed : bool;
  hasFatalErrors : bool;
  violations : list Violation;
  categoryBreakdown : list CategoryScore;
  summary : Summary;
  notes : option (list string)
}.

(** The value of a clause's [function] field: the symbolic name read from
    YAML, or, after resolution, the value found in the function table, or
    neither (the field is missing from the document or holds a value that
    is not a string: the validator does not look at it). *)
Inductive FunctionRef (Fn : Type) : Type :=
| FnName (name : string)
| FnValue (f : Fn)
| FnOther.
Arguments FnName {Fn} name.
Arguments FnValue {Fn} f.
Arguments FnOther {Fn}.

Record SpectralRuleThen (Fn : Type) : Type := mkThen {
  function : FunctionRef Fn;
  functionOptions : option string;
  field : option string
}.

(** [then: SpectralRuleThen | SpectralRuleThen[]]. *)
Inductive ThenField (Fn : Type) : Type :=
| ThenSingle (c : SpectralRuleThen Fn)
| ThenList (cs : list (SpectralRuleThen Fn)).

Record SpectralRule (Fn : Type) : Type := mkRule {
  description : string;
  given : list string;
  then_ : option (ThenField Fn);
  rule_severity : SpectralSeverity;
  tags : option (list string);
  enabled : option bool
}.

Record SpectralRuleset (Fn : Type) : Type := mkRuleset {
  extends : option (list string);
  rules : JS.Obj (SpectralRule Fn)
}.

(** [ConfigLoadError(message, configPath)]. *)
Record ConfigLoadError : Type := mkConfigLoadError {
  cle_message : string;
  configPath : string
}.

End Types.

(* ====================================================================== *)
(** ** config/loader.ts *)
(* ====================================================================== *)

Module Loader.
Import Types.
Local Open Scope string_scope.
Local Open Scope Q_scope.
Local Open Scope list_scope.

(** The values a lookup in the function table can give: the evaluators of
    the rule engine, the custom casing function, and, for a name the table
    does not define itself, the member of that name that the table, an
    object literal, inherits from [Object.prototype]. *)
Inductive SpectralFunction : Type :=
| truthy | falsy | defined | undefined | pattern | schema | enumeration
| length | alphabetical | casing | xor | unreferencedReusableObject
| consistentCasing
| inherited (member : string).

(** Map of Spectral function names to actual functions. *)
Definition SPECTRAL_FUNCTION_MAP : JS.Obj SpectralFunction :=
  [("truthy", truthy);
   ("falsy", falsy);
   ("defined", defined);
   ("undefined", undefined);
   ("pattern", pattern);
   ("schema", schema);
   ("enumeration", enumeration);
   ("length", length);
   ("alphabetical", alphabetical);
   ("casing", casing);
   ("xor", xor);
   ("unreferencedReusableObject", unreferencedReusableObject);
   ("unreferenced-reusable-object", unreferencedReusableObject);
   ("consistentCasing", consistentCasing);
   ("consistent-casing", consistentCasing)].

(** [SPECTRAL_FUNCTION_MAP[name]]: an own property, or else an inherited
    member (all of them functions or objects, hence truthy), or else
    [undefined]. *)
Definition lookupFunction (name : string) : option SpectralFunction :=
  match JS.get SPECTRAL_FUNCTION_MAP name with
  | Some func => Some func
  | None =>
      if JS.includes JS.objectPrototypeKeys name then Some (inherited name)
      else None
  end.

Abbreviation Rule := (SpectralRule SpectralFunction).
Abbreviation Ruleset := (SpectralRuleset SpectralFunction).
Abbreviation Then := (SpectralRuleThen SpectralFunction).

(** The callback of [thenArray.map] in [resolveRuleFunctions]. *)
Definition resolveThenClause (ruleId : string) (thenClause : Then)
  : JS.Throws ConfigLoadError Then :=
  match function thenClause with
  | FnName name =>
      match lookupFunction name with
      | None =>
          inl (mkConfigLoadError
                 ("Unknown Spectral function: " ++ name ++
                  " in rule " ++ ruleId)%string
                 "ruleset.yaml")
      | Some func =>
          inr (mkThen (FnValue func)
                      (functionOptions thenClause) (field thenClause))
      end
  | FnValue _ | FnOther => inr thenClause
  end.

(** The body of the loop over [Object.entries(ruleset.rules)]. *)
Definition resolveRule (entry : string * Rule)
  : JS.Throws ConfigLoadError (string * Rule) :=
  let (ruleId, rule) := entry in
  match then_ rule with
  | Some t =>
      let thenArray :=
        match t with ThenList cs => cs | ThenSingle c => [c] end in
      match JS.mapThrows (resolveThenClause ruleId) thenArray with
      | inl e => inl e
      | inr resolvedThen =>
          let written :=
            match t with
            | ThenList _ => Some (ThenList resolvedThen)
            | ThenSingle _ => option_map (@ThenSingle _) (hd_error resolvedThen)
            end in
          inr (ruleId,
               mkRule (description rule) (given rule) written
                      (rule_severity rule) (tags rule) (enabled rule))
      end
  | None => inr (ruleId, rule)
  end.

(** [resolvedRules[ruleId] = ...] for each resolved rule in turn, on an
    object literal that starts empty: the identifiers of the source are
    distinct and come in enumeration order, so each assignment adds a
    property at the end, except for the identifier [__proto__], for which
    the assignment sets the prototype of [resolvedRules] and adds no
    property. *)
Definition assigned (resolved : list (string * Rule)) : JS.Obj Rule :=
  filter (fun entry => negb (String.eqb (fst entry) "__proto__")) resolved.

(** Resolves function names to actual Spectral functions. *)
Definition resolveRuleFunctions (ruleset : Ruleset)
  : JS.Throws ConfigLoadError Ruleset :=
  match JS.mapThrows resolveRule (JS.entries (rules ruleset)) with
  | inl e => inl e
  | inr resolvedRules =>
      inr (mkRuleset (extends ruleset) (assigned resolvedRules))
  end.

(** The error strings of the validators, by template; the numbers that
    the templates interpolate are kept as numbers. *)
Inductive ValidationError : Type :=
| ConfigNotObject
| BadBaseScore
| WeightsNotObject
| WeightsSum (sum : JS.number)
| MissingWeight (category : string)
| PenaltiesNotObject
| ScaleNotObject
| MissingGrade (grade : string)
| InvalidRange (grade : string) (min max : JS.number)
| GapOverlap (currentMax nextMin : JS.number).

(** Validates that weights sum to 1.0.  The values of the mapping are
    numbers, NaN (written [.nan] in YAML) included. *)
Definition validateWeights (weights : JS.Obj JS.number)
  : list ValidationError :=
  let sum :=
    fold_left (fun acc val => JS.addN acc val) (JS.values weights)
              (JS.Num 0) in
  let errors :=
    if JS.gtbN (JS.Math_absN (JS.subN sum 1)) (1 # 1000)
    then [WeightsSum sum]
    else [] in
  let requiredCategories :=
    ["security"; "completeness"; "structure"; "consistency";
     "architecture"] in
  fold_left (fun errors category =>
               if negb (JS.has weights category)
               then errors ++ [MissingWeight category]
               else errors)
            requiredCategories errors.

Definition grades : list string := ["A"; "B"; "C"; "D"; "F"].

(** What the destructuring [{ min, max } = scale[grade]] reads: two
    numbers, where a bound that is missing is [undefined] and is written
    [NaN] (see [JS.number]). *)
Record Bounds : Type := mkBounds {
  b_min : JS.number;
  b_max : JS.number
}.

(** An entry of the parsed grading scale: an object, by its two bounds, or
    a scalar (a boolean, a number or a string) with its truth value.  A
    scalar has no bounds, and [filter(Boolean)] drops it when it is falsy.
    The entry [null], at which the destructuring throws a [TypeError], is
    not represented. *)
Inductive GradeEntry : Type :=
| EntryObject (bounds : Bounds)
| EntryScalar (truth : bool).

Definition boundsOf (entry : GradeEntry) : Bounds :=
  match entry with
  | EntryObject bounds => bounds
  | EntryScalar _ => mkBounds JS.NaN JS.NaN
  end.

(** [Boolean(entry)]. *)
Definition isTruthy (entry : GradeEntry) : bool :=
  match entry with
  | EntryObject _ => true
  | EntryScalar truth => truth
  end.

(** The loop over adjacent entries of the sorted ranges. *)
Fixpoint gapErrors (sorted : list Bounds) : list ValidationError :=
  match sorted with
  | current :: ((next :: _) as rest) =>
      (if JS.neqbN (JS.addN (b_max current) 1) (b_min next)
       then [GapOverlap (b_max current) (b_min next)]
       else []) ++ gapErrors rest
  | _ => []
  end.

(** Validates grading scale for overlapping ranges. *)
Definition validateGradingScale (scale : JS.Obj GradeEntry)
  : list ValidationError :=
  let errors :=
    fold_left (fun errors grade =>
                 match JS.get scale grade with
                 | None => errors ++ [MissingGrade grade]
                 | Some entry =>
                     let (min, max) := boundsOf entry in
                     if JS.gtbN min max
                     then errors ++ [InvalidRange grade min max]
                     else errors
                 end)
              grades [] in
  let sorted :=
    JS.sort (fun a b => JS.subN (b_max a) (b_max b))
            (map boundsOf
                 (filter isTruthy
                         (flat_map (fun g => match JS.get scale g with
                                             | Some entry => [entry]
                                             | None => []
                                             end)
                                   grades))) in
  errors ++ gapErrors sorted.

(** The parsed scoring document, field by field: [None] where the field
    fails the [typeof] test made on it. *)
Record RawScoringConfig : Type := mkRaw {
  raw_base_score : option JS.number;
  raw_weights : option (JS.Obj JS.number);
  raw_penalties : option (JS.Obj PenaltyRule);
  raw_grading_scale : option (JS.Obj GradeEntry)
}.

Inductive ValidationResult (T : Type) : Type :=
| Success (data : T)
| Failure (errors : list ValidationError).
Arguments Success {T} data.
Arguments Failure {T} errors.

(** Pure function to validate scoring configuration; [None] is a value
    that is not an object. *)
Definition validateScoringConfig (config : option RawScoringConfig)
  : ValidationResult RawScoringConfig :=
  match config with
  | None => Failure [ConfigNotObject]
  | Some cfg =>
      let errors1 :=
        match raw_base_score cfg with
        | Some b =>
            if JS.ltbN b 0 || JS.gtbN b 100 then [BadBaseScore] else []
        | None => [BadBaseScore]
        end in
      let errors2 :=
        match raw_weights cfg with
        | None => errors1 ++ [WeightsNotObject]
        | Some w => errors1 ++ validateWeights w
        end in
      let errors3 :=
        match raw_penalties cfg with
        | None => errors2 ++ [PenaltiesNotObject]
        | Some _ => errors2
        end in
      let errors4 :=
        match raw_grading_scale cfg with
        | None => errors3 ++ [ScaleNotObject]
        | Some s => errors3 ++ validateGradingScale s
        end in
      match errors4 with
      | [] => Success cfg
      | _ :: _ => Failure errors4
      end
  end.

End Loader.

(* ====================================================================== *)
(** ** functions/consistent-casing.js *)
(* ====================================================================== *)

(** Regular expressions over characters, matched by derivatives; a pattern
    written between [^] and [$] is matched against the whole key. *)
Module RegExp.

Inductive t : Type :=
| Void
| Eps
| Class (p : ascii -> bool)
| Cat (r1 r2 : t)
| Alt (r1 r2 : t)
| Star (r : t).

Fixpoint nullable (r : t) : bool :=
  match r with
  | Void => false
  | Eps => true
  | Class _ => false
  | Cat r1 r2 => nullable r1 && nullable r2
  | Alt r1 r2 => nullable r1 || nullable r2
  | Star _ => true
  end.

Fixpoint deriv (c : ascii) (r : t) : t :=
  match r with
  | Void => Void
  | Eps => Void
  | Class p => if p c then Eps else Void
  | Cat r1 r2 =>
      if nullable r1
      then Alt (Cat (deriv c r1) r2) (deriv c r2)
      else Cat (deriv c r1) r2
  | Alt r1 r2 => Alt (deriv c r1) (deriv c r2)
  | Star r1 => Cat (deriv c r1) (Star r1)
  end.

(** [/^r$/.test(s)]. *)
Fixpoint test (r : t) (s : string) : bool :=
  match s with
  | EmptyString => nullable r
  | String c rest => test (deriv c r) rest
  end.

(** The language of a pattern, for reference. *)
Inductive matches : t -> string -> Prop :=
| m_eps : matches Eps EmptyString
| m_class p c : p c = true -> matches (Class p) (String c EmptyString)
| m_cat r1 r2 s1 s2 :
    matches r1 s1 -> matches r2 s2 -> matches (Cat r1 r2) (s1 ++ s2)
| m_alt_l r1 r2 s : matches r1 s -> matches (Alt r1 r2) s
| m_alt_r r1 r2 s : matches r2 s -> matches (Alt r1 r2) s
| m_star_nil r : matches (Star r) EmptyString
| m_star_cons r s1 s2 :
    matches r s1 -> matches (Star r) s2 -> matches (Star r) (s1 ++ s2).

(** Character classes [[a-z]], [[A-Z]], [[0-9]] and a single character. *)
Definition range (lo hi : ascii) (c : ascii) : bool :=
  (nat_of_ascii lo <=? nat_of_ascii c)%nat &&
  (nat_of_ascii c <=? nat_of_ascii hi)%nat.
Definition lower : ascii -> bool := range "a" "z".
Definition upper : ascii -> bool := range "A" "Z".
Definition digit : ascii -> bool := range "0" "9".
Definition char (x : ascii) (c : ascii) : bool := Ascii.eqb c x.
Definition union (p q : ascii -> bool) (c : ascii) : bool := p c || q c.

End RegExp.

Module ConsistentCasing.
Import RegExp.
Local Open Scope string_scope.
Local Open Scope list_scope.

(** A parsed YAML/JSON value. *)
#[local] Unset Elimination Schemes.
Inductive JValue : Type :=
| JNull
| JBool (b : bool)
| JNumber (n : Q)
| JString (s : string)
| JArray (items : list JValue)
| JObject (members : list (string * JValue)).
#[local] Set Elimination Schemes.

(** One of a-z, then any number of a-z, A-Z, 0-9, between ^ and $. *)
Definition CAMEL_CASE_PATTERN : RegExp.t :=
  Cat (Class lower) (Star (Class (union lower (union upper digit)))).

(** A word (one of a-z, then any number of a-z, 0-9), then any number of
    groups made of an underscore and a word, between ^ and $. *)
Definition SNAKE_CASE_PATTERN : RegExp.t :=
  Cat (Class lower)
      (Cat (Star (Class (union lower digit)))
           (Star (Cat (Class (char "_"))
                      (Cat (Class lower)
                           (Star (Class (union lower digit))))))).

Definition IGNORED_KEYS : list string :=
  ["type"; "format"; "properties"; "items"; "required"; "description";
   "example"; "examples"].

(** Checks if a key is camelCase. *)
Definition isCamelCase (key : string) : bool :=
  RegExp.test CAMEL_CASE_PATTERN key && negb (JS.includesChar key "_").

(** Checks if a key is snake_case. *)
Definition isSnakeCase (key : string) : bool :=
  RegExp.test SNAKE_CASE_PATTERN key && JS.includesChar key "_".

Record Stats : Type := mkStats {
  camelCase : nat;
  snakeCase : nat;
  total : nat
}.

(** [typeof v === 'object'] (true of [null] and of arrays as well). *)
Definition typeofObject (v : JValue) : bool :=
  match v with
  | JNull | JArray _ | JObject _ => true
  | _ => false
  end.

Definition isNull (v : JValue) : bool :=
  match v with JNull => true | _ => false end.

(** One iteration of the loop over [Object.keys(obj)], for the key [key]
    with value [value]; [recurse] is [countCasingStyles(obj[key], _)]. *)
Definition visitKey (key : string) (value : JValue)
           (recurse : Stats -> Stats) (stats : Stats) : Stats :=
  if JS.includes IGNORED_KEYS key then
    let stats1 :=
      if String.eqb key "properties" && typeofObject value
      then recurse stats else stats in
    let stats2 :=
      if String.eqb key "items" && typeofObject value
      then recurse stats1 else stats1 in
    stats2
  else
    let stats1 :=
      mkStats (camelCase stats) (snakeCase stats) (S (total stats)) in
    let stats2 :=
      if isCamelCase key
      then mkStats (S (camelCase stats1)) (snakeCase stats1) (total stats1)
      else if isSnakeCase key
      then mkStats (camelCase stats1) (S (snakeCase stats1)) (total stats1)
      else stats1 in
    if typeofObject value && negb (isNull value)
    then recurse stats2 else stats2.

(** The loop over the keys of an object, in the order of its members;
    [count] is the function being defined. *)
Fixpoint forMembers (count : JValue -> Stats -> Stats)
         (members : list (string * JValue)) (stats : Stats) : Stats :=
  match members with
  | [] => stats
  | (key, value) :: rest =>
      forMembers count rest (visitKey key value (count value) stats)
  end.

(** The loop over the keys of an array: its indices from [i] on. *)
Fixpoint forItems (count : JValue -> Stats -> Stats)
         (items : list JValue) (i : nat) (stats : Stats) : Stats :=
  match items with
  | [] => stats
  | value :: rest =>
      forItems count rest (S i)
               (visitKey (JS.indexKey i) value (count value) stats)
  end.

(** Recursively counts casing styles in an object. *)
Fixpoint countCasingStyles (obj : JValue) (stats : Stats) {struct obj}
  : Stats :=
  match obj with
  | JObject members => forMembers countCasingStyles members stats
  | JArray items => forItems countCasingStyles items 0%nat stats
  | _ => stats
  end.

(** The message of a finding, by the values its template interpolates;
    [percentage] is [ratio * 100] before [toFixed(1)]. *)
Record Finding : Type := mkFinding {
  found_camelCase : nat;
  found_snakeCase : nat;
  majorityStyle : string;
  minorityStyle : string;
  percentage : Q
}.

Definition num (n : nat) : Q := inject_Z (Z.of_nat n).

(** Spectral custom function for consistent casing validation. *)
Definition consistentCasing (targetVal : JValue) : list Finding :=
  let stats := countCasingStyles targetVal (mkStats 0 0 0) in
  if (total stats <=? 5)%nat then []
  else
    let majority := Nat.max (camelCase stats) (snakeCase stats) in
    let minority := Nat.min (camelCase stats) (snakeCase stats) in
    if (minority =? 0)%nat then []
    else
      let ratio := (num minority / (num majority + num minority))%Q in
      if JS.gtb ratio (20 # 100) then
        let majorityStyle :=
          if (snakeCase stats <? camelCase stats)%nat
          then "camelCase" else "snake_case" in
        let minorityStyle :=
          if (snakeCase stats <? camelCase stats)%nat
          then "snake_case" else "camelCase" in
        [mkFinding (camelCase stats) (snakeCase stats)
                   majorityStyle minorityStyle (ratio * 100)%Q]
      else [].

End ConsistentCasing.

(* ====================================================================== *)
(** ** core/auditor.ts *)
(* ====================================================================== *)

Module Auditor.
Import Types.
Local Open Scope string_scope.
Local Open Scope Q_scope.

(** Determines category from rule tags or ID prefix. *)
Definition getRuleCategory (ruleId : string) (tags : option (list string))
  : string :=
  let fromPrefix :=
    if JS.startsWith ruleId "sec-" then "security"
    else if JS.startsWith ruleId "com-" then "completeness"
    else if JS.startsWith ruleId "str-" then "structure"
    else if JS.startsWith ruleId "cns-" then "consistency"
    else "completeness" in
  match tags with
  | Some tags =>
      if JS.includes tags "security" then "security"
      else if JS.includes tags "completeness" then "completeness"
      else if JS.includes tags "structure" then "structure"
      else if JS.includes tags "consistency" then "consistency"
      else fromPrefix
  | None => fromPrefix
  end.

(** One raw finding of the rule engine. *)
Record SpectralResult : Type := mkSpectralResult {
  code : string;
  sr_severity : Z;
  sr_message : string;
  sr_path : list string;
  range : option (Z * Z)
}.

(** Converts Spectral results to internal Violation format. *)
Definition convertResults (spectralResults : list SpectralResult)
  : list Violation :=
  map (fun result =>
         mkViolation
           (code result)
           (if Z.eqb (sr_severity result) 0 then error
            else if Z.eqb (sr_severity result) 1 then warn
            else if Z.eqb (sr_severity result) 2 then info
            else hint)
           (sr_message result)
           (String.concat "." (sr_path result))
           (option_map fst (range result))
           (option_map snd (range result)))
      spectralResults.

(** [ruleset.rules[v.ruleId]?.tags]; a member that the rules inherit from
    [Object.prototype] has no [tags]. *)
Definition tagsOf {Fn} (ruleset : SpectralRuleset Fn) (id : string)
  : option (list string) :=
  match JS.get (rules ruleset) id with
  | Some rule => tags rule
  | None => None
  end.

(** The body of the [for] loop over a category's violations.  For a rule
    identifier that is the name of a member of [Object.prototype] and has
    no entry of its own, [penalties[ruleId]] is that member: it is truthy
    and its [points] is [undefined]. *)
Definition addPenalty (scoringConfig : ScoringConfig)
           (pointsDeducted : JS.number) (violation : Violation)
  : JS.number :=
  match JS.lookup (penalties scoringConfig) (ruleId violation) with
  | JS.Own penalty => JS.addN pointsDeducted (points penalty)
  | JS.Inherited _ => JS.addN pointsDeducted JS.NaN
  | JS.Missing =>
      JS.addN pointsDeducted
              (if severity_eqb (severity violation) error then 10
               else if severity_eqb (severity violation) warn then 5
               else 2)
  end.

Definition categories : list Category :=
  [security; completeness; structure; consistency].

(** Calculates score breakdown by category. *)
Definition calculateCategoryScores {Fn} (violations : list Violation)
           (scoringConfig : ScoringConfig) (ruleset : SpectralRuleset Fn)
  : list CategoryScore :=
  map (fun category =>
         let categoryViolations :=
           filter (fun v =>
                     String.eqb
                       (getRuleCategory (ruleId v) (tagsOf ruleset (ruleId v)))
                       (category_name category))
                  violations in
         let pointsDeducted :=
           fold_left (addPenalty scoringConfig) categoryViolations
                     (JS.Num 0) in
         mkCategoryScore category
                         (weight_of (weights scoringConfig) category)
                         pointsDeducted
                         categoryViolations)
      categories.

(** Calculates final grade based on score. *)
Definition calculateGrade (score : JS.number) (scale : GradingScale)
  : string :=
  if JS.gebN score (min (A scale)) then "A"
  else if JS.gebN score (min (B scale)) then "B"
  else if JS.gebN score (min (C scale)) then "C"
  else if JS.gebN score (min (D scale)) then "D"
  else "F".

(** [penalty?.fatal === true] for the penalty of a violation's rule; an
    inherited member has no [fatal]. *)
Definition isFatal (scoringConfig : ScoringConfig) (v : Violation) : bool :=
  match JS.get (penalties scoringConfig) (ruleId v) with
  | Some penalty => fatal penalty
  | None => false
  end.

Record Score : Type := mkScore {
  s_finalScore : JS.number;
  s_hasFatalErrors : bool
}.

(** Calculates final score and detects fatal errors. *)
Definition calculateScore (scoringConfig : ScoringConfig)
           (violations : list Violation)
           (categoryScores : list CategoryScore) : Score :=
  let hasFatalErrors := existsb (isFatal scoringConfig) violations in
  if hasFatalErrors then mkScore 0 true
  else
    let totalPenalty :=
      fold_left (fun totalPenalty category =>
                   let weightedPenalty :=
                     JS.mulN (pointsDeducted category) (weight category) in
                   JS.addN totalPenalty weightedPenalty)
                categoryScores (JS.Num 0) in
    let finalScore :=
      JS.Math_maxN 0 (JS.subN (base_score scoringConfig) totalPenalty) in
    mkScore finalScore false.

Definition resolutionNote : string :=
  "Warning: OpenAPI validation failed. File may contain structural errors that prevent full dereferencing. Audit results may be incomplete.".

(** The part of [audit] after the rule engine has run: from the raw
    findings and the outcome of the dereferencing attempt to the result. *)
Definition audit {Fn} (scoringConfig : ScoringConfig)
           (rulesetConfig : SpectralRuleset Fn)
           (hasResolutionErrors : bool)
           (spectralResults : list SpectralResult) : AuditResult :=
  let violations := convertResults spectralResults in
  let categoryBreakdown :=
    calculateCategoryScores violations scoringConfig rulesetConfig in
  let score := calculateScore scoringConfig violations categoryBreakdown in
  let finalScore := s_finalScore score in
  let hasFatalErrors := s_hasFatalErrors score in
  let grade := calculateGrade finalScore (grading_scale scoringConfig) in
  let errorCount :=
    List.length (filter (fun v => severity_eqb (severity v) error) violations) in
  let warningCount :=
    List.length (filter (fun v => severity_eqb (severity v) warn) violations) in
  let infoCount :=
    List.length (filter (fun v => severity_eqb (severity v) info) violations) in
  let fatalCount := List.length (filter (isFatal scoringConfig) violations) in
  mkAuditResult
    (JS.Math_roundN finalScore)
    grade
    (negb (String.eqb grade "F") && negb hasFatalErrors)
    hasFatalErrors
    violations
    categoryBreakdown
    (mkSummary (List.length violations) errorCount warningCount infoCount
               fatalCount)
    (if hasResolutionErrors then Some [resolutionNote] else None).

End Auditor.

(* ====================================================================== *)
(** ** cli/index.ts: the grade order *)
(* ====================================================================== *)

Module Cli.
Local Open Scope string_scope.

(** Grade order for comparison (higher is better). *)
Definition GRADE_ORDER : JS.Obj nat :=
  [("A", 5%nat); ("B", 4%nat); ("C", 3%nat); ("D", 2%nat); ("F", 1%nat)].

(** [GRADE_ORDER[grade]]. *)
Definition gradeOrder (grade : string) : option nat :=
  JS.get GRADE_ORDER grade.

(** Checks if a grade meets the minimum requirement. *)
Definition meetsMinimumGrade (actualGrade minimumGrade : string) : bool :=
  match gradeOrder actualGrade, gradeOrder minimumGrade with
  | Some a, Some m => Nat.leb m a
  | _, _ => false
  end.

End Cli.

(* ====================================================================== *)
(** ** The specification's formulations *)
(* ====================================================================== *)

(** Definitions written from the words of the specification, against which
    the functions above are compared. *)

Module ClassifierSpec.
Local Open Scope string_scope.

(** The classification in the specification's words: the first tag, in
    the fixed priority, that the rule carries; failing that the category
    of the identifier's prefix; failing that completeness. *)
Definition tagPriority : list string :=
  ["security"; "completeness"; "structure"; "consistency"].

Definition prefixConvention : list (string * string) :=
  [("sec-", "security"); ("com-", "completeness");
   ("str-", "structure"); ("cns-", "consistency")].

Definition classify (ruleId : string) (tags : option (list string))
  : string :=
  let carried := match tags with Some ts => ts | None => [] end in
  match find (JS.includes carried) tagPriority with
  | Some c => c
  | None =>
      match find (fun pc => JS.startsWith ruleId (fst pc)) prefixConvention
      with
      | Some pc => snd pc
      | None => "completeness"
      end
  end.

End ClassifierSpec.

Module ScoreSpec.
Import Types.
Local Open Scope Q_scope.

(** The score in the specification's words. *)

(** Penalty points of one violation: the configured points of its rule if
    the rule has a penalty entry, otherwise 10, 5 or 2 by severity. *)
Definition violationPoints (cfg : ScoringConfig) (v : Violation) : Q :=
  match JS.get (penalties cfg) (ruleId v) with
  | Some p => points p
  | None =>
      match severity v with
      | error => 10
      | warn => 5
      | info | hint => 2
      end
  end.

Fixpoint sumQ (l : list Q) : Q :=
  match l with
  | [] => 0
  | x :: rest => x + sumQ rest
  end.

(** The violations that the classifier puts in category [c]. *)
Definition inCategory {Fn} (rs : SpectralRuleset Fn) (c : Category)
           (v : Violation) : bool :=
  String.eqb
    (Auditor.getRuleCategory (ruleId v) (Auditor.tagsOf rs (ruleId v)))
    (category_name c).

Definition categoryPoints {Fn} (cfg : ScoringConfig)
           (rs : SpectralRuleset Fn) (vs : list Violation) (c : Category)
  : Q :=
  sumQ (map (violationPoints cfg) (filter (inCategory rs c) vs)).

(** Sum over the four scored categories of weight times points. *)
Definition totalPenalty {Fn} (cfg : ScoringConfig)
           (rs : SpectralRuleset Fn) (vs : list Violation) : Q :=
  weight_of (weights cfg) security * categoryPoints cfg rs vs security +
  weight_of (weights cfg) completeness * categoryPoints cfg rs vs completeness +
  weight_of (weights cfg) structure * categoryPoints cfg rs vs structure +
  weight_of (weights cfg) consistency * categoryPoints cfg rs vs consistency.

(** max(0, base_score - totalPenalty). *)
Definition finalScore {Fn} (cfg : ScoringConfig)
           (rs : SpectralRuleset Fn) (vs : list Violation) : Q :=
  let s := base_score cfg - totalPenalty cfg rs vs in
  if Qle_bool 0 s then s else 0.

(** Every lookup of a violation's rule among the penalties finds an entry
    of the configuration or nothing: no rule identifier without an entry
    is the name of a member of [Object.prototype]. *)
Definition ownEntries (cfg : ScoringConfig) (vs : list Violation) : Prop :=
  forall v,
    In v vs -> JS.get (penalties cfg) (ruleId v) = None ->
    JS.includes JS.objectPrototypeKeys (ruleId v) = false.

(** Some violation's rule has no entry and is the name of a member of
    [Object.prototype]. *)
Definition inheritedEntry (cfg : ScoringConfig) (vs : list Violation)
  : Prop :=
  exists v,
    In v vs /\ JS.get (penalties cfg) (ruleId v) = None /\
    JS.includes JS.objectPrototypeKeys (ruleId v) = true.

(** No violation's rule has a penalty configured as fatal. *)
Definition noFatal (cfg : ScoringConfig) (vs : list Violation) : Prop :=
  forall v p,
    In v vs -> JS.get (penalties cfg) (ruleId v) = Some p -> fatal p = false.

(** Some violation's rule has a penalty configured as fatal. *)
Definition someFatal (cfg : ScoringConfig) (vs : list Violation) : Prop :=
  exists v p,
    In v vs /\ JS.get (penalties cfg) (ruleId v) = Some p /\ fatal p = true.

End ScoreSpec.

Module SummarySpec.
Import Types.
Local Open Scope nat_scope.

(** Number of violations of a given severity. *)
Fixpoint countSeverity (s : SpectralSeverity) (vs : list Violation) : nat :=
  match vs with
  | [] => 0
  | v :: rest =>
      (if severity_eqb (severity v) s then 1 else 0) + countSeverity s rest
  end.

End SummarySpec.

Module ResolverSpec.
Import Types.
Local Open Scope string_scope.

(** The clauses of a rule, whether [then] is one clause or a list. *)
Definition clausesOf {Fn} (rule : SpectralRule Fn)
  : list (SpectralRuleThen Fn) :=
  match then_ rule with
  | Some (ThenSingle c) => [c]
  | Some (ThenList cs) => cs
  | None => []
  end.

(** The rule [ruleId] of the rule set has a clause that names [name]. *)
Definition names {Fn} (ruleset : SpectralRuleset Fn)
           (ruleId name : string) : Prop :=
  exists rule clause,
    In (ruleId, rule) (rules ruleset) /\ In clause (clausesOf rule) /\
    function clause = FnName name.

(** An evaluator is known when the function table defines it. *)
Definition known (name : string) : bool :=
  JS.has Loader.SPECTRAL_FUNCTION_MAP name.

(** [then] keeps its form: one clause stays one clause, a list stays a
    list of the same length. *)
Definition sameShape {Fn} (before after : option (ThenField Fn)) : Prop :=
  match before, after with
  | None, None => True
  | Some (ThenSingle _), Some (ThenSingle _) => True
  | Some (ThenList cs), Some (ThenList cs') =>
      List.length cs = List.length cs'
  | _, _ => False
  end.

(** The message of the error for an unknown function. *)
Definition unknownFunction (name ruleId : string) : ConfigLoadError :=
  mkConfigLoadError
    ("Unknown Spectral function: " ++ name ++ " in rule " ++ ruleId)
    "ruleset.yaml".

(** [needle] occurs in [s]. *)
Definition occursIn (needle s : string) : Prop :=
  exists before after, s = before ++ needle ++ after.

End ResolverSpec.

Module CasingSpec.
Import ConsistentCasing.
Local Open Scope string_scope.
Local Open Scope list_scope.

(** The keys that the traversal counts, in the specification's words:
    every key of the subtree except those of the ignore list, where the
    subtree under an ignored key is left out unless the key is
    [properties] or [items]. *)
Definition keysAt (key : string) (below : list string) : list string :=
  if JS.includes IGNORED_KEYS key then
    if String.eqb key "properties" || String.eqb key "items"
    then below else []
  else key :: below.

Fixpoint keysOfMembers (counted : JValue -> list string)
         (members : list (string * JValue)) : list string :=
  match members with
  | [] => []
  | (key, value) :: rest =>
      keysAt key (counted value) ++ keysOfMembers counted rest
  end.

Fixpoint keysOfItems (counted : JValue -> list string)
         (items : list JValue) (i : nat) : list string :=
  match items with
  | [] => []
  | value :: rest =>
      keysAt (JS.indexKey i) (counted value) ++
      keysOfItems counted rest (S i)
  end.

Fixpoint countedKeys (obj : JValue) : list string :=
  match obj with
  | JObject members => keysOfMembers countedKeys members
  | JArray items => keysOfItems countedKeys items 0
  | _ => []
  end.

(** The style bucket of a key: at most one. *)
Inductive Style : Type := Camel | Snake | Neither.

Definition styleOf (key : string) : Style :=
  if isCamelCase key then Camel
  else if isSnakeCase key then Snake
  else Neither.

Definition isStyle (s : Style) (key : string) : bool :=
  match s, styleOf key with
  | Camel, Camel | Snake, Snake | Neither, Neither => true
  | _, _ => false
  end.

Definition countStyle (s : Style) (keys : list string) : nat :=
  List.length (filter (isStyle s) keys).

(** The counters after counting [keys] on top of [stats]. *)
Definition tally (keys : list string) (stats : Stats) : Stats :=
  mkStats (camelCase stats + countStyle Camel keys)
          (snakeCase stats + countStyle Snake keys)
          (total stats + List.length keys).

(** The snake_case test as the claim words it, with a pattern that is
    anchored at the start of the key only: the key passes when one of its
    prefixes is a word followed by groups of an underscore and a word,
    and the key has an underscore somewhere. *)
Definition anyChar (c : ascii) : bool := true.

Definition PATTERN_WITHOUT_END_ANCHOR : RegExp.t :=
  RegExp.Cat SNAKE_CASE_PATTERN (RegExp.Star (RegExp.Class anyChar)).

Definition isSnakeCaseUnanchored (key : string) : bool :=
  RegExp.test PATTERN_WITHOUT_END_ANCHOR key && JS.includesChar key "_".

(** The minority share of the two counted styles. *)
Definition majority (stats : Stats) : nat :=
  Nat.max (camelCase stats) (snakeCase stats).
Definition minority (stats : Stats) : nat :=
  Nat.min (camelCase stats) (snakeCase stats).
Definition ratio (stats : Stats) : Q :=
  (num (minority stats) / (num (majority stats) + num (minority stats)))%Q.

End CasingSpec.

Module ValidatorSpec.
Import Types.
Local Open Scope Q_scope.

(** Adjacent ranges leave no gap and do not overlap: the next range starts
    one above the end of the previous one. *)
Inductive Contiguous : list GradeThreshold -> Prop :=
| contiguous_nil : Contiguous []
| contiguous_one t : Contiguous [t]
| contiguous_cons a b l :
    max a + 1 == min b -> Contiguous (b :: l) -> Contiguous (a :: b :: l).


(** The bounds of [t] are in order. *)
Definition valid (t : GradeThreshold) : Prop := min t <= max t.

(** The range [a] lies entirely below the range [b]. *)
Definition below (a b : GradeThreshold) : Prop := max a < min b.




(** The five categories a weights mapping must name. *)
Definition requiredCategories : list string :=
  ["security"; "completeness"; "structure"; "consistency";
   "architecture"]%string.

(** A range with two numeric bounds as the validator finds it in the
    parsed scale. *)
Definition boundsOfRange (t : GradeThreshold) : Loader.Bounds :=
  Loader.mkBounds (min t) (max t).

Definition rangeEntry (t : GradeThreshold) : Loader.GradeEntry :=
  Loader.EntryObject (boundsOfRange t).

(** Every entry that the scale has for a grade is an object with two
    numeric bounds: no scalar, no bound missing or NaN. *)
Definition numeric (scale : JS.Obj Loader.GradeEntry) : Prop :=
  forall g entry,
    In g Loader.grades -> JS.get scale g = Some entry ->
    exists t, entry = rangeEntry t.

(** The errors of [validateWeights] and [validateGradingScale], part by
    part. *)
Definition weightSum (weights : JS.Obj JS.number) : JS.number :=
  fold_left (fun acc val => JS.addN acc val) (JS.values weights) (JS.Num 0).

Definition sumErrors (weights : JS.Obj JS.number)
  : list Loader.ValidationError :=
  if JS.gtbN (JS.Math_absN (JS.subN (weightSum weights) 1)) (1 # 1000)
  then [Loader.WeightsSum (weightSum weights)] else [].

Definition missingErrors (weights : JS.Obj JS.number) (category : string)
  : list Loader.ValidationError :=
  if negb (JS.has weights category) then [Loader.MissingWeight category]
  else [].

Definition gradeErrors (scale : JS.Obj Loader.GradeEntry) (grade : string)
  : list Loader.ValidationError :=
  match JS.get scale grade with
  | None => [Loader.MissingGrade grade]
  | Some entry =>
      if JS.gtbN (Loader.b_min (Loader.boundsOf entry))
                 (Loader.b_max (Loader.boundsOf entry))
      then [Loader.InvalidRange grade (Loader.b_min (Loader.boundsOf entry))
                                (Loader.b_max (Loader.boundsOf entry))]
      else []
  end.

(** The bounds of the truthy entries of the grades present, in the order
    A, B, C, D, F. *)
Definition ranges (scale : JS.Obj Loader.GradeEntry) : list Loader.Bounds :=
  map Loader.boundsOf
      (filter Loader.isTruthy
              (flat_map (fun g => match JS.get scale g with
                                  | Some entry => [entry]
                                  | None => []
                                  end) Loader.grades)).

Definition sortedRanges (scale : JS.Obj Loader.GradeEntry)
  : list Loader.Bounds :=
  JS.sort (fun a b => JS.subN (Loader.b_max a) (Loader.b_max b))
          (ranges scale).

(** The errors of [validateScoringConfig], check by check. *)
Definition baseErrors (cfg : Loader.RawScoringConfig)
  : list Loader.ValidationError :=
  match Loader.raw_base_score cfg with
  | Some b =>
      if JS.ltbN b 0 || JS.gtbN b 100 then [Loader.BadBaseScore] else []
  | None => [Loader.BadBaseScore]
  end.

Definition weightsErrors (cfg : Loader.RawScoringConfig)
  : list Loader.ValidationError :=
  match Loader.raw_weights cfg with
  | Some w => Loader.validateWeights w
  | None => [Loader.WeightsNotObject]
  end.

Definition penaltiesErrors (cfg : Loader.RawScoringConfig)
  : list Loader.ValidationError :=
  match Loader.raw_penalties cfg with
  | Some _ => []
  | None => [Loader.PenaltiesNotObject]
  end.

Definition scaleErrors (cfg : Loader.RawScoringConfig)
  : list Loader.ValidationError :=
  match Loader.raw_grading_scale cfg with
  | Some s => Loader.validateGradingScale s
  | None => [Loader.ScaleNotObject]
  end.

Definition allErrors (cfg : Loader.RawScoringConfig)
  : list Loader.ValidationError :=
  baseErrors cfg ++ weightsErrors cfg ++ penaltiesErrors cfg ++
  scaleErrors cfg.

(** The validator accepts the document. *)
Definition accepted (cfg : Loader.RawScoringConfig) : Prop :=
  Loader.validateScoringConfig (Some cfg) = Loader.Success cfg.

End ValidatorSpec.

(* ====================================================================== *)
(** ** Sample documents *)
(* ====================================================================== *)

Module Samples.
Import Types.
Local Open Scope string_scope.
Local Open Scope Q_scope.

(** A grade's entry with the two numeric bounds [lo] and [hi]. *)
Definition span (lo hi : Q) : Loader.GradeEntry :=
  Loader.EntryObject (Loader.mkBounds (JS.Num lo) (JS.Num hi)).

(** The weights and the grading scale that the README documents; the
    README gives no weight to architecture, which is 0 here. *)
Definition readmeWeights : JS.Obj JS.number :=
  [("security", JS.Num (35 # 100)); ("completeness", JS.Num (25 # 100));
   ("structure", JS.Num (25 # 100)); ("consistency", JS.Num (15 # 100));
   ("architecture", JS.Num 0)].

Definition readmeScale : JS.Obj Loader.GradeEntry :=
  [("A", span 90 100); ("B", span 80 89); ("C", span 70 79);
   ("D", span 60 69); ("F", span 0 59)].

(** Two penalty entries, the second one fatal. *)
Definition samplePenalties : JS.Obj PenaltyRule :=
  [("com-examples", mkPenaltyRule 30 false);
   ("sec-https", mkPenaltyRule 50 true)].

Definition readmeRaw : Loader.RawScoringConfig :=
  Loader.mkRaw (Some (JS.Num 100)) (Some readmeWeights)
               (Some samplePenalties) (Some readmeScale).

(** The same document as the auditor reads it. *)
Definition readmeScoring : ScoringConfig :=
  mkScoringConfig
    100
    (mkCategoryWeights (35 # 100) (25 # 100) (25 # 100) (15 # 100) 0)
    samplePenalties
    (mkGradingScale (mkGradeThreshold 90 100) (mkGradeThreshold 80 89)
                    (mkGradeThreshold 70 79) (mkGradeThreshold 60 69)
                    (mkGradeThreshold 0 59)).









(** A weights mapping that sums to 1.1. *)
Definition heavyWeights : JS.Obj JS.number :=
  [("security", JS.Num (45 # 100)); ("completeness", JS.Num (25 # 100));
   ("structure", JS.Num (25 # 100)); ("consistency", JS.Num (15 # 100));
   ("architecture", JS.Num 0)].

Definition heavyRaw : Loader.RawScoringConfig :=
  Loader.mkRaw (Some (JS.Num 100)) (Some heavyWeights)
               (Some samplePenalties) (Some readmeScale).

(** The weights of the README with [security: .nan]. *)
Definition nanWeights : JS.Obj JS.number :=
  [("security", JS.NaN); ("completeness", JS.Num (25 # 100));
   ("structure", JS.Num (25 # 100)); ("consistency", JS.Num (15 # 100));
   ("architecture", JS.Num 0)].

Definition nanRaw : Loader.RawScoringConfig :=
  Loader.mkRaw (Some (JS.Num 100)) (Some nanWeights)
               (Some samplePenalties) (Some readmeScale).

(** A rule set whose only rule names a function that the function table
    does not define but inherits, and one that names no function at
    all of the table. *)
Definition ruleNaming (name : string) : Loader.Rule :=
  mkRule "Operations must have a summary" ["$.paths.*.*"]
         (Some (ThenSingle (mkThen (FnName name) None (Some "summary"))))
         warn (Some ["completeness"]) None.

Definition inheritedNameRuleset : Loader.Ruleset :=
  mkRuleset None [("com-summary", ruleNaming "toString")].

Definition unknownNameRuleset : Loader.Ruleset :=
  mkRuleset None [("com-summary", ruleNaming "truthy");
                  ("com-bogus", ruleNaming "doesNotExist")].

Definition knownNameRuleset : Loader.Ruleset :=
  mkRuleset None [("com-summary", ruleNaming "truthy")].

(** Findings of the rule engine: a completeness finding whose rule has a
    penalty of 30 points, a finding of a rule configured fatal, and a
    finding of severity hint. *)
Definition exampleMissing : Auditor.SpectralResult :=
  Auditor.mkSpectralResult "com-examples" 1 "Response has no example"
                           ["paths"; "/pets"; "get"] (Some (12, 4)%Z).

Definition plainHttp : Auditor.SpectralResult :=
  Auditor.mkSpectralResult "sec-https" 0 "Server URL must use HTTPS"
                           ["servers"; "0"; "url"] (Some (5, 9)%Z).

(** A finding of a rule whose identifier is the name of a member of
    [Object.prototype]; the configuration has no penalty entry for it. *)
Definition constructorRule : Auditor.SpectralResult :=
  Auditor.mkSpectralResult "constructor" 0 "Schema has no constructor"
                           ["components"; "schemas"; "Pet"] None.

Definition untagged : Auditor.SpectralResult :=
  Auditor.mkSpectralResult "str-tags" 3 "Operation has no tags"
                           ["paths"; "/pets"; "post"] None.

(** Subtrees with six keys: five camelCase and one snake_case; four
    camelCase and two snake_case; and five keys of mixed styles. *)
Import ConsistentCasing.

Definition str : JValue := JObject [("type", JString "string")].

Definition fiveToOne : JValue :=
  JObject [("properties",
            JObject [("firstName", str); ("lastName", str);
                     ("emailAddress", str); ("phoneNumber", str);
                     ("zipCode", str); ("created_at", str)])].

Definition fourToTwo : JValue :=
  JObject [("properties",
            JObject [("firstName", str); ("lastName", str);
                     ("emailAddress", str); ("phoneNumber", str);
                     ("zip_code", str); ("created_at", str)])].

Definition fiveMixed : JValue :=
  JObject [("properties",
            JObject [("firstName", str); ("last_name", str);
                     ("emailAddress", str); ("phone_number", str);
                     ("zip_code", str)])].

End Samples.

(* ====================================================================== *)
(** ** Object literals with spread *)
(* ====================================================================== *)

Module JSObject.

(** [o[k] = v]: an existing key keeps its place, a new key goes last. *)
Fixpoint set {A} (o : JS.Obj A) (k : string) (v : A) : JS.Obj A :=
  match o with
  | [] => [(k, v)]
  | (k', v') :: rest =>
      if String.eqb k' k then (k', v) :: rest else (k', v') :: set rest k v
  end.

(** The object literal with two spreads: a fresh object that receives the
    properties of [a] and then those of [b], each in its order. *)
Definition spread {A} (a b : JS.Obj A) : JS.Obj A :=
  fold_left (fun o kv => set o (fst kv) (snd kv)) (a ++ b) [].

End JSObject.

(* ====================================================================== *)
(** ** config/loader.ts: the rule-set validator and the loader class *)
(* ====================================================================== *)

Module RulesetLoader.
Import Types Loader.
Local Open Scope string_scope.
Local Open Scope list_scope.

(** The value of [ruleset.extends]: absent, an array, or anything else. *)
Inductive RawExtends : Type :=
| ExtendsAbsent
| ExtendsArray (items : list string)
| ExtendsOther.

(** The value of [r.severity]: a string, or a value that is not one. *)
Inductive RawSeverity : Type :=
| SeverityString (s : string)
| SeverityOther.

(** A rule that is an object, field by field; [raw_description] is [None]
    when [typeof r.description] is not ['string']. *)
Record RawRuleBody : Type := mkRawRuleBody {
  raw_description : option string;
  raw_severity : RawSeverity;
  raw_given : list string;
  raw_then : option (ThenField SpectralFunction);
  raw_tags : option (list string);
  raw_enabled : option bool
}.

(** An entry of [ruleset.rules]: an object, or a value that is not one. *)
Inductive RawRule : Type :=
| RuleNotObject
| RuleObject (body : RawRuleBody).

(** The parsed rule-set document; [raw_rules] is [None] when
    [ruleset.rules] is not an object. *)
Record RawRuleset : Type := mkRawRuleset {
  raw_extends : RawExtends;
  raw_rules : option (JS.Obj RawRule)
}.

(** The error strings of [validateRuleset], by template. *)
Inductive RulesetError : Type :=
| RulesetNotObject
| ExtendsNotArray
| RulesNotObject
| RuleMustBeObject (ruleId : string)
| MissingDescription (ruleId : string)
| InvalidSeverity (ruleId : string) (severity : RawSeverity).

Inductive RulesetValidation : Type :=
| RulesetSuccess (data : RawRuleset)
| RulesetFailure (errors : list RulesetError).

(** [['error', 'warn', 'info', 'hint'].includes(r.severity)]. *)
Definition severityIncluded (severity : RawSeverity) : bool :=
  match severity with
  | SeverityString s => JS.includes ["error"; "warn"; "info"; "hint"] s
  | SeverityOther => false
  end.

(** The body of the loop over [Object.entries(ruleset.rules)]. *)
Definition checkRule (errors : list RulesetError) (entry : string * RawRule)
  : list RulesetError :=
  let (ruleId, rule) := entry in
  match rule with
  | RuleNotObject => errors ++ [RuleMustBeObject ruleId]
  | RuleObject r =>
      let errors1 :=
        match raw_description r with
        | Some _ => errors
        | None => errors ++ [MissingDescription ruleId]
        end in
      if negb (severityIncluded (raw_severity r))
      then errors1 ++ [InvalidSeverity ruleId (raw_severity r)]
      else errors1
  end.

(** Pure function to validate Spectral ruleset; [None] is a value that is
    not an object. *)
Definition validateRuleset (config : option RawRuleset) : RulesetValidation :=
  match config with
  | None => RulesetFailure [RulesetNotObject]
  | Some ruleset =>
      let errors1 :=
        match raw_extends ruleset with
        | ExtendsOther => [ExtendsNotArray]
        | _ => []
        end in
      let errors2 :=
        match raw_rules ruleset with
        | None => errors1 ++ [RulesNotObject]
        | Some rules => fold_left checkRule (JS.entries rules) errors1
        end in
      match errors2 with
      | [] => RulesetSuccess ruleset
      | _ :: _ => RulesetFailure errors2
      end
  end.

(** The severity that a string of the enumeration stands for. *)
Definition severityOfString (s : string) : option SpectralSeverity :=
  if String.eqb s "error" then Some error
  else if String.eqb s "warn" then Some warn
  else if String.eqb s "info" then Some info
  else if String.eqb s "hint" then Some hint
  else None.

(** The view of a rule at the type [SpectralRule] (the cast
    [config as SpectralRuleset]): defined when the rule is an object with
    a string description and a severity of the enumeration. *)
Definition asRule (rule : RawRule) : option Rule :=
  match rule with
  | RuleNotObject => None
  | RuleObject r =>
      match raw_description r, raw_severity r with
      | Some d, SeverityString s =>
          match severityOfString s with
          | Some sev =>
              Some (mkRule d (raw_given r) (raw_then r) sev (raw_tags r)
                           (raw_enabled r))
          | None => None
          end
      | _, _ => None
      end
  end.

Fixpoint asRules (rules : JS.Obj RawRule) : option (JS.Obj Rule) :=
  match rules with
  | [] => Some []
  | (ruleId, rule) :: rest =>
      match asRule rule, asRules rest with
      | Some r, Some rs => Some ((ruleId, r) :: rs)
      | _, _ => None
      end
  end.

Definition asRuleset (ruleset : RawRuleset) : option Ruleset :=
  match raw_extends ruleset, raw_rules ruleset with
  | ExtendsOther, _ => None
  | _, None => None
  | ext, Some rules =>
      option_map
        (mkRuleset (match ext with ExtendsArray l => Some l | _ => None end))
        (asRules rules)
  end.

(** A weight and a grade's range at their declared types: a number that
    is not NaN, an object with two such bounds. *)
Definition getNumber (o : JS.Obj JS.number) (k : string) : option Q :=
  match JS.get o k with
  | Some (JS.Num q) => Some q
  | _ => None
  end.

Definition asThreshold (entry : GradeEntry) : option GradeThreshold :=
  match entry with
  | EntryObject (mkBounds (JS.Num lo) (JS.Num hi)) =>
      Some (mkGradeThreshold lo hi)
  | _ => None
  end.

Definition getThreshold (o : JS.Obj GradeEntry) (k : string)
  : option GradeThreshold :=
  match JS.get o k with
  | Some entry => asThreshold entry
  | None => None
  end.

(** The view of a scoring document at the type [ScoringConfig] (the cast
    [config as ScoringConfig]): defined when every field that the
    interface declares is there with a value of its type. *)
Definition asScoringConfig (cfg : RawScoringConfig) : option ScoringConfig :=
  match raw_base_score cfg, raw_weights cfg, raw_penalties cfg,
        raw_grading_scale cfg with
  | Some (JS.Num b), Some w, Some p, Some s =>
      match getNumber w "security", getNumber w "completeness",
            getNumber w "structure", getNumber w "consistency",
            getNumber w "architecture" with
      | Some w1, Some w2, Some w3, Some w4, Some w5 =>
          match getThreshold s "A", getThreshold s "B", getThreshold s "C",
                getThreshold s "D", getThreshold s "F" with
          | Some tA, Some tB, Some tC, Some tD, Some tF =>
              Some (mkScoringConfig b (mkCategoryWeights w1 w2 w3 w4 w5) p
                                    (mkGradingScale tA tB tC tD tF))
          | _, _, _, _, _ => None
          end
      | _, _, _, _, _ => None
      end
  | _, _, _, _ => None
  end.

(** A configuration file as [loadYamlFile] finds it: not there, there but
    rejected by the YAML parser with a message, or parsed to a document. *)
Inductive File (D : Type) : Type :=
| Missing
| Unparseable (message : string)
| Parsed (document : D).
Arguments Missing {D}.
Arguments Unparseable {D} message.
Arguments Parsed {D} document.

(** The two files of the configuration directory at one moment. *)
Record Disk : Type := mkDisk {
  scoringFile : File (option RawScoringConfig);
  rulesetFile : File (option RawRuleset)
}.

(** The errors that the loader throws, by template: the message of a
    failed validation joins the validator's errors, kept here as they
    are. *)
Inductive LoadError : Type :=
| FileNotFound (filePath : string)
| ParseFailed (filePath : string) (message : string)
| InvalidScoring (filePath : string) (errors : list ValidationError)
| InvalidRuleset (filePath : string) (errors : list RulesetError)
| UnresolvedFunction (e : ConfigLoadError).

(** Loads and parses a YAML file. *)
Definition loadYamlFile {D} (filePath : string) (file : File D)
  : JS.Throws LoadError D :=
  match file with
  | Missing => inl (FileNotFound filePath)
  | Unparseable message => inl (ParseFailed filePath message)
  | Parsed document => inr document
  end.

(** The fields of a [ConfigLoader]; [configDir] is the resolved
    directory. *)
Record ConfigLoader : Type := mkConfigLoader {
  configDir : string;
  _scoringConfig : option RawScoringConfig;
  _rulesetConfig : option Ruleset
}.

(** [new ConfigLoader(configDir)]. *)
Definition createConfigLoader (configDir : string) : ConfigLoader :=
  mkConfigLoader configDir None None.

(** [path.join(this.configDir, name)] for a resolved directory. *)
Definition join (dir name : string) : string :=
  if String.eqb dir "/" then "/" ++ name else dir ++ "/" ++ name.

(** Loads scoring configuration from scoring.yaml: the value returned or
    thrown, and the loader after the call. *)
Definition loadScoringConfig (disk : Disk) (this : ConfigLoader)
  : JS.Throws LoadError RawScoringConfig * ConfigLoader :=
  match _scoringConfig this with
  | Some cached => (inr cached, this)
  | None =>
      let filePath := join (configDir this) "scoring.yaml" in
      match loadYamlFile filePath (scoringFile disk) with
      | inl e => (inl e, this)
      | inr rawConfig =>
          match validateScoringConfig rawConfig with
          | Failure errors => (inl (InvalidScoring filePath errors), this)
          | Success data =>
              (inr data,
               mkConfigLoader (configDir this) (Some data)
                              (_rulesetConfig this))
          end
      end
  end.

(** Loads Spectral ruleset from ruleset.yaml. *)
Definition loadRulesetConfig (disk : Disk) (this : ConfigLoader)
  : JS.Throws LoadError Ruleset * ConfigLoader :=
  match _rulesetConfig this with
  | Some cached => (inr cached, this)
  | None =>
      let filePath := join (configDir this) "ruleset.yaml" in
      match loadYamlFile filePath (rulesetFile disk) with
      | inl e => (inl e, this)
      | inr rawConfig =>
          match validateRuleset rawConfig with
          | RulesetFailure errors =>
              (inl (InvalidRuleset filePath errors), this)
          | RulesetSuccess data =>
              match asRuleset data with
              | None => (inl (InvalidRuleset filePath []), this)
              | Some typed =>
                  match resolveRuleFunctions typed with
                  | inl e => (inl (UnresolvedFunction e), this)
                  | inr resolved =>
                      (inr resolved,
                       mkConfigLoader (configDir this) (_scoringConfig this)
                                      (Some resolved))
                  end
              end
          end
      end
  end.

(** Loads both configurations: the scoring document first. *)
Definition loadAll (disk : Disk) (this : ConfigLoader)
  : JS.Throws LoadError (RawScoringConfig * Ruleset) * ConfigLoader :=
  match loadScoringConfig disk this with
  | (inl e, this1) => (inl e, this1)
  | (inr scoring, this1) =>
      match loadRulesetConfig disk this1 with
      | (inl e, this2) => (inl e, this2)
      | (inr ruleset, this2) => (inr (scoring, ruleset), this2)
      end
  end.

(** Clears cached configurations. *)
Definition clearCache (this : ConfigLoader) : ConfigLoader :=
  mkConfigLoader (configDir this) None None.

(** The calls that a program can make on a loader, each against the disk
    as it is at the time of the call. *)
Inductive Call : Type :=
| CallLoadScoring (disk : Disk)
| CallLoadRuleset (disk : Disk)
| CallLoadAll (disk : Disk)
| CallClearCache.

Definition perform (this : ConfigLoader) (call : Call) : ConfigLoader :=
  match call with
  | CallLoadScoring disk => snd (loadScoringConfig disk this)
  | CallLoadRuleset disk => snd (loadRulesetConfig disk this)
  | CallLoadAll disk => snd (loadAll disk this)
  | CallClearCache => clearCache this
  end.

(** The loader after a sequence of calls on a new loader. *)
Definition after (configDir : string) (calls : list Call) : ConfigLoader :=
  fold_left perform calls (createConfigLoader configDir).

End RulesetLoader.

(* ====================================================================== *)
(** ** core/auditor.ts: the merged rule set *)
(* ====================================================================== *)

Module AuditorRuleset.
Import Types Loader.

(** Builds complete ruleset by merging OAS base with custom rules; [oas]
    is the rule set of the rule engine. *)
Definition buildRuleset (oas customRuleset : Ruleset) : Ruleset :=
  mkRuleset (extends oas)
            (JSObject.spread (rules oas) (rules customRuleset)).

End AuditorRuleset.

(* ====================================================================== *)
(** ** cli/index.ts: what is shown and the exit status *)
(* ====================================================================== *)

Module CliReport.
Import Types.
Local Open Scope string_scope.



Definition validGrades : list string := ["A"; "B"; "C"; "D"; "F"].

(** [s.toUpperCase()] on the letters a to z.  (Among the other characters
    the language maps none to a single letter from A to F, so membership
    in [validGrades] is as in the program.) *)
Definition upperChar (c : ascii) : ascii :=
  if RegExp.lower c then ascii_of_nat (nat_of_ascii c - 32) else c.

Fixpoint toUpperCase (s : string) : string :=
  match s with
  | EmptyString => EmptyString
  | String c rest => String (upperChar c) (toUpperCase rest)
  end.

(** What happens in the action of the audit command around the check of
    the grade: the run is stopped (a file or the configuration directory
    is not there, the configuration does not load, or the audit, the
    formatting or the writing of the report throws), or the report of
    [result] is written. *)
Inductive Run : Type :=
| Stopped
| Reported (result : AuditResult).

(** The exit status of the audit command for the option [--fail-on]:
    every stop is an exit with status 1, an invalid grade included, and
    so is a grade that does not meet the minimum. *)
Definition exitStatus (failOn : string) (run : Run) : Z :=
  let failOnGrade := toUpperCase failOn in
  if negb (JS.includes validGrades failOnGrade) then 1%Z
  else
    match run with
    | Stopped => 1%Z
    | Reported result =>
        let passed := Cli.meetsMinimumGrade (grade result) failOnGrade in
        if negb passed then 1%Z else 0%Z
    end.

End CliReport.

(* ====================================================================== *)
(** ** Formulations used by the further properties *)
(* ====================================================================== *)

Module ResolutionSpec.
Import Types Loader ResolverSpec.

(** No clause of the rule is left with the name of a function. *)
Definition bound (rule : Rule) : Prop :=
  Forall (fun c => forall name, function c <> FnName name) (clausesOf rule).

(** The clause [after] is the clause [before] with its function bound to
    the table's value for the name, and nothing else changed. *)
Definition clauseBound (before after : Then) : Prop :=
  functionOptions after = functionOptions before /\
  field after = field before /\
  (forall name, function before = FnName name ->
                exists f, lookupFunction name = Some f /\
                          function after = FnValue f) /\
  ((forall name, function before <> FnName name) -> after = before).

(** The rule [after] is the rule [before] with its clauses bound. *)
Definition ruleBound (before after : string * Rule) : Prop :=
  fst after = fst before /\
  description (snd after) = description (snd before) /\
  given (snd after) = given (snd before) /\
  rule_severity (snd after) = rule_severity (snd before) /\
  tags (snd after) = tags (snd before) /\
  enabled (snd after) = enabled (snd before) /\
  sameShape (then_ (snd before)) (then_ (snd after)) /\
  Forall2 clauseBound (clausesOf (snd before)) (clausesOf (snd after)) /\
  bound (snd after).

(** A clause that resolution accepts: its function is bound already, or
    the table has a value for its name. *)
Definition resolvable (c : Then) : Prop :=
  forall name, function c = FnName name -> lookupFunction name <> None.

End ResolutionSpec.

Module RulesetSpec.
Import Types Loader RulesetLoader.

(** What one entry of [rules] adds to the errors. *)
Definition ruleErrors (entry : string * RawRule) : list RulesetError :=
  match snd entry with
  | RuleNotObject => [RuleMustBeObject (fst entry)]
  | RuleObject r =>
      (match raw_description r with
       | Some _ => []
       | None => [MissingDescription (fst entry)]
       end) ++
      (if severityIncluded (raw_severity r) then []
       else [InvalidSeverity (fst entry) (raw_severity r)])
  end.

(** A rule that the validator lets through: an object with a string
    description and a severity of the enumeration. *)
Definition wellFormed (rule : RawRule) : Prop :=
  exists body d,
    rule = RuleObject body /\ raw_description body = Some d /\
    severityIncluded (raw_severity body) = true.

(** The errors of [validateRuleset] for a document that is an object. *)
Definition rulesetErrors (ruleset : RawRuleset) : list RulesetError :=
  (match raw_extends ruleset with
   | ExtendsOther => [ExtendsNotArray]
   | _ => []
   end) ++
  (match raw_rules ruleset with
   | None => [RulesNotObject]
   | Some rules => flat_map ruleErrors rules
   end).

End RulesetSpec.

Module LoaderSpec.
Import Types Loader RulesetLoader ResolverSpec ResolutionSpec.

(** What a loader holds is what validation and resolution let through:
    a cached scoring document is an accepted one and every rule of a
    cached rule set has its functions bound. *)
Definition Consistent (this : ConfigLoader) : Prop :=
  (forall scoring, _scoringConfig this = Some scoring ->
                   ValidatorSpec.accepted scoring) /\
  (forall ruleset, _rulesetConfig this = Some ruleset ->
                   Forall (fun entry => bound (snd entry)) (rules ruleset)).

End LoaderSpec.

Module ScoringSpec.
Import Types.
Local Open Scope Q_scope.


(** The configuration with another weight for architecture. *)
Definition withArchitecture (cfg : ScoringConfig) (w : Q) : ScoringConfig :=
  mkScoringConfig
    (base_score cfg)
    (mkCategoryWeights (w_security (weights cfg))
                       (w_completeness (weights cfg))
                       (w_structure (weights cfg))
                       (w_consistency (weights cfg)) w)
    (penalties cfg) (grading_scale cfg).

(** The rank of a grade in the order of the command line; 0 for a string
    that is not a grade. *)
Definition rank (grade : string) : nat :=
  match Cli.gradeOrder grade with
  | Some n => n
  | None => 0
  end.

(** The unrounded score that [audit] grades. *)
Definition rawScore {Fn} (cfg : ScoringConfig) (rs : SpectralRuleset Fn)
           (results : list Auditor.SpectralResult) : JS.number :=
  Auditor.s_finalScore
    (Auditor.calculateScore
       cfg (Auditor.convertResults results)
       (Auditor.calculateCategoryScores (Auditor.convertResults results)
                                        cfg rs)).

End ScoringSpec.

Module KeySpec.

(** Every character of [s] is in the class [p]. *)
Fixpoint allChars (p : ascii -> bool) (s : string) : bool :=
  match s with
  | EmptyString => true
  | String c rest => p c && allChars p rest
  end.

End KeySpec.

Module GradeSpec.
Import Types.
Local Open Scope string_scope.
Local Open Scope Q_scope.

(** The range that a scale declares for a grade. *)
Definition thresholdOf (scale : GradingScale) (grade : string)
  : GradeThreshold :=
  if String.eqb grade "A" then A scale
  else if String.eqb grade "B" then B scale
  else if String.eqb grade "C" then C scale
  else if String.eqb grade "D" then D scale
  else F scale.

(** The ranges of the grades lie in the order of the letters: a better
    grade has the higher upper bound.  (The validator does not ask for
    this.) *)
Definition inLetterOrder (scale : GradingScale) : Prop :=
  max (F scale) < max (D scale) /\ max (D scale) < max (C scale) /\
  max (C scale) < max (B scale) /\ max (B scale) < max (A scale).

End GradeSpec.

(* ====================================================================== *)
(** ** Further sample documents *)
(* ====================================================================== *)

Module LoaderSamples.
Import Types Loader RulesetLoader.
Local Open Scope string_scope.
Local Open Scope Q_scope.
Local Open Scope list_scope.

(** A rule of a rule-set document, as parsed. *)
Definition rawRuleNaming (name : string) (description : option string)
  : RawRule :=
  RuleObject
    (mkRawRuleBody description (SeverityString "warn") ["$.paths.*.*"]
       (Some (ThenSingle (mkThen (FnName name) None (Some "summary"))))
       (Some ["completeness"]) None).

(** A rule-set document with one well-formed rule, and one whose second
    rule has no description. *)
Definition summaryDocument : RawRuleset :=
  mkRawRuleset ExtendsAbsent
    (Some [("com-summary",
            rawRuleNaming "truthy" (Some "Operations must have a summary"))]).

Definition undescribedDocument : RawRuleset :=
  mkRawRuleset ExtendsAbsent
    (Some [("com-summary",
            rawRuleNaming "truthy" (Some "Operations must have a summary"));
           ("com-tags", rawRuleNaming "truthy" None)]).

(** A configuration directory with both files, one without the rule set
    and an empty one. *)
Definition bothFiles : Disk :=
  mkDisk (Parsed (Some Samples.readmeRaw)) (Parsed (Some summaryDocument)).

Definition scoringOnly : Disk :=
  mkDisk (Parsed (Some Samples.readmeRaw)) Missing.

Definition noFiles : Disk := mkDisk Missing Missing.

(** A rule set of the rule engine with two rules, one of which a custom
    rule set overrides. *)
Definition engineRuleset : Ruleset :=
  mkRuleset (Some ["spectral:oas"])
            [("operation-tags", Samples.ruleNaming "truthy");
             ("com-summary", Samples.ruleNaming "defined")].

(** A configuration whose security rule costs 30 points and is not fatal,
    and a finding of that rule: the weighted score is 89.5. *)
Definition authScoring : ScoringConfig :=
  mkScoringConfig
    100
    (mkCategoryWeights (35 # 100) (25 # 100) (25 # 100) (15 # 100) 0)
    [("sec-auth", mkPenaltyRule 30 false)]
    (grading_scale Samples.readmeScoring).

Definition noAuth : Auditor.SpectralResult :=
  Auditor.mkSpectralResult "sec-auth" 0 "Operation has no security"
                           ["paths"; "/pets"; "get"] None.

End LoaderSamples.

(* ====================================================================== *)
(** * Properties *)
(* ====================================================================== *)

(** ** Numbers and objects *)

Section JSFacts.
Local Open Scope Q_scope.

Lemma geb_true (x y : Q) : JS.geb x y = true <-> y <= x.
Proof. unfold JS.geb. apply Qle_bool_iff. Qed.

Lemma geb_false (x y : Q) : JS.geb x y = false <-> x < y.
Proof.
  unfold JS.geb. split; intro H.
  - apply Qnot_le_lt. intro Hle. apply Qle_bool_iff in Hle. congruence.
  - destruct (Qle_bool y x) eqn:E; [|reflexivity].
    apply Qle_bool_iff in E. exfalso. exact (Qlt_not_le _ _ H E).
Qed.

Lemma gtb_true (x y : Q) : JS.gtb x y = true <-> y < x.
Proof.
  unfold JS.gtb. rewrite negb_true_iff. apply (geb_false y x).
Qed.

Lemma gtb_false (x y : Q) : JS.gtb x y = false <-> x <= y.
Proof.
  unfold JS.gtb. rewrite negb_false_iff. apply Qle_bool_iff.
Qed.

Lemma ltb_true (x y : Q) : JS.ltb x y = true <-> x < y.
Proof. apply (gtb_true y x). Qed.

Lemma ltb_false (x y : Q) : JS.ltb x y = false <-> y <= x.
Proof. apply (gtb_false y x). Qed.

Lemma eqb_true (x y : Q) : JS.eqb x y = true <-> x == y.
Proof. unfold JS.eqb. apply Qeq_bool_iff. Qed.

Lemma Math_max_0 (x : Q) :
  (0 <= x -> JS.Math_max 0 x == x) /\ (x <= 0 -> JS.Math_max 0 x == 0).
Proof.
  unfold JS.Math_max. split; intro H.
  - apply Q.max_r. exact H.
  - apply Q.max_l. exact H.
Qed.

(** [Math.round] gives an integer at distance at most 1/2, and the upper
    one of the two when there are two. *)
Lemma Math_round_nearest (x : Q) :
  exists n : Z,
    JS.Math_round x = inject_Z n /\
    x - (1 # 2) < inject_Z n /\ inject_Z n <= x + (1 # 2).
Proof.
  exists (Qfloor (x + (1 # 2))). split; [reflexivity|]. split.
  - pose proof (Qlt_floor (x + (1 # 2))) as H.
    rewrite inject_Z_plus in H.
    apply Qplus_lt_l with (z := 1).
    eapply Qlt_le_trans; [|apply Qle_refl].
    eapply Qle_lt_trans; [|exact H].
    ring_simplify. apply Qle_refl.
  - apply Qfloor_le.
Qed.

Lemma Math_round_comp (x y : Q) : x == y -> JS.Math_round x = JS.Math_round y.
Proof.
  intro H. unfold JS.Math_round. f_equal. apply Qfloor_comp.
  rewrite H. reflexivity.
Qed.

End JSFacts.

(** ** Category classifier *)


Section Classifier.
Import Types Auditor.
Local Open Scope string_scope.

Lemma getRuleCategory_refines (ruleId : string) (tags : option (list string)) :
  getRuleCategory ruleId tags = ClassifierSpec.classify ruleId tags.
Proof.
  unfold getRuleCategory, ClassifierSpec.classify.
  destruct tags as [ts|]; cbn [find ClassifierSpec.tagPriority
                               ClassifierSpec.prefixConvention fst snd].
  - destruct (JS.includes ts "security"); [reflexivity|].
    destruct (JS.includes ts "completeness"); [reflexivity|].
    destruct (JS.includes ts "structure"); [reflexivity|].
    destruct (JS.includes ts "consistency"); [reflexivity|].
    destruct (JS.startsWith ruleId "sec-"); [reflexivity|].
    destruct (JS.startsWith ruleId "com-"); [reflexivity|].
    destruct (JS.startsWith ruleId "str-"); [reflexivity|].
    destruct (JS.startsWith ruleId "cns-"); reflexivity.
  - destruct (JS.startsWith ruleId "sec-"); [reflexivity|].
    destruct (JS.startsWith ruleId "com-"); [reflexivity|].
    destruct (JS.startsWith ruleId "str-"); [reflexivity|].
    destruct (JS.startsWith ruleId "cns-"); reflexivity.
Qed.

(** The classifier's result is the name of one of the four scored
    categories. *)
Lemma getRuleCategory_scored (ruleId : string) (tags : option (list string)) :
  exists c, In c categories /\ getRuleCategory ruleId tags = category_name c.
Proof.
  unfold getRuleCategory, categories.
  assert (Hp : exists c, In c [security; completeness; structure; consistency] /\
            (if JS.startsWith ruleId "sec-" then "security"
             else if JS.startsWith ruleId "com-" then "completeness"
             else if JS.startsWith ruleId "str-" then "structure"
             else if JS.startsWith ruleId "cns-" then "consistency"
             else "completeness") = category_name c).
  { destruct (JS.startsWith ruleId "sec-");
      [exists security; simpl; auto 8|].
    destruct (JS.startsWith ruleId "com-");
      [exists completeness; simpl; auto 8|].
    destruct (JS.startsWith ruleId "str-");
      [exists structure; simpl; auto 8|].
    destruct (JS.startsWith ruleId "cns-");
      [exists consistency | exists completeness]; simpl; auto 8. }
  destruct tags as [ts|]; [|exact Hp].
  destruct (JS.includes ts "security");
    [exists security; simpl; auto 8|].
  destruct (JS.includes ts "completeness");
    [exists completeness; simpl; auto 8|].
  destruct (JS.includes ts "structure");
    [exists structure; simpl; auto 8|].
  destruct (JS.includes ts "consistency");
    [exists consistency; simpl; auto 8|].
  exact Hp.
Qed.

(** C9.  For every rule identifier and optional tag list, the classifier
    returns exactly one of the four scored categories: the first of the
    tags security, completeness, structure, consistency (in that priority)
    that the rule carries; otherwise the category of the identifier prefix
    (sec-, com-, str-, cns-); otherwise completeness.  The result is never
    architecture. *)
Theorem getRuleCategory_classifies
        (ruleId : string) (tags : option (list string)) :
  getRuleCategory ruleId tags = ClassifierSpec.classify ruleId tags /\
  (exists c, In c [security; completeness; structure; consistency] /\
             getRuleCategory ruleId tags = category_name c) /\
  getRuleCategory ruleId tags <> category_name architecture.
Proof.
  split; [apply getRuleCategory_refines|].
  destruct (getRuleCategory_scored ruleId tags) as [c [Hin Hc]].
  split; [exists c; split; assumption|].
  rewrite Hc. simpl in Hin.
  destruct Hin as [<-|[<-|[<-|[<-|[]]]]]; discriminate.
Qed.

End Classifier.

(** ** Grade mapper *)

Section GradeMapper.
Import Types Auditor.
Local Open Scope Q_scope.

(** The grade returned is one of the five letters, so it has an order. *)
Lemma calculateGrade_letter (score : JS.number) (scale : GradingScale) :
  In (calculateGrade score scale) Loader.grades.
Proof.
  unfold calculateGrade, Loader.grades.
  repeat match goal with
         | |- context [if ?b then _ else _] => destruct b
         end; simpl; auto 6.
Qed.

Lemma geb_mono (m s1 s2 : Q) :
  s2 < s1 -> JS.geb s2 m = true -> JS.geb s1 m = true.
Proof.
  intros Hlt H. apply geb_true in H. apply geb_true.
  apply Qlt_le_weak. eapply Qle_lt_trans; eassumption.
Qed.

(** C5.  For any two scores s1 > s2 and any grading scale, the grade of s1
    is never worse than the grade of s2 in the order A > B > C > D > F of
    the command line's grade table. *)
Ltac solve_rank :=
  eexists; eexists;
  split; [vm_compute; reflexivity|split; [vm_compute; reflexivity|lia]].

Theorem calculateGrade_monotone (s1 s2 : Q) (scale : GradingScale) :
  s2 < s1 ->
  exists r1 r2 : nat,
    Cli.gradeOrder (calculateGrade s1 scale) = Some r1 /\
    Cli.gradeOrder (calculateGrade s2 scale) = Some r2 /\
    (r2 <= r1)%nat.
Proof.
  intro Hlt. unfold calculateGrade. cbn [JS.gebN].
  pose proof (geb_mono (min (A scale)) Hlt) as HA.
  pose proof (geb_mono (min (B scale)) Hlt) as HB.
  pose proof (geb_mono (min (C scale)) Hlt) as HC.
  pose proof (geb_mono (min (D scale)) Hlt) as HD.
  destruct (JS.geb s2 (min (A scale)));
    [rewrite (HA eq_refl); solve_rank|clear HA].
  destruct (JS.geb s2 (min (B scale))).
  { rewrite (HB eq_refl).
    destruct (JS.geb s1 (min (A scale)));
      solve_rank. }
  clear HB.
  destruct (JS.geb s2 (min (C scale))).
  { rewrite (HC eq_refl).
    destruct (JS.geb s1 (min (A scale)));
      destruct (JS.geb s1 (min (B scale))); solve_rank. }
  clear HC.
  destruct (JS.geb s2 (min (D scale))).
  { rewrite (HD eq_refl).
    destruct (JS.geb s1 (min (A scale)));
      destruct (JS.geb s1 (min (B scale)));
      destruct (JS.geb s1 (min (C scale))); solve_rank. }
  clear HD.
  destruct (JS.geb s1 (min (A scale)));
    destruct (JS.geb s1 (min (B scale)));
    destruct (JS.geb s1 (min (C scale)));
    destruct (JS.geb s1 (min (D scale))); solve_rank.
Qed.

End GradeMapper.

(** ** Score calculator *)


Section ScoreCalculator.
Import Types Auditor.
Local Open Scope Q_scope.

Lemma existsb_isFatal_true (cfg : ScoringConfig) (vs : list Violation) :
  existsb (isFatal cfg) vs = true <-> ScoreSpec.someFatal cfg vs.
Proof.
  rewrite existsb_exists. unfold ScoreSpec.someFatal, isFatal. split.
  - intros [v [Hin Hf]].
    destruct (JS.get (penalties cfg) (ruleId v)) as [p|] eqn:E;
      [|discriminate].
    exists v, p. auto.
  - intros [v [p [Hin [Hget Hf]]]]. exists v. rewrite Hget. auto.
Qed.

Lemma existsb_isFatal_false (cfg : ScoringConfig) (vs : list Violation) :
  existsb (isFatal cfg) vs = false <-> ScoreSpec.noFatal cfg vs.
Proof.
  unfold ScoreSpec.noFatal. split.
  - intros H v p Hin Hget.
    destruct (fatal p) eqn:Hf; [|reflexivity].
    assert (existsb (isFatal cfg) vs = true) as Ht; [|congruence].
    apply existsb_isFatal_true. exists v, p. auto.
  - intro H. destruct (existsb (isFatal cfg) vs) eqn:E; [|reflexivity].
    apply existsb_isFatal_true in E. destruct E as [v [p [Hin [Hget Hf]]]].
    rewrite (H v p Hin Hget) in Hf. discriminate.
Qed.

(** C1.  For every list of violations and every scoring configuration, if
    some violation's rule has a configured penalty with fatal = true, the
    score calculation returns finalScore 0 and hasFatalErrors true, whatever
    the category scores (their point sums and weights) are; the audit
    result built from such findings reports both. *)
Theorem calculateScore_fatal
        (cfg : ScoringConfig) (vs : list Violation) :
  ScoreSpec.someFatal cfg vs ->
  (forall categoryScores : list CategoryScore,
      calculateScore cfg vs categoryScores = mkScore 0 true) /\
  (forall Fn (rs : SpectralRuleset Fn) (unresolved : bool)
          (results : list SpectralResult),
      convertResults results = vs ->
      finalScore (audit cfg rs unresolved results) = 0 /\
      hasFatalErrors (audit cfg rs unresolved results) = true).
Proof.
  intro Hf. apply existsb_isFatal_true in Hf.
  assert (Hcs : forall categoryScores,
             calculateScore cfg vs categoryScores = mkScore 0 true).
  { intro cs. unfold calculateScore. rewrite Hf. reflexivity. }
  split; [exact Hcs|].
  intros Fn rs unresolved results <-.
  unfold audit. cbn [finalScore hasFatalErrors].
  rewrite Hcs. split; reflexivity.
Qed.

(** A lookup that finds an entry of the configuration or nothing adds the
    points of the specification to a number. *)
Lemma addPenalty_points (cfg : ScoringConfig) (acc : Q) (v : Violation) :
  (JS.get (penalties cfg) (ruleId v) = None ->
   JS.includes JS.objectPrototypeKeys (ruleId v) = false) ->
  addPenalty cfg (JS.Num acc) v =
  JS.Num (acc + ScoreSpec.violationPoints cfg v).
Proof.
  intro Hown. unfold addPenalty, JS.lookup, ScoreSpec.violationPoints.
  destruct (JS.get (penalties cfg) (ruleId v)); [reflexivity|].
  rewrite (Hown eq_refl). destruct (severity v); reflexivity.
Qed.

Lemma fold_addPenalty (cfg : ScoringConfig) (vs : list Violation) :
  ScoreSpec.ownEntries cfg vs ->
  forall acc : Q,
  exists q : Q,
    fold_left (addPenalty cfg) vs (JS.Num acc) = JS.Num q /\
    q == acc + ScoreSpec.sumQ (map (ScoreSpec.violationPoints cfg) vs).
Proof.
  induction vs as [|v vs IH]; intros Hown acc.
  - exists acc. split; [reflexivity|]. simpl. ring.
  - cbn [fold_left map ScoreSpec.sumQ].
    rewrite addPenalty_points by (apply Hown; left; reflexivity).
    destruct (IH (fun v' Hin => Hown v' (or_intror Hin))
                 (acc + ScoreSpec.violationPoints cfg v)) as [q [Hq He]].
    exists q. split; [exact Hq|]. rewrite He. ring.
Qed.

(** NaN stays NaN, and a rule identifier that finds an inherited member
    makes the points of its category NaN. *)
Lemma fold_addPenalty_NaN (cfg : ScoringConfig) (vs : list Violation) :
  fold_left (addPenalty cfg) vs JS.NaN = JS.NaN.
Proof.
  induction vs as [|v vs IH]; [reflexivity|].
  cbn [fold_left].
  assert (H : addPenalty cfg JS.NaN v = JS.NaN).
  { unfold addPenalty. destruct (JS.lookup (penalties cfg) (ruleId v));
      reflexivity. }
  rewrite H. exact IH.
Qed.

Lemma addPenalty_inherited (cfg : ScoringConfig) (acc : JS.number)
      (v : Violation) :
  JS.get (penalties cfg) (ruleId v) = None ->
  JS.includes JS.objectPrototypeKeys (ruleId v) = true ->
  addPenalty cfg acc v = JS.NaN.
Proof.
  intros Hg Hi. unfold addPenalty, JS.lookup. rewrite Hg, Hi.
  destruct acc; reflexivity.
Qed.

Lemma fold_addPenalty_inherited (cfg : ScoringConfig)
      (vs : list Violation) :
  ScoreSpec.inheritedEntry cfg vs ->
  forall acc, fold_left (addPenalty cfg) vs acc = JS.NaN.
Proof.
  induction vs as [|v vs IH]; intros [w [Hin [Hg Hi]]] acc;
    [contradiction|].
  cbn [fold_left]. destruct Hin as [->|Hin].
  - rewrite (@addPenalty_inherited cfg acc w Hg Hi). apply fold_addPenalty_NaN.
  - apply IH. exists w. auto.
Qed.

Lemma Math_max_0_if (x : Q) :
  JS.Math_max 0 x == if Qle_bool 0 x then x else 0.
Proof.
  destruct (Qle_bool 0 x) eqn:E.
  - apply Math_max_0. apply Qle_bool_iff. exact E.
  - apply Math_max_0. apply Qlt_le_weak. apply (geb_false x 0). exact E.
Qed.

Lemma Qle_bool_comp (x y : Q) : x == y -> Qle_bool 0 x = Qle_bool 0 y.
Proof.
  intro H. destruct (Qle_bool 0 y) eqn:E.
  - apply Qle_bool_iff. rewrite H. apply Qle_bool_iff. exact E.
  - apply (geb_false x 0). rewrite H. apply (geb_false y 0). exact E.
Qed.

Lemma ownEntries_filter (cfg : ScoringConfig) (p : Violation -> bool)
      (vs : list Violation) :
  ScoreSpec.ownEntries cfg vs -> ScoreSpec.ownEntries cfg (filter p vs).
Proof.
  intros H v Hin. apply H. apply filter_In in Hin. tauto.
Qed.

Lemma calculateCategoryScores_eq {Fn} (vs : list Violation)
      (cfg : ScoringConfig) (rs : SpectralRuleset Fn) :
  calculateCategoryScores vs cfg rs =
  map (fun c =>
         mkCategoryScore
           c (weight_of (weights cfg) c)
           (fold_left (addPenalty cfg)
                      (filter (ScoreSpec.inCategory rs c) vs) (JS.Num 0))
           (filter (ScoreSpec.inCategory rs c) vs))
      categories.
Proof. reflexivity. Qed.

(** On findings whose lookups find entries of the configuration or
    nothing, and none of them fatal, the loops of the program compute the
    score of the specification, in exact arithmetic. *)
Lemma calculateScore_refines {Fn} (cfg : ScoringConfig)
      (rs : SpectralRuleset Fn) (vs : list Violation) :
  ScoreSpec.noFatal cfg vs -> ScoreSpec.ownEntries cfg vs ->
  s_hasFatalErrors
    (calculateScore cfg vs (calculateCategoryScores vs cfg rs)) = false /\
  exists q : Q,
    s_finalScore
      (calculateScore cfg vs (calculateCategoryScores vs cfg rs)) =
    JS.Num q /\
    q == ScoreSpec.finalScore cfg rs vs.
Proof.
  intros Hnf Hown. apply existsb_isFatal_false in Hnf.
  unfold calculateScore. rewrite Hnf. cbn [s_hasFatalErrors s_finalScore].
  split; [reflexivity|].
  rewrite calculateCategoryScores_eq. unfold categories.
  cbn [map fold_left pointsDeducted weight].
  destruct (@fold_addPenalty cfg _
              (@ownEntries_filter cfg (ScoreSpec.inCategory rs security) vs Hown)
              0) as [q1 [E1 H1]].
  destruct (@fold_addPenalty cfg _
              (@ownEntries_filter cfg (ScoreSpec.inCategory rs completeness) vs Hown)
              0) as [q2 [E2 H2]].
  destruct (@fold_addPenalty cfg _
              (@ownEntries_filter cfg (ScoreSpec.inCategory rs structure) vs Hown)
              0) as [q3 [E3 H3]].
  destruct (@fold_addPenalty cfg _
              (@ownEntries_filter cfg (ScoreSpec.inCategory rs consistency) vs Hown)
              0) as [q4 [E4 H4]].
  rewrite E1, E2, E3, E4. cbn [JS.mulN JS.addN JS.subN JS.Math_maxN].
  eexists. split; [reflexivity|].
  rewrite Math_max_0_if. unfold ScoreSpec.finalScore.
  assert (Heq :
    base_score cfg -
    (0 + q1 * weight_of (weights cfg) security +
     q2 * weight_of (weights cfg) completeness +
     q3 * weight_of (weights cfg) structure +
     q4 * weight_of (weights cfg) consistency) ==
    base_score cfg - ScoreSpec.totalPenalty cfg rs vs).
  { unfold ScoreSpec.totalPenalty, ScoreSpec.categoryPoints.
    rewrite H1, H2, H3, H4. ring. }
  rewrite (Qle_bool_comp Heq).
  destruct (Qle_bool 0 (base_score cfg - ScoreSpec.totalPenalty cfg rs vs));
    [exact Heq|reflexivity].
Qed.

(** On such findings the audit reports the score of the specification,
    rounded to the nearest integer. *)
Lemma finalScore_weighted {Fn} (cfg : ScoringConfig)
        (rs : SpectralRuleset Fn) (unresolved : bool)
        (results : list SpectralResult) :
  ScoreSpec.noFatal cfg (convertResults results) ->
  ScoreSpec.ownEntries cfg (convertResults results) ->
  let vs := convertResults results in
  let reported := finalScore (audit cfg rs unresolved results) in
  hasFatalErrors (audit cfg rs unresolved results) = false /\
  reported = JS.Math_round (ScoreSpec.finalScore cfg rs vs) /\
  exists n : Z,
    reported = inject_Z n /\
    ScoreSpec.finalScore cfg rs vs - (1 # 2) < inject_Z n /\
    inject_Z n <= ScoreSpec.finalScore cfg rs vs + (1 # 2).
Proof.
  intros Hnf Hown vs reported.
  destruct (@calculateScore_refines _ cfg rs _ Hnf Hown)
    as [Hfatal [q [Hq Hscore]]].
  fold vs in Hfatal, Hq, Hscore.
  assert (Hrep : reported = JS.Math_round (ScoreSpec.finalScore cfg rs vs)).
  { unfold reported, audit. cbn [finalScore]. fold vs.
    rewrite Hq. cbn [JS.Math_roundN]. f_equal.
    apply Math_round_comp. exact Hscore. }
  split; [exact Hfatal|]. split; [exact Hrep|].
  rewrite Hrep.
  destruct (Math_round_nearest (ScoreSpec.finalScore cfg rs vs))
    as [n [Hn Hb]].
  exists n. split; [rewrite Hn; reflexivity|exact Hb].
Qed.



End ScoreCalculator.

(** ** Summary of an audit result *)

Section SummaryCounts.
Import Types Auditor SummarySpec.
Local Open Scope nat_scope.


Lemma filter_length_countSeverity (s : SpectralSeverity) (vs : list Violation) :
  List.length (filter (fun v => severity_eqb (severity v) s) vs) =
  countSeverity s vs.
Proof.
  induction vs as [|v vs IH]; simpl; [reflexivity|].
  destruct (severity_eqb (severity v) s); simpl; rewrite IH; reflexivity.
Qed.

Lemma countSeverity_partition (vs : list Violation) :
  countSeverity error vs + countSeverity warn vs + countSeverity info vs +
  countSeverity hint vs = List.length vs.
Proof.
  induction vs as [|v vs IH]; simpl; [reflexivity|].
  destruct (severity v); simpl; lia.
Qed.

Lemma countSeverity_pos (s : SpectralSeverity) (vs : list Violation) :
  (exists v, In v vs /\ severity v = s) -> 0 < countSeverity s vs.
Proof.
  induction vs as [|w vs IH]; intros [v [Hin Hs]]; simpl in *.
  - contradiction.
  - destruct Hin as [->|Hin].
    + rewrite Hs. destruct s; simpl; lia.
    + assert (0 < countSeverity s vs) by (apply IH; eauto). lia.
Qed.

(** C10.  In every audit result, totalViolations is the length of the
    violations list; errorCount, warningCount and infoCount count the
    violations of severity error, warn and info; a violation of severity
    hint is counted in totalViolations and in none of the three, so that
    the three counts sum to less than totalViolations whenever a hint
    violation is present. *)
Theorem audit_summary_counts {Fn} (cfg : ScoringConfig)
        (rs : SpectralRuleset Fn) (unresolved : bool)
        (results : list SpectralResult) :
  let r := audit cfg rs unresolved results in
  violations r = convertResults results /\
  totalViolations (summary r) = List.length (violations r) /\
  errorCount (summary r) = countSeverity error (violations r) /\
  warningCount (summary r) = countSeverity warn (violations r) /\
  infoCount (summary r) = countSeverity info (violations r) /\
  errorCount (summary r) + warningCount (summary r) + infoCount (summary r)
    + countSeverity hint (violations r) = totalViolations (summary r) /\
  ((exists v, In v (violations r) /\ severity v = hint) ->
   errorCount (summary r) + warningCount (summary r) + infoCount (summary r)
     < totalViolations (summary r)).
Proof.
  intro r. unfold r, audit.
  cbn [violations summary totalViolations errorCount warningCount infoCount].
  rewrite !filter_length_countSeverity.
  pose proof (countSeverity_partition (convertResults results)) as Hp.
  repeat split; try reflexivity; try exact Hp.
  intro Hh. apply countSeverity_pos in Hh. lia.
Qed.

End SummaryCounts.

(** ** Configuration validator *)

Section ValidatorStructure.
Import Types Loader ValidatorSpec.
Local Open Scope Q_scope.

(** A loop that only ever appends to [errors] returns the initial errors
    followed by what each iteration appends. *)
Lemma fold_left_appending {X E : Type} (step : list E -> X -> list E)
      (added : X -> list E) (xs : list X) :
  (forall errors x, step errors x = errors ++ added x) ->
  forall init, fold_left step xs init = init ++ flat_map added xs.
Proof.
  intro Hstep. induction xs as [|x xs IH]; intro init; simpl.
  - symmetry. apply app_nil_r.
  - rewrite IH, Hstep, <- app_assoc. reflexivity.
Qed.

Lemma flat_map_nil {X E : Type} (f : X -> list E) (xs : list X) :
  flat_map f xs = [] <-> forall x, In x xs -> f x = [].
Proof.
  induction xs as [|x xs IH]; simpl.
  - split; [intros _ y []|reflexivity].
  - split.
    + intros H y [<-|Hy].
      * apply app_eq_nil in H. tauto.
      * apply app_eq_nil in H. apply IH; tauto.
    + intro H. rewrite (H x (or_introl eq_refl)). simpl.
      apply IH. intros y Hy. apply H. right. exact Hy.
Qed.

Lemma validateWeights_eq (weights : JS.Obj JS.number) :
  validateWeights weights =
  sumErrors weights ++ flat_map (missingErrors weights) requiredCategories.
Proof.
  unfold validateWeights.
  rewrite (@fold_left_appending _ _ _ (missingErrors weights)).
  - reflexivity.
  - intros errors c. unfold missingErrors.
    destruct (negb (JS.has weights c)); [reflexivity|].
    symmetry. apply app_nil_r.
Qed.

Lemma validateGradingScale_eq (scale : JS.Obj GradeEntry) :
  validateGradingScale scale =
  flat_map (gradeErrors scale) grades ++ gapErrors (sortedRanges scale).
Proof.
  unfold validateGradingScale.
  rewrite (@fold_left_appending _ _ _ (gradeErrors scale)).
  - reflexivity.
  - intros errors g. unfold gradeErrors.
    destruct (JS.get scale g) as [entry|]; [|reflexivity].
    destruct (boundsOf entry) as [lo hi]. cbn [b_min b_max].
    destruct (JS.gtbN lo hi); [reflexivity|].
    symmetry. apply app_nil_r.
Qed.

Lemma validateScoringConfig_eq (cfg : RawScoringConfig) :
  validateScoringConfig (Some cfg) =
  match allErrors cfg with
  | [] => Success cfg
  | _ :: _ => Failure (allErrors cfg)
  end.
Proof.
  unfold validateScoringConfig, allErrors, baseErrors, weightsErrors,
    penaltiesErrors, scaleErrors.
  destruct (raw_base_score cfg) as [b|];
    destruct (raw_weights cfg) as [w|];
    destruct (raw_penalties cfg) as [p|];
    destruct (raw_grading_scale cfg) as [s|];
    rewrite ?app_nil_r, <- ?app_assoc; reflexivity.
Qed.

(** What acceptance of a scoring document amounts to. *)
Lemma accepted_iff (cfg : RawScoringConfig) :
  accepted cfg <->
  (exists b, raw_base_score cfg = Some b /\
             JS.ltbN b 0 = false /\ JS.gtbN b 100 = false) /\
  (exists w, raw_weights cfg = Some w /\ validateWeights w = []) /\
  (exists p, raw_penalties cfg = Some p) /\
  (exists s, raw_grading_scale cfg = Some s /\ validateGradingScale s = []).
Proof.
  unfold accepted. rewrite validateScoringConfig_eq.
  assert (Hnil : allErrors cfg = [] <->
                 baseErrors cfg = [] /\ weightsErrors cfg = [] /\
                 penaltiesErrors cfg = [] /\ scaleErrors cfg = []).
  { unfold allErrors. split.
    - intro H. apply app_eq_nil in H. destruct H as [H1 H].
      apply app_eq_nil in H. destruct H as [H2 H].
      apply app_eq_nil in H. tauto.
    - intros (-> & -> & -> & ->). reflexivity. }
  assert (Hacc : match allErrors cfg with
                 | [] => Success cfg
                 | _ :: _ => Failure (allErrors cfg)
                 end = Success cfg <-> allErrors cfg = []).
  { destruct (allErrors cfg); split; congruence. }
  rewrite Hacc, Hnil.
  unfold baseErrors, weightsErrors, penaltiesErrors, scaleErrors.
  split.
  - intros (Hb & Hw & Hp & Hs).
    destruct (raw_base_score cfg) as [b|]; [|discriminate].
    destruct (raw_weights cfg) as [w|]; [|discriminate].
    destruct (raw_penalties cfg) as [p|]; [|discriminate].
    destruct (raw_grading_scale cfg) as [s|]; [|discriminate].
    destruct (JS.ltbN b 0) eqn:Elo; [discriminate|].
    destruct (JS.gtbN b 100) eqn:Ehi; [discriminate|].
    repeat split; eauto.
  - intros ([b [-> [Hlo Hhi]]] & [w [-> Hw]] & [p ->] & [s [-> Hs]]).
    rewrite Hlo, Hhi. auto.
Qed.

End ValidatorStructure.

Section WeightsValidation.
Import Types Loader ValidatorSpec.
Local Open Scope Q_scope.

Lemma missingErrors_nil (w : JS.Obj JS.number) (c : string) :
  missingErrors w c = [] <-> JS.has w c = true.
Proof.
  unfold missingErrors. destruct (JS.has w c); simpl;
    split; congruence.
Qed.

(** The weights check passes exactly when the five categories are there
    and the comparison of the program, |sum - 1| > 0.001, is false. *)
Lemma validateWeights_nil (w : JS.Obj JS.number) :
  validateWeights w = [] <->
  (forall c, In c requiredCategories -> JS.has w c = true) /\
  JS.gtbN (JS.Math_absN (JS.subN (weightSum w) 1)) (1 # 1000) = false.
Proof.
  rewrite validateWeights_eq. unfold sumErrors. split.
  - intro H. apply app_eq_nil in H. destruct H as [Hs Hm]. split.
    + intros c Hc. apply missingErrors_nil.
      apply (proj1 (flat_map_nil _ _) Hm c Hc).
    + destruct (JS.gtbN _ _); [discriminate|reflexivity].
  - intros [Hm Hs]. rewrite Hs. cbn [app].
    apply flat_map_nil. intros c Hc. apply missingErrors_nil. auto.
Qed.

(** A weight that is NaN makes the sum NaN. *)
Lemma fold_addN_NaN (l : list JS.number) :
  fold_left (fun acc val => JS.addN acc val) l JS.NaN = JS.NaN.
Proof. induction l as [|x l IH]; [reflexivity|exact IH]. Qed.

Lemma weightSum_NaN (w : JS.Obj JS.number) :
  In JS.NaN (JS.values w) -> weightSum w = JS.NaN.
Proof.
  unfold weightSum. generalize (JS.Num 0).
  induction (JS.values w) as [|x l IH]; intros acc Hin; [contradiction|].
  cbn [fold_left]. destruct Hin as [->|Hin].
  - destruct acc; apply fold_addN_NaN.
  - apply IH. exact Hin.
Qed.

(** X5.  Weights of which one is NaN pass the check of the sum, whatever
    the other weights are: the validator never reports their sum, its
    errors are the missing categories and nothing else, and it reports no
    error exactly when the five categories are there. *)
Theorem validateWeights_NaN (w : JS.Obj JS.number) :
  In JS.NaN (JS.values w) ->
  weightSum w = JS.NaN /\
  validateWeights w = flat_map (missingErrors w) requiredCategories /\
  (forall sum, ~ In (WeightsSum sum) (validateWeights w)) /\
  (validateWeights w = [] <->
   forall c, In c requiredCategories -> JS.has w c = true).
Proof.
  intro Hin.
  assert (He : validateWeights w =
               flat_map (missingErrors w) requiredCategories).
  { rewrite validateWeights_eq. unfold sumErrors.
    rewrite (weightSum_NaN w Hin). reflexivity. }
  split; [exact (weightSum_NaN w Hin)|]. split; [exact He|]. split.
  - intros sum H. rewrite He in H. apply in_flat_map in H.
    destruct H as [c [_ H]]. unfold missingErrors in H.
    destruct (negb (JS.has w c)); [|contradiction].
    destruct H as [H|[]]. discriminate.
  - rewrite validateWeights_nil, (weightSum_NaN w Hin).
    cbn [JS.subN JS.Math_absN JS.gtbN]. tauto.
Qed.

(** C6.  The weights of the README with security set to NaN hold the five
    categories, their sum is NaN, which is not within 0.001 of 1, and the
    validator reports no error for them: the scoring document is
    accepted. *)
Theorem validateWeights_accepts_NaN :
  raw_weights Samples.nanRaw = Some Samples.nanWeights /\
  JS.get Samples.nanWeights "security" = Some JS.NaN /\
  (forall c, In c requiredCategories -> JS.has Samples.nanWeights c = true) /\
  weightSum Samples.nanWeights = JS.NaN /\
  validateWeights Samples.nanWeights = [] /\
  validateScoringConfig (Some Samples.nanRaw) = Success Samples.nanRaw.
Proof.
  repeat split; try reflexivity.
  - intros c Hc. unfold requiredCategories in Hc. cbn [In] in Hc.
    destruct Hc as [<-|[<-|[<-|[<-|[<-|[]]]]]]; reflexivity.
Qed.

End WeightsValidation.

(** ** The sort of the grading-scale check *)

Section SortByMax.
Import Types ValidatorSpec.
Local Open Scope Q_scope.

Variable A : Type.
Variable compareFn : A -> A -> JS.number.



(** With a comparator that is the difference of a key, the result is in
    ascending order of the key. *)
Variable key : A -> Q.
Hypothesis compareFn_key :
  forall a b, compareFn a b = JS.Num (key a - key b).





End SortByMax.

(** Sorting commutes with a map that preserves the comparisons. *)
Lemma sort_map {X Y : Type} (f : X -> Y) (compareX : X -> X -> JS.number)
      (compareY : Y -> Y -> JS.number) :
  (forall a b, compareY (f a) (f b) = compareX a b) ->
  forall l, JS.sort compareY (map f l) = map f (JS.sort compareX l).
Proof.
  intro Hc.
  assert (Hi : forall x l,
             JS.insert compareY (f x) (map f l) =
             map f (JS.insert compareX x l)).
  { intros x l. induction l as [|y l IH]; [reflexivity|].
    cbn [map JS.insert]. rewrite Hc.
    destruct (JS.gtbN (compareX x y) (JS.Num 0)); cbn [map];
      [rewrite IH|]; reflexivity. }
  induction l as [|x l IH]; [reflexivity|].
  cbn [map JS.sort]. rewrite IH. apply Hi.
Qed.

(** ** Grading-scale validation *)

Section GradingScale.
Import Types Loader ValidatorSpec.
Local Open Scope Q_scope.

(** A grade whose entry is an object with numeric bounds passes the
    check of its range exactly when the bounds are in order. *)
Lemma gradeErrors_range (scale : JS.Obj GradeEntry) (g : string)
      (t : GradeThreshold) :
  JS.get scale g = Some (rangeEntry t) ->
  (gradeErrors scale g = [] <-> valid t).
Proof.
  intro Hg. unfold gradeErrors, valid. rewrite Hg.
  cbn [rangeEntry boundsOfRange boundsOf b_min b_max JS.gtbN].
  destruct (JS.gtb (min t) (max t)) eqn:E.
  - apply gtb_true in E. split; [discriminate|].
    intro Hv. exfalso. exact (Qlt_not_le _ _ E Hv).
  - apply gtb_false in E. tauto.
Qed.

Lemma gradeErrors_present (scale : JS.Obj GradeEntry) (g : string) :
  gradeErrors scale g = [] -> exists entry, JS.get scale g = Some entry.
Proof.
  unfold gradeErrors. destruct (JS.get scale g) as [entry|];
    [eauto|discriminate].
Qed.

(** On ranges with numeric bounds the loop over adjacent entries reports
    nothing exactly when every range starts one above the end of the one
    before. *)
Lemma gapErrors_nil (l : list GradeThreshold) :
  gapErrors (map boundsOfRange l) = [] <-> Contiguous l.
Proof.
  induction l as [|a l IH]; [split; [constructor|reflexivity]|].
  destruct l as [|b r]; [split; [constructor|reflexivity]|].
  change (gapErrors (map boundsOfRange (a :: b :: r))) with
    ((if negb (JS.eqb (max a + 1) (min b))
      then [GapOverlap (JS.Num (max a)) (JS.Num (min b))] else []) ++
     gapErrors (map boundsOfRange (b :: r))).
  split.
  - intro H. apply app_eq_nil in H. destruct H as [H1 H2].
    constructor.
    + apply eqb_true. destruct (JS.eqb (max a + 1) (min b));
        [reflexivity|discriminate].
    + apply IH. exact H2.
  - intro H. inversion H as [| |a' b' l' Hab Hrest]; subst.
    apply eqb_true in Hab. rewrite Hab. simpl. apply IH. exact Hrest.
Qed.








End GradingScale.

Section AcceptedScale.
Import Types Loader ValidatorSpec.
Local Open Scope string_scope.
Local Open Scope Q_scope.



Lemma sortedRanges_ranges (s : JS.Obj GradeEntry)
      (tA tB tC tD tF : GradeThreshold) :
  JS.get s "A" = Some (rangeEntry tA) -> JS.get s "B" = Some (rangeEntry tB) ->
  JS.get s "C" = Some (rangeEntry tC) -> JS.get s "D" = Some (rangeEntry tD) ->
  JS.get s "F" = Some (rangeEntry tF) ->
  sortedRanges s =
  map boundsOfRange
      (JS.sort (fun a b => max a - max b) [tA; tB; tC; tD; tF]).
Proof.
  intros HA HB HC HD HF.
  unfold sortedRanges, ranges, grades. cbn [flat_map].
  rewrite HA, HB, HC, HD, HF.
  change (map boundsOf
              (filter isTruthy
                      ([rangeEntry tA] ++ [rangeEntry tB] ++
                       [rangeEntry tC] ++ [rangeEntry tD] ++
                       [rangeEntry tF] ++ [])))
    with (map boundsOfRange [tA; tB; tC; tD; tF]).
  apply (@sort_map _ _ boundsOfRange
                   (fun a b => JS.Num (max a - max b))
                   (fun a b => JS.subN (b_max a) (b_max b))).
  reflexivity.
Qed.

(** An accepted scale whose entries are objects with numeric bounds has
    the five grades, each with its bounds in order, and its gap check
    passed. *)
Lemma accepted_scale_inv (cfg : RawScoringConfig) (s : JS.Obj GradeEntry) :
  accepted cfg -> raw_grading_scale cfg = Some s -> numeric s ->
  exists tA tB tC tD tF,
    JS.get s "A" = Some (rangeEntry tA) /\
    JS.get s "B" = Some (rangeEntry tB) /\
    JS.get s "C" = Some (rangeEntry tC) /\
    JS.get s "D" = Some (rangeEntry tD) /\
    JS.get s "F" = Some (rangeEntry tF) /\
    Forall valid [tA; tB; tC; tD; tF] /\
    Contiguous (JS.sort (fun a b => max a - max b) [tA; tB; tC; tD; tF]).
Proof.
  intros Hacc Hs Hnum. apply accepted_iff in Hacc.
  destruct Hacc as (_ & _ & _ & [s' [Hs' Hnil]]).
  rewrite Hs in Hs'. injection Hs' as <-.
  rewrite validateGradingScale_eq in Hnil.
  apply app_eq_nil in Hnil. destruct Hnil as [Hg Hgap].
  pose proof (proj1 (flat_map_nil _ _) Hg) as Hall.
  assert (Hrange : forall g,
             In g grades ->
             exists t, JS.get s g = Some (rangeEntry t) /\ valid t).
  { intros g Hin. specialize (Hall g Hin).
    destruct (@gradeErrors_present s g Hall) as [entry He].
    destruct (Hnum g entry Hin He) as [t ->].
    exists t. split; [exact He|].
    apply (@gradeErrors_range s g t He). exact Hall. }
  destruct (Hrange "A") as [tA [HA VA]]; [simpl; auto|].
  destruct (Hrange "B") as [tB [HB VB]]; [simpl; auto|].
  destruct (Hrange "C") as [tC [HC VC]]; [simpl; auto|].
  destruct (Hrange "D") as [tD [HD VD]]; [simpl; auto|].
  destruct (Hrange "F") as [tF [HF VF]]; [simpl; auto 6|].
  exists tA, tB, tC, tD, tF.
  do 5 (split; [assumption|]).
  split; [repeat constructor; assumption|].
  apply gapErrors_nil.
  rewrite <- (@sortedRanges_ranges s tA tB tC tD tF HA HB HC HD HF).
  exact Hgap.
Qed.


End AcceptedScale.

(** ** Regular expressions *)

Section RegExpCorrect.
Import RegExp.
Local Open Scope string_scope.

Lemma append_is_empty (a b : string) : a ++ b = "" -> a = "" /\ b = "".
Proof. destruct a; simpl; [auto|discriminate]. Qed.

Lemma nullable_matches (r : RegExp.t) :
  nullable r = true <-> matches r "".
Proof.
  induction r as [| |p|r1 IH1 r2 IH2|r1 IH1 r2 IH2|r IH]; simpl.
  - split; [discriminate|]. intro H. inversion H.
  - split; [constructor|reflexivity].
  - split; [discriminate|]. intro H. inversion H.
  - rewrite andb_true_iff, IH1, IH2. split.
    + intros [H1 H2]. apply (m_cat H1 H2).
    + intro H. inversion H as [| |? ? s1 s2 H1 H2 E1 Hs| | | |]; subst.
      apply append_is_empty in Hs. destruct Hs as [-> ->]. auto.
  - rewrite orb_true_iff, IH1, IH2. split.
    + intros [H|H]; [apply m_alt_l|apply m_alt_r]; exact H.
    + intro H. inversion H; subst; auto.
  - split; [constructor|reflexivity].
Qed.

(** A non-empty match of a starred pattern starts with a non-empty match
    of the pattern. *)
Lemma star_first_gen (r' : RegExp.t) (s' : string) :
  matches r' s' ->
  forall r c s,
    r' = Star r -> s' = String c s ->
    exists s1 s2,
      s = s1 ++ s2 /\ matches r (String c s1) /\ matches (Star r) s2.
Proof.
  induction 1 as [ | p c0 Hp | r1 r2 s1 s2 H1 IH1 H2 IH2
                 | r1 r2 s0 H0 IH0 | r1 r2 s0 H0 IH0 | r0
                 | r0 s1 s2 H1 IH1 H2 IH2 ];
    intros r c s Er Es; try discriminate.
  injection Er as ->.
  destruct s1 as [|c1 s1]; simpl in Es.
  - apply IH2; [reflexivity|exact Es].
  - injection Es as -> <-. exists s1, s2. auto.
Qed.

Lemma star_first (r : RegExp.t) (c : ascii) (s : string) :
  matches (Star r) (String c s) ->
  exists s1 s2,
    s = s1 ++ s2 /\ matches r (String c s1) /\ matches (Star r) s2.
Proof. intro H. exact (star_first_gen H eq_refl eq_refl). Qed.

Lemma deriv_matches (r : RegExp.t) :
  forall (c : ascii) (s : string),
    matches (deriv c r) s <-> matches r (String c s).
Proof.
  induction r as [| |p|r1 IH1 r2 IH2|r1 IH1 r2 IH2|r IH]; intros c s; simpl.
  - split; intro H; inversion H.
  - split; intro H; inversion H.
  - destruct (p c) eqn:Ep; split; intro H.
    + inversion H; subst. constructor. exact Ep.
    + inversion H; subst. constructor.
    + inversion H.
    + inversion H; subst. congruence.
  - assert (Hcat : matches (Cat (deriv c r1) r2) s ->
                   matches (Cat r1 r2) (String c s)).
    { intro H. inversion H as [| |? ? s1 s2 H1 H2| | | |]; subst.
      apply IH1 in H1.
      change (String c (s1 ++ s2)) with (String c s1 ++ s2).
      apply (m_cat H1 H2). }
    assert (Hinv : matches (Cat r1 r2) (String c s) ->
                   matches (Cat (deriv c r1) r2) s \/
                   (matches r1 "" /\ matches (deriv c r2) s)).
    { intro H. inversion H as [| |? ? s1 s2 H1 H2 E1 Hs| | | |]; subst.
      destruct s1 as [|c1 s1]; simpl in Hs.
      - subst s2. right. split; [exact H1|apply IH2; exact H2].
      - injection Hs as -> <-. left. apply IH1 in H1.
        apply (m_cat H1 H2). }
    destruct (nullable r1) eqn:En; split; intro H.
    + inversion H; subst; [auto|].
      apply nullable_matches in En.
      change (String c s) with ("" ++ String c s).
      apply m_cat; [exact En|]. apply IH2. assumption.
    + destruct (Hinv H) as [Hl|[_ Hr]];
        [apply m_alt_l|apply m_alt_r]; assumption.
    + auto.
    + destruct (Hinv H) as [Hl|[Hn _]]; [exact Hl|].
      apply nullable_matches in Hn. congruence.
  - split; intro H; inversion H; subst.
    + apply m_alt_l. apply IH1. assumption.
    + apply m_alt_r. apply IH2. assumption.
    + apply m_alt_l. apply IH1. assumption.
    + apply m_alt_r. apply IH2. assumption.
  - split; intro H.
    + inversion H as [| |? ? s1 s2 H1 H2| | | |]; subst.
      apply IH in H1.
      change (String c (s1 ++ s2)) with (String c s1 ++ s2).
      apply (m_star_cons H1 H2).
    + apply star_first in H. destruct H as (s1 & s2 & -> & H1 & H2).
      apply IH in H1. apply (m_cat H1 H2).
Qed.

(** The test by derivatives decides the language of the pattern. *)
Lemma test_matches (s : string) :
  forall r : RegExp.t, RegExp.test r s = true <-> matches r s.
Proof.
  induction s as [|c s IH]; intro r; simpl.
  - apply nullable_matches.
  - rewrite IH. apply deriv_matches.
Qed.

End RegExpCorrect.

(** ** Casing consistency detector *)

Section CasingCounter.
Import ConsistentCasing CasingSpec.
Local Open Scope string_scope.
Local Open Scope nat_scope.

(** Induction over parsed values, with the hypothesis for every element
    of an array and every member of an object. *)
Lemma JValue_induction (P : JValue -> Prop) :
  P JNull ->
  (forall b, P (JBool b)) ->
  (forall n, P (JNumber n)) ->
  (forall s, P (JString s)) ->
  (forall items, Forall P items -> P (JArray items)) ->
  (forall members, Forall (fun kv => P (snd kv)) members ->
                   P (JObject members)) ->
  forall v, P v.
Proof.
  intros Hnull Hbool Hnum Hstr Harr Hobj.
  fix IH 1. intros [|b|n|s|items|members].
  - exact Hnull.
  - apply Hbool.
  - apply Hnum.
  - apply Hstr.
  - apply Harr. induction items as [|x items IHitems]; constructor.
    + apply IH.
    + exact IHitems.
  - apply Hobj. induction members as [|[k x] members IHm]; constructor.
    + apply IH.
    + exact IHm.
Qed.

(** The two style tests never both hold. *)
Lemma styles_exclusive (key : string) :
  isCamelCase key && isSnakeCase key = false.
Proof.
  unfold isCamelCase, isSnakeCase.
  destruct (JS.includesChar key "_");
    rewrite ?andb_false_r, ?andb_false_l; reflexivity.
Qed.

Lemma isStyle_Camel (key : string) : isStyle Camel key = isCamelCase key.
Proof.
  unfold isStyle, styleOf.
  destruct (isCamelCase key); [reflexivity|].
  destruct (isSnakeCase key); reflexivity.
Qed.

Lemma isStyle_Snake (key : string) : isStyle Snake key = isSnakeCase key.
Proof.
  pose proof (styles_exclusive key) as Hx.
  unfold isStyle, styleOf.
  destruct (isCamelCase key), (isSnakeCase key);
    try reflexivity; discriminate.
Qed.

(** Every key falls in exactly one of the three classes. *)
Lemma countStyle_partition (keys : list string) :
  countStyle Camel keys + countStyle Snake keys + countStyle Neither keys =
  List.length keys.
Proof.
  unfold countStyle. induction keys as [|k keys IH]; [reflexivity|].
  cbn [filter].
  destruct (isStyle Camel k) eqn:E1, (isStyle Snake k) eqn:E2,
           (isStyle Neither k) eqn:E3;
    unfold isStyle in E1, E2, E3; destruct (styleOf k);
    try discriminate; cbn [List.length]; lia.
Qed.

Lemma countStyle_app (s : Style) (a b : list string) :
  countStyle s (a ++ b) = countStyle s a + countStyle s b.
Proof. unfold countStyle. rewrite filter_app, length_app. reflexivity. Qed.

Lemma tally_nil (stats : Stats) : tally [] stats = stats.
Proof.
  destruct stats as [c s t]. unfold tally, countStyle. simpl.
  rewrite !Nat.add_0_r. reflexivity.
Qed.

Lemma tally_app (a b : list string) (stats : Stats) :
  tally (a ++ b) stats = tally b (tally a stats).
Proof.
  unfold tally. cbn [camelCase snakeCase total].
  rewrite !countStyle_app, length_app, !Nat.add_assoc. reflexivity.
Qed.

Lemma tally_cons (key : string) (rest : list string) (stats : Stats) :
  tally (key :: rest) stats =
  tally rest
        (let stats1 :=
           mkStats (camelCase stats) (snakeCase stats) (S (total stats)) in
         if isCamelCase key
         then mkStats (S (camelCase stats1)) (snakeCase stats1)
                      (total stats1)
         else if isSnakeCase key
         then mkStats (camelCase stats1) (S (snakeCase stats1))
                      (total stats1)
         else stats1).
Proof.
  unfold tally, countStyle. cbn [filter].
  rewrite isStyle_Camel, isStyle_Snake.
  pose proof (styles_exclusive key) as Hx.
  destruct (isCamelCase key), (isSnakeCase key); try discriminate;
    cbn [List.length camelCase snakeCase total]; f_equal; lia.
Qed.

Lemma countedKeys_not_object (v : JValue) :
  typeofObject v && negb (isNull v) = false -> countedKeys v = [].
Proof. destruct v; simpl; intro H; try reflexivity; discriminate. Qed.

Lemma count_not_object (v : JValue) (stats : Stats) :
  typeofObject v && negb (isNull v) = false ->
  countCasingStyles v stats = stats.
Proof. destruct v; simpl; intro H; try reflexivity; discriminate. Qed.

(** One iteration of the loop counts the keys that the specification
    lists for that key. *)
Lemma visitKey_tally (key : string) (value : JValue) (stats : Stats) :
  (forall st, countCasingStyles value st = tally (countedKeys value) st) ->
  visitKey key value (countCasingStyles value) stats =
  tally (keysAt key (countedKeys value)) stats.
Proof.
  intro IH. unfold visitKey, keysAt.
  destruct (JS.includes IGNORED_KEYS key) eqn:Eign.
  - destruct (String.eqb key "properties") eqn:Ep.
    + apply String.eqb_eq in Ep. subst key.
      change (String.eqb "properties" "items") with false.
      cbn [andb orb].
      destruct (typeofObject value) eqn:Et; [apply IH|].
      rewrite countedKeys_not_object, tally_nil;
        [reflexivity|rewrite Et; reflexivity].
    + cbn [andb orb].
      destruct (String.eqb key "items") eqn:Ei; cbn [andb].
      * destruct (typeofObject value) eqn:Et; [apply IH|].
        rewrite countedKeys_not_object, tally_nil;
          [reflexivity|rewrite Et; reflexivity].
      * rewrite tally_nil. reflexivity.
  - rewrite tally_cons. cbv zeta.
    destruct (typeofObject value && negb (isNull value)) eqn:Et.
    + apply IH.
    + rewrite (countedKeys_not_object _ Et), tally_nil. reflexivity.
Qed.

Lemma forMembers_tally (members : list (string * JValue)) :
  Forall (fun kv => forall st, countCasingStyles (snd kv) st =
                               tally (countedKeys (snd kv)) st) members ->
  forall stats,
    forMembers countCasingStyles members stats =
    tally (keysOfMembers countedKeys members) stats.
Proof.
  induction 1 as [|[k v] members Hv _ IH]; intro stats; simpl.
  - symmetry. apply tally_nil.
  - rewrite IH, tally_app. f_equal. apply visitKey_tally. exact Hv.
Qed.

Lemma forItems_tally (items : list JValue) :
  Forall (fun v => forall st, countCasingStyles v st =
                              tally (countedKeys v) st) items ->
  forall i stats,
    forItems countCasingStyles items i stats =
    tally (keysOfItems countedKeys items i) stats.
Proof.
  induction 1 as [|v items Hv _ IH]; intros i stats; simpl.
  - symmetry. apply tally_nil.
  - rewrite IH, tally_app. f_equal. apply visitKey_tally. exact Hv.
Qed.

(** The counters are the tally of the counted keys. *)
Lemma countCasingStyles_tally (obj : JValue) :
  forall stats,
    countCasingStyles obj stats = tally (countedKeys obj) stats.
Proof.
  induction obj as [|b|n|s|items IH|members IH] using JValue_induction;
    intro stats; try (symmetry; apply tally_nil).
  - apply forItems_tally. exact IH.
  - apply forMembers_tally. exact IH.
Qed.

End CasingCounter.

Section CasingDecision.
Import ConsistentCasing CasingSpec.
Local Open Scope string_scope.
Local Open Scope nat_scope.

Lemma keysAt_not_ignored (key : string) (below : list string) :
  Forall (fun k => JS.includes IGNORED_KEYS k = false) below ->
  Forall (fun k => JS.includes IGNORED_KEYS k = false) (keysAt key below).
Proof.
  intro H. unfold keysAt.
  destruct (JS.includes IGNORED_KEYS key) eqn:E.
  - destruct (String.eqb key "properties" || String.eqb key "items");
      [exact H|constructor].
  - constructor; assumption.
Qed.

(** No key of the ignore list is ever counted. *)
Lemma countedKeys_not_ignored (obj : JValue) :
  Forall (fun k => JS.includes IGNORED_KEYS k = false) (countedKeys obj).
Proof.
  induction obj as [|b|n|s|items IH|members IH] using JValue_induction;
    try constructor.
  - simpl. generalize 0. induction IH as [|v items Hv _ IHl]; intro i;
      simpl; [constructor|].
    apply Forall_app. split; [apply keysAt_not_ignored; exact Hv|apply IHl].
  - simpl. induction IH as [|[k v] members Hv _ IHl];
      simpl; [constructor|].
    apply Forall_app. split; [apply keysAt_not_ignored; exact Hv|apply IHl].
Qed.

(** C7 (amended).  The casing counter puts every counted key in at most
    one of the two style buckets (camelCase: the whole key matches the
    camelCase pattern and has no underscore; snake_case: the whole key
    matches the snake_case pattern, anchored at its end as at its start,
    and has an underscore), so that
    camelCase + snake_case <= total; a key that matches neither pattern adds to total
    only; a key of the ignore list adds to no counter, and the traversal
    goes on into the value of an ignored key exactly when the key is
    properties or items. *)
Theorem countCasingStyles_buckets (obj : JValue) (stats : Stats) :
  let keys := countedKeys obj in
  let result := countCasingStyles obj stats in
  (forall key,
      (isCamelCase key = true <->
       RegExp.matches CAMEL_CASE_PATTERN key /\
       JS.includesChar key "_" = false) /\
      (isSnakeCase key = true <->
       RegExp.matches SNAKE_CASE_PATTERN key /\
       JS.includesChar key "_" = true) /\
      isCamelCase key && isSnakeCase key = false) /\
  Forall (fun k => JS.includes IGNORED_KEYS k = false) keys /\
  camelCase result =
    camelCase stats + List.length (filter isCamelCase keys) /\
  snakeCase result =
    snakeCase stats + List.length (filter isSnakeCase keys) /\
  total result = total stats + List.length keys /\
  List.length keys =
    countStyle Camel keys + countStyle Snake keys + countStyle Neither keys /\
  (camelCase stats + snakeCase stats <= total stats ->
   camelCase result + snakeCase result <= total result) /\
  (forall key value,
      JS.includes IGNORED_KEYS key = false ->
      isCamelCase key = false -> isSnakeCase key = false ->
      countCasingStyles (JObject [(key, value)]) stats =
      countCasingStyles value
        (mkStats (camelCase stats) (snakeCase stats) (S (total stats)))) /\
  (forall key value,
      JS.includes IGNORED_KEYS key = true ->
      countCasingStyles (JObject [(key, value)]) stats =
      if String.eqb key "properties" || String.eqb key "items"
      then countCasingStyles value stats
      else stats).
Proof.
  intros keys result.
  assert (Hres : result = tally keys stats)
    by apply countCasingStyles_tally.
  pose proof (countStyle_partition keys) as Hpart.
  assert (Hc : countStyle Camel keys = List.length (filter isCamelCase keys)).
  { unfold countStyle. f_equal. apply filter_ext. apply isStyle_Camel. }
  assert (Hs : countStyle Snake keys = List.length (filter isSnakeCase keys)).
  { unfold countStyle. f_equal. apply filter_ext. apply isStyle_Snake. }
  split.
  { intro key. unfold isCamelCase, isSnakeCase.
    rewrite !andb_true_iff, negb_true_iff, !test_matches.
    split; [tauto|]. split; [tauto|]. apply styles_exclusive. }
  split; [apply countedKeys_not_ignored|].
  rewrite Hres. unfold tally. cbn [camelCase snakeCase total].
  rewrite <- Hc, <- Hs.
  split; [reflexivity|]. split; [reflexivity|]. split; [reflexivity|].
  split; [symmetry; exact Hpart|]. split; [lia|]. split.
  - intros key value Hign Hcam Hsn.
    cbn [countCasingStyles forMembers]. unfold visitKey.
    rewrite Hign, Hcam, Hsn.
    destruct (typeofObject value && negb (isNull value)) eqn:Et;
      [reflexivity|].
    symmetry. apply count_not_object. exact Et.
  - intros key value Hign.
    cbn [countCasingStyles forMembers]. unfold visitKey. rewrite Hign.
    destruct (String.eqb key "properties") eqn:Ep.
    + apply String.eqb_eq in Ep. subst key.
      change (String.eqb "properties" "items") with false.
      cbn [andb orb].
      destruct (typeofObject value) eqn:Et; [reflexivity|].
      symmetry. apply count_not_object. rewrite Et. reflexivity.
    + cbn [andb orb]. destruct (String.eqb key "items"); cbn [andb];
        [|reflexivity].
      destruct (typeofObject value) eqn:Et; [reflexivity|].
      symmetry. apply count_not_object. rewrite Et. reflexivity.
Qed.

Lemma fifth_of (t m : Z) :
  ((20 # 100) * inject_Z t < inject_Z m)%Q <-> (t < 5 * m)%Z.
Proof. unfold Qlt, Qmult, inject_Z. cbn -[Z.mul Z.lt]. lia. Qed.

(** The comparison of the ratio with 0.20 in integers: the minority is
    more than a fifth of the two counts together. *)
Lemma ratio_over_fifth (stats : Stats) :
  minority stats <> 0 ->
  ((20 # 100 < ratio stats)%Q <->
   majority stats + minority stats < 5 * minority stats).
Proof.
  intro Hm. unfold ratio, num.
  set (m := minority stats) in *. set (M := majority stats).
  assert (Hpos : (0 < inject_Z (Z.of_nat M) + inject_Z (Z.of_nat m))%Q).
  { rewrite <- inject_Z_plus. change 0%Q with (inject_Z 0).
    rewrite <- Zlt_Qlt. lia. }
  assert (Hne : ~ (inject_Z (Z.of_nat M) + inject_Z (Z.of_nat m) == 0)%Q).
  { intro E. rewrite E in Hpos. discriminate. }
  split; intro H.
  - unfold Qdiv in H.
    assert (H' : ((20 # 100) *
                  (inject_Z (Z.of_nat M) + inject_Z (Z.of_nat m)) <
                  inject_Z (Z.of_nat m))%Q).
    { apply Qmult_lt_r with
        (z := (/ (inject_Z (Z.of_nat M) + inject_Z (Z.of_nat m)))%Q).
      - apply Qinv_lt_0_compat. exact Hpos.
      - rewrite <- Qmult_assoc, Qmult_inv_r, Qmult_1_r;
          [exact H|exact Hne]. }
    rewrite <- inject_Z_plus in H'. apply fifth_of in H'. lia.
  - apply Qlt_shift_div_l; [exact Hpos|].
    rewrite <- inject_Z_plus. apply fifth_of. lia.
Qed.

Lemma gtb_ratio (stats : Stats) :
  JS.gtb (ratio stats) (20 # 100) = true <-> (20 # 100 < ratio stats)%Q.
Proof. apply gtb_true. Qed.

(** C4.  For every subtree given to the detector: at most five counted
    keys give no finding; otherwise, with majority and minority the larger
    and the smaller of the camelCase and snake_case counts, a minority of 0
    gives no finding, and with ratio = minority / (majority + minority)
    exactly one finding is emitted when ratio > 0.20 and none otherwise.
    So five camelCase and one snake_case among six keys give no finding,
    four and two give exactly one. *)
Theorem consistentCasing_decision (targetVal : JValue) :
  let stats := countCasingStyles targetVal (mkStats 0 0 0) in
  (total stats <= 5 -> consistentCasing targetVal = []) /\
  (5 < total stats -> minority stats = 0 ->
   consistentCasing targetVal = []) /\
  (5 < total stats -> minority stats <> 0 ->
   (20 # 100 < ratio stats)%Q ->
   exists finding,
     consistentCasing targetVal = [finding] /\
     found_camelCase finding = camelCase stats /\
     found_snakeCase finding = snakeCase stats /\
     (percentage finding == ratio stats * 100)%Q) /\
  (5 < total stats -> minority stats <> 0 ->
   (ratio stats <= 20 # 100)%Q ->
   consistentCasing targetVal = []) /\
  (stats = mkStats 5 1 6 -> consistentCasing targetVal = []) /\
  (stats = mkStats 4 2 6 ->
   List.length (consistentCasing targetVal) = 1).
Proof.
  intro stats. unfold consistentCasing. fold stats.
  change (Nat.min (camelCase stats) (snakeCase stats))
    with (minority stats).
  change (Nat.max (camelCase stats) (snakeCase stats))
    with (majority stats).
  change (num (minority stats) / (num (majority stats) + num (minority stats)))%Q
    with (ratio stats).
  repeat split.
  - intro H. apply Nat.leb_le in H. rewrite H. reflexivity.
  - intros Ht Hm. apply Nat.leb_gt in Ht. rewrite Ht, Hm. reflexivity.
  - intros Ht Hm Hr. apply Nat.leb_gt in Ht. apply Nat.eqb_neq in Hm.
    apply gtb_ratio in Hr. rewrite Ht, Hm, Hr.
    eexists. split; [reflexivity|]. cbn [found_camelCase found_snakeCase
                                         percentage].
    repeat split; reflexivity.
  - intros Ht Hm Hr. apply Nat.leb_gt in Ht. apply Nat.eqb_neq in Hm.
    apply gtb_false in Hr. rewrite Ht, Hm, Hr. reflexivity.
  - intros ->. reflexivity.
  - intros ->. reflexivity.
Qed.

End CasingDecision.

(** ** Rule resolver *)

Section MapThrows.
Variables E X Y : Type.
Variable f : X -> JS.Throws E Y.

(** A map that returns has mapped every element. *)
Lemma mapThrows_inr (l : list X) (ys : list Y) :
  JS.mapThrows f l = inr ys -> Forall2 (fun x y => f x = inr y) l ys.
Proof.
  revert ys. induction l as [|x l IH]; intros ys H; simpl in H.
  - injection H as <-. constructor.
  - destruct (f x) as [e|y] eqn:Ex; [discriminate|].
    destruct (JS.mapThrows f l) as [e|ys'] eqn:El; [discriminate|].
    injection H as <-. constructor; [exact Ex|apply IH; reflexivity].
Qed.

(** A map over a list with a throwing element throws, and what it throws
    is what some element throws. *)
Lemma mapThrows_inl (l : list X) :
  (exists x e, In x l /\ f x = inl e) ->
  exists x e, In x l /\ f x = inl e /\ JS.mapThrows f l = inl e.
Proof.
  induction l as [|x l IH]; intros [x0 [e0 [Hin Hf]]]; [contradiction|].
  simpl. destruct (f x) as [e|y] eqn:Ex.
  - exists x, e. auto with datatypes.
  - destruct Hin as [->|Hin]; [congruence|].
    destruct IH as [x1 [e1 [Hin1 [Hf1 Hm]]]]; [eauto|].
    exists x1, e1. rewrite Hm. auto with datatypes.
Qed.

Lemma mapThrows_thrown (l : list X) (e : E) :
  JS.mapThrows f l = inl e -> exists x, In x l /\ f x = inl e.
Proof.
  induction l as [|x l IH]; simpl; [discriminate|].
  destruct (f x) as [e'|y] eqn:Ex.
  - intro H. injection H as <-. exists x. auto.
  - destruct (JS.mapThrows f l) as [e'|ys]; [|discriminate].
    intro H. injection H as <-.
    destruct IH as [x' [Hin Hf]]; [reflexivity|]. exists x'. auto.
Qed.

End MapThrows.

Section Resolver.
Import Types Loader ResolverSpec.
Local Open Scope string_scope.

(** A clause throws exactly when it names a function whose lookup in the
    table gives [undefined]. *)
Lemma resolveThenClause_throws (ruleId : string) (clause : Then)
      (e : ConfigLoadError) :
  resolveThenClause ruleId clause = inl e <->
  exists name,
    function clause = FnName name /\ lookupFunction name = None /\
    e = unknownFunction name ruleId.
Proof.
  unfold resolveThenClause, unknownFunction.
  destruct (function clause) as [name|fn|].
  - destruct (lookupFunction name) as [func|] eqn:El.
    + split; [discriminate|].
      intros [n [Hn [Hl _]]]. injection Hn as <-. congruence.
    + split.
      * intro H. injection H as <-. exists name. auto.
      * intros [n [Hn [_ ->]]]. injection Hn as <-. reflexivity.
  - split; [discriminate|]. intros [n [Hn _]]. discriminate.
  - split; [discriminate|]. intros [n [Hn _]]. discriminate.
Qed.

Lemma singleton_mapThrows (ruleId : string) (c : Then) :
  JS.mapThrows (resolveThenClause ruleId) [c] =
  match resolveThenClause ruleId c with
  | inl e => inl e
  | inr y => inr [y]
  end.
Proof.
  simpl. destruct (resolveThenClause ruleId c); reflexivity.
Qed.

Lemma resolveRule_clauses (ruleId : string) (rule : Rule) :
  resolveRule (ruleId, rule) =
  match JS.mapThrows (resolveThenClause ruleId) (clausesOf rule) with
  | inl e => inl e
  | inr resolvedThen =>
      inr (ruleId,
           mkRule (description rule) (given rule)
                  (match then_ rule with
                   | Some (ThenList _) => Some (ThenList resolvedThen)
                   | Some (ThenSingle _) =>
                       option_map (@ThenSingle _) (hd_error resolvedThen)
                   | None => None
                   end)
                  (rule_severity rule) (tags rule) (enabled rule))
  end.
Proof.
  unfold resolveRule, clausesOf.
  destruct rule as [d g [[c|cs]|] sv tg en]; cbn [then_].
  - destruct (JS.mapThrows (resolveThenClause ruleId) [c]); reflexivity.
  - destruct (JS.mapThrows (resolveThenClause ruleId) cs); reflexivity.
  - reflexivity.
Qed.

(** What a rule throws is the error of one of its clauses. *)
Lemma resolveRule_thrown (ruleId : string) (rule : Rule)
      (e : ConfigLoadError) :
  resolveRule (ruleId, rule) = inl e ->
  exists clause,
    In clause (clausesOf rule) /\ resolveThenClause ruleId clause = inl e.
Proof.
  rewrite resolveRule_clauses.
  destruct (JS.mapThrows (resolveThenClause ruleId) (clausesOf rule))
    as [e'|ys] eqn:Em; [|discriminate].
  intro H. injection H as <-. apply mapThrows_thrown. exact Em.
Qed.

(** A rule with a throwing clause throws. *)
Lemma resolveRule_must_throw (ruleId : string) (rule : Rule) :
  (exists clause e,
      In clause (clausesOf rule) /\
      resolveThenClause ruleId clause = inl e) ->
  exists e, resolveRule (ruleId, rule) = inl e.
Proof.
  intro H. apply mapThrows_inl in H.
  destruct H as [c [e [_ [_ Hm]]]].
  exists e. rewrite resolveRule_clauses, Hm. reflexivity.
Qed.

(** A resolved rule keeps its identifier and the form of its [then]. *)
Lemma resolveRule_shape (ruleId ruleId' : string) (rule rule' : Rule) :
  resolveRule (ruleId, rule) = inr (ruleId', rule') ->
  ruleId' = ruleId /\ sameShape (then_ rule) (then_ rule') /\
  Forall2 (fun c c' => resolveThenClause ruleId c = inr c')
          (clausesOf rule) (clausesOf rule').
Proof.
  rewrite resolveRule_clauses.
  destruct (JS.mapThrows (resolveThenClause ruleId) (clausesOf rule))
    as [e|ys] eqn:Em; [discriminate|].
  intro H. injection H as <- <-.
  apply mapThrows_inr in Em.
  split; [reflexivity|].
  unfold clausesOf in *. cbn [then_].
  destruct (then_ rule) as [[c|cs]|].
  - inversion Em as [|? y ? ys' Hc Hrest]; subst.
    inversion Hrest; subst. cbn. split; [exact I|].
    constructor; [exact Hc|constructor].
  - cbn. split; [|exact Em].
    eapply Forall2_length. exact Em.
  - inversion Em; subst. cbn. split; [exact I|constructor].
Qed.

Lemma lookupFunction_None (name : string) :
  lookupFunction name = None <->
  known name = false /\ JS.includes JS.objectPrototypeKeys name = false.
Proof.
  unfold lookupFunction, known, JS.has.
  destruct (JS.get SPECTRAL_FUNCTION_MAP name).
  - split; [discriminate|]. intros [H _]. discriminate.
  - destruct (JS.includes JS.objectPrototypeKeys name).
    + split; [discriminate|]. intros [_ H]. discriminate.
    + split; auto.
Qed.

Lemma append_assoc (a b c : string) : (a ++ b) ++ c = a ++ b ++ c.
Proof. induction a as [|x a IH]; simpl; [reflexivity|f_equal; exact IH]. Qed.

Lemma append_empty_r (a : string) : a ++ "" = a.
Proof. induction a as [|x a IH]; simpl; [reflexivity|f_equal; exact IH]. Qed.

Lemma unknownFunction_names (name ruleId : string) :
  occursIn name (cle_message (unknownFunction name ruleId)) /\
  occursIn ruleId (cle_message (unknownFunction name ruleId)).
Proof.
  unfold occursIn, unknownFunction. cbn [cle_message]. split.
  - exists "Unknown Spectral function: ", (" in rule " ++ ruleId).
    reflexivity.
  - exists ("Unknown Spectral function: " ++ name ++ " in rule "), "".
    rewrite append_empty_r, !append_assoc. reflexivity.
Qed.

(** A rule set in which some clause names a function that the table
    neither defines nor inherits is not resolved: the load throws the
    error that names such a function and its rule. *)
Lemma resolveRuleFunctions_undefined (ruleset : Ruleset)
      (ruleId name : string) :
  names ruleset ruleId name -> lookupFunction name = None ->
  exists ruleId' name',
    names ruleset ruleId' name' /\ lookupFunction name' = None /\
    resolveRuleFunctions ruleset = inl (unknownFunction name' ruleId') /\
    occursIn name' (cle_message (unknownFunction name' ruleId')) /\
    occursIn ruleId' (cle_message (unknownFunction name' ruleId')).
Proof.
  intros (rule & clause & Hin & Hcl & Hfn) Hlook.
  assert (Hthrow : exists entry e,
             In entry (JS.entries (rules ruleset)) /\
             resolveRule entry = inl e).
  { destruct (@resolveRule_must_throw ruleId rule) as [e He].
    - exists clause, (unknownFunction name ruleId). split; [exact Hcl|].
      apply resolveThenClause_throws. exists name. auto.
    - exists (ruleId, rule), e. auto. }
  apply mapThrows_inl in Hthrow.
  destruct Hthrow as ([id' rule'] & e & Hin' & He & Hm).
  apply resolveRule_thrown in He. destruct He as (clause' & Hcl' & He).
  apply resolveThenClause_throws in He.
  destruct He as (name' & Hfn' & Hlook' & ->).
  exists id', name'. split; [exists rule', clause'; auto|].
  split; [exact Hlook'|]. split.
  - unfold resolveRuleFunctions. rewrite Hm. reflexivity.
  - apply unknownFunction_names.
Qed.

(** The assignments keep, of two lists of rules with the same identifiers,
    the entries at the same places. *)
Lemma assigned_Forall2 (R : string * Rule -> string * Rule -> Prop)
      (l l' : list (string * Rule)) :
  (forall before after, R before after -> fst after = fst before) ->
  Forall2 R l l' -> Forall2 R (assigned l) (assigned l').
Proof.
  intros Hfst H. induction H as [|x y l l' Hxy _ IH]; [constructor|].
  unfold assigned in *. cbn [filter]. rewrite (Hfst x y Hxy).
  destruct (negb (String.eqb (fst x) "__proto__")); [constructor|];
    assumption.
Qed.

(** A rule set that is resolved keeps its rules, in order, each with its
    identifier and the form of its [then]; a rule with the identifier
    [__proto__] is not among them. *)
Lemma resolveRuleFunctions_shape (ruleset resolved : Ruleset) :
  resolveRuleFunctions ruleset = inr resolved ->
  Forall2 (fun before after =>
             fst after = fst before /\
             sameShape (then_ (snd before)) (then_ (snd after)))
          (assigned (rules ruleset)) (rules resolved).
Proof.
  unfold resolveRuleFunctions.
  destruct (JS.mapThrows resolveRule (JS.entries (rules ruleset)))
    as [e|rs] eqn:Em; [discriminate|].
  intro H. injection H as <-. cbn [rules].
  apply mapThrows_inr in Em. unfold JS.entries in Em.
  apply assigned_Forall2; [tauto|].
  induction Em as [|[id rule] [id' rule'] l l' Hr _ IH]; constructor.
  - apply resolveRule_shape in Hr. cbn [fst snd]. tauto.
  - exact IH.
Qed.

(** The load of a rule set with the function doesNotExist in its rule
    com-bogus throws the error that names both. *)
Lemma resolveRuleFunctions_unknown_sample :
  resolveRuleFunctions Samples.unknownNameRuleset =
  inl (mkConfigLoadError
         "Unknown Spectral function: doesNotExist in rule com-bogus"
         "ruleset.yaml").
Proof. reflexivity. Qed.

(** The load of a rule set that names the evaluator truthy binds it. *)
Lemma resolveRuleFunctions_known_sample :
  resolveRuleFunctions Samples.knownNameRuleset =
  inr (mkRuleset None
         [("com-summary",
           mkRule "Operations must have a summary" ["$.paths.*.*"]
                  (Some (ThenSingle
                           (mkThen (FnValue truthy) None (Some "summary"))))
                  warn (Some ["completeness"]) None)]).
Proof. reflexivity. Qed.

(** C8.  The rule set whose rule com-summary has the clause function
    toString names a function that is not an evaluator of the function
    table, and yet its resolution does not throw: the clause is bound to
    the member toString that the table inherits. *)
Theorem resolveRuleFunctions_inherited_name :
  known "toString" = false /\
  names Samples.inheritedNameRuleset "com-summary" "toString" /\
  resolveRuleFunctions Samples.inheritedNameRuleset =
  inr (mkRuleset None
         [("com-summary",
           mkRule "Operations must have a summary" ["$.paths.*.*"]
                  (Some (ThenSingle
                           (mkThen (FnValue (inherited "toString")) None
                                   (Some "summary"))))
                  warn (Some ["completeness"]) None)]).
Proof.
  split; [reflexivity|]. split; [|reflexivity].
  exists (Samples.ruleNaming "toString").
  eexists. split; [left; reflexivity|].
  split; [left; reflexivity|reflexivity].
Qed.

End Resolver.

(* ====================================================================== *)
(** * The properties at sample documents *)
(* ====================================================================== *)

Section Instances.
Import Types Samples.
Local Open Scope string_scope.
Local Open Scope Q_scope.

(** C1 at the finding of the fatal rule sec-https. *)
Lemma calculateScore_fatal_witness :
  ScoreSpec.someFatal readmeScoring (Auditor.convertResults [plainHttp]) /\
  Auditor.calculateScore readmeScoring (Auditor.convertResults [plainHttp])
                         [] = Auditor.mkScore 0 true /\
  finalScore (Auditor.audit readmeScoring knownNameRuleset false [plainHttp])
    = 0.
Proof.
  assert (H : ScoreSpec.someFatal readmeScoring
                                  (Auditor.convertResults [plainHttp])).
  { eexists. eexists. split; [left; reflexivity|].
    split; reflexivity. }
  split; [exact H|].
  destruct (calculateScore_fatal H) as [Hscore Haudit].
  split; [apply Hscore|].
  apply (Haudit _ knownNameRuleset false [plainHttp] eq_refl).
Defined.

(** One completeness violation of 30 points, weight 0.25 and base score
    100: 92.5, reported as 93. *)
Lemma finalScore_weighted_sample :
  ScoreSpec.finalScore readmeScoring knownNameRuleset
                       (Auditor.convertResults [exampleMissing])
    == 925 # 10 /\
  finalScore
    (Auditor.audit readmeScoring knownNameRuleset false [exampleMissing])
    = 93.
Proof. split; reflexivity. Qed.

(** C2.  One finding of severity error whose rule identifier is
    [constructor], under the configuration of the README, which has no
    fatal rule among the findings and no penalty entry for that
    identifier: by the claim the violation costs the default 10 points in
    completeness, the score is 100 - 0.25 * 10 = 97.5 and the report
    shows 98; the program finds the member [constructor] that the
    penalties inherit, adds its [points], which is [undefined], and
    reports NaN as the points of completeness and as the score, with the
    grade F. *)
Theorem addPenalty_inherited_name :
  let vs := Auditor.convertResults [constructorRule] in
  let r := Auditor.audit readmeScoring knownNameRuleset false
                         [constructorRule] in
  ScoreSpec.noFatal readmeScoring vs /\
  JS.get (penalties readmeScoring) "constructor" = None /\
  map ruleId vs = ["constructor"] /\ map severity vs = [error] /\
  map (ScoreSpec.violationPoints readmeScoring) vs = [10] /\
  ScoreSpec.finalScore readmeScoring knownNameRuleset vs == 975 # 10 /\
  JS.Math_round (ScoreSpec.finalScore readmeScoring knownNameRuleset vs)
    = 98 /\
  map pointsDeducted (categoryBreakdown r) =
    [JS.Num 0; JS.NaN; JS.Num 0; JS.Num 0] /\
  finalScore r = JS.NaN /\ grade r = "F" /\ passed r = false.
Proof.
  intros vs r. split.
  { intros v p [<-|[]] Hp. vm_compute in Hp. discriminate. }
  repeat split.
Qed.




(** C5 at the scores 95 and 85 on the scale of the README. *)
Lemma calculateGrade_monotone_witness :
  85 < 95 /\
  exists r1 r2 : nat,
    Cli.gradeOrder
      (Auditor.calculateGrade 95 (grading_scale readmeScoring)) = Some r1 /\
    Cli.gradeOrder
      (Auditor.calculateGrade 85 (grading_scale readmeScoring)) = Some r2 /\
    (r2 <= r1)%nat.
Proof.
  assert (H : 85 < 95) by reflexivity.
  split; [exact H|].
  exact (calculateGrade_monotone (grading_scale readmeScoring) H).
Defined.

(** C4 at subtrees of six keys, four camelCase and two snake_case (one
    finding) and five camelCase and one snake_case (none), and at a
    subtree of five keys of mixed styles (none). *)
Lemma consistentCasing_decision_witness :
  (exists finding,
      ConsistentCasing.consistentCasing fourToTwo = [finding] /\
      ConsistentCasing.found_camelCase finding = 4%nat /\
      ConsistentCasing.found_snakeCase finding = 2%nat) /\
  ConsistentCasing.consistentCasing fiveToOne = [] /\
  ConsistentCasing.consistentCasing fiveMixed = [].
Proof.
  split; [|split].
  - destruct (consistentCasing_decision fourToTwo)
      as (_ & _ & Hone & _).
    destruct Hone as (finding & Hf & Hc & Hs & _).
    + vm_compute. lia.
    + vm_compute. discriminate.
    + reflexivity.
    + exists finding. split; [exact Hf|]. split; [exact Hc|exact Hs].
  - destruct (consistentCasing_decision fiveToOne)
      as (_ & _ & _ & _ & Hnone & _).
    apply Hnone. reflexivity.
  - destruct (consistentCasing_decision fiveMixed) as (Hsmall & _).
    apply Hsmall. vm_compute. lia.
Defined.

(** C7: the key user_Name has an underscore and a prefix, user, that
    matches the snake_case pattern as the claim writes it, without an
    anchor at the end; the program matches the whole key, finds neither
    style and counts the key in the total only. *)
Lemma snake_case_pattern_is_anchored :
  CasingSpec.isSnakeCaseUnanchored "user_Name" = true /\
  ConsistentCasing.isSnakeCase "user_Name" = false /\
  ConsistentCasing.isCamelCase "user_Name" = false /\
  ConsistentCasing.countCasingStyles
    (ConsistentCasing.JObject
       [("user_Name", ConsistentCasing.JString "Ada")])
    (ConsistentCasing.mkStats 0 0 0) =
  ConsistentCasing.mkStats 0 0 1.
Proof. repeat split. Qed.

(** C7 at the subtree with four camelCase and two snake_case keys, each
    with an ignored [type] member, under an ignored [properties] key. *)
Lemma countCasingStyles_buckets_witness :
  ConsistentCasing.countCasingStyles fourToTwo
                                     (ConsistentCasing.mkStats 0 0 0) =
  ConsistentCasing.mkStats 4 2 6 /\
  (ConsistentCasing.camelCase
     (ConsistentCasing.countCasingStyles
        fourToTwo (ConsistentCasing.mkStats 0 0 0)) +
   ConsistentCasing.snakeCase
     (ConsistentCasing.countCasingStyles
        fourToTwo (ConsistentCasing.mkStats 0 0 0)) <=
   ConsistentCasing.total
     (ConsistentCasing.countCasingStyles
        fourToTwo (ConsistentCasing.mkStats 0 0 0)))%nat.
Proof.
  split; [reflexivity|].
  destruct (countCasingStyles_buckets fourToTwo
                                      (ConsistentCasing.mkStats 0 0 0))
    as (_ & _ & _ & _ & _ & _ & Hle & _).
  apply Hle. vm_compute. lia.
Defined.

(** C10 at an error, a warning and a hint. *)
Lemma audit_summary_counts_witness :
  let r := Auditor.audit readmeScoring knownNameRuleset false
                         [plainHttp; exampleMissing; untagged] in
  (exists v, In v (violations r) /\ severity v = hint) /\
  totalViolations (summary r) = 3%nat /\
  (errorCount (summary r) + warningCount (summary r) +
   infoCount (summary r) < totalViolations (summary r))%nat.
Proof.
  intro r.
  assert (H : exists v, In v (violations r) /\ severity v = hint).
  { eexists. split; [right; right; left; reflexivity|reflexivity]. }
  split; [exact H|]. split; [reflexivity|].
  destruct (audit_summary_counts readmeScoring knownNameRuleset false
                                 [plainHttp; exampleMissing; untagged])
    as (_ & _ & _ & _ & _ & _ & Hlt).
  exact (Hlt H).
Defined.

End Instances.

(* ====================================================================== *)
(** * Further properties of the code *)
(* ====================================================================== *)

(** ** Rule resolver: what a successful resolution returns *)

Section ResolverBinding.
Import Types Loader ResolverSpec ResolutionSpec.
Local Open Scope string_scope.
Local Open Scope list_scope.

Lemma resolveThenClause_inr (ruleId : string) (c c' : Then) :
  resolveThenClause ruleId c = inr c' ->
  clauseBound c c' /\ forall name, function c' <> FnName name.
Proof.
  unfold resolveThenClause, clauseBound.
  destruct c as [[name|f|] opts fld]; cbn.
  - destruct (lookupFunction name) as [func|] eqn:E; [|discriminate].
    intro H. injection H as <-. cbn.
    repeat split; eauto; try discriminate.
    + intros n Hn. injection Hn as <-. eauto.
    + intro Hno. exfalso. exact (Hno name eq_refl).
  - intro H. injection H as <-. cbn.
    repeat split; eauto; discriminate.
  - intro H. injection H as <-. cbn.
    repeat split; eauto; discriminate.
Qed.

Lemma resolveThenClause_bound (ruleId : string) (c : Then) :
  (forall name, function c <> FnName name) ->
  resolveThenClause ruleId c = inr c.
Proof.
  intro Hno. unfold resolveThenClause.
  destruct (function c) as [name|f|] eqn:E; [|reflexivity|reflexivity].
  exfalso. exact (Hno name eq_refl).
Qed.

Lemma mapThrows_id {E X : Type} (f : X -> JS.Throws E X) (l : list X) :
  Forall (fun x => f x = inr x) l -> JS.mapThrows f l = inr l.
Proof.
  induction 1 as [|x l Hx _ IH]; simpl; [reflexivity|].
  rewrite Hx, IH. reflexivity.
Qed.

Lemma resolveRule_bound (ruleId : string) (rule : Rule) :
  bound rule -> resolveRule (ruleId, rule) = inr (ruleId, rule).
Proof.
  intro Hb. rewrite resolveRule_clauses.
  rewrite (@mapThrows_id _ _ (resolveThenClause ruleId) (clausesOf rule)).
  - unfold clausesOf. destruct rule as [d g [[c|cs]|] sv tg en]; reflexivity.
  - eapply Forall_impl; [|exact Hb].
    intros c Hc. apply resolveThenClause_bound. exact Hc.
Qed.

Lemma resolveRule_binds (before after : string * Rule) :
  resolveRule before = inr after -> ruleBound before after.
Proof.
  destruct before as [ruleId rule], after as [ruleId' rule'].
  intro H. pose proof (resolveRule_shape _ _ H) as (Hid & Hshape & Hcl).
  assert (Hb : Forall2 clauseBound (clausesOf rule) (clausesOf rule') /\
               bound rule').
  { unfold bound. clear H Hshape.
    induction Hcl as [|c c' cs cs' Hc _ IH].
    - split; constructor.
    - apply resolveThenClause_inr in Hc. destruct IH as [IH1 IH2].
      split; constructor; tauto. }
  rewrite resolveRule_clauses in H.
  destruct (JS.mapThrows (resolveThenClause ruleId) (clausesOf rule));
    [discriminate|].
  injection H as _ <-. unfold ruleBound. cbn.
  cbn in Hshape, Hb. repeat split; try reflexivity; tauto.
Qed.

Lemma ruleBound_fst (before after : string * Rule) :
  ruleBound before after -> fst after = fst before.
Proof. unfold ruleBound. tauto. Qed.

Lemma assigned_idempotent (l : list (string * Rule)) :
  assigned (assigned l) = assigned l.
Proof.
  unfold assigned. induction l as [|x l IH]; [reflexivity|].
  cbn [filter].
  destruct (negb (String.eqb (fst x) "__proto__")) eqn:E; [|exact IH].
  cbn [filter]. rewrite E, IH. reflexivity.
Qed.

Lemma assigned_all (l : list (string * Rule)) :
  ~ In "__proto__" (map fst l) -> assigned l = l.
Proof.
  unfold assigned. induction l as [|x l IH]; intro Hn; [reflexivity|].
  cbn [filter map In] in *.
  destruct (String.eqb (fst x) "__proto__") eqn:E.
  - apply String.eqb_eq in E. tauto.
  - cbn [negb]. rewrite IH by tauto. reflexivity.
Qed.

Lemma assigned_no_proto (l : list (string * Rule)) :
  ~ In "__proto__" (map fst (assigned l)).
Proof.
  unfold assigned. induction l as [|x l IH]; [intros []|].
  cbn [filter].
  destruct (String.eqb (fst x) "__proto__") eqn:E; cbn [negb]; [exact IH|].
  cbn [map In]. intros [H|H]; [|exact (IH H)].
  rewrite H, String.eqb_refl in E. discriminate.
Qed.

(** The rules that a successful resolution returns are the rules that
    the loop resolved, as the assignments keep them. *)
Lemma resolveRuleFunctions_rules (ruleset resolved : Ruleset) :
  resolveRuleFunctions ruleset = inr resolved ->
  exists resolvedRules,
    Forall2 ruleBound (rules ruleset) resolvedRules /\
    resolved = mkRuleset (extends ruleset) (assigned resolvedRules).
Proof.
  unfold resolveRuleFunctions.
  destruct (JS.mapThrows resolveRule (JS.entries (rules ruleset)))
    as [e|rs] eqn:Em; [discriminate|].
  intro H. injection H as <-. exists rs. split; [|reflexivity].
  apply mapThrows_inr in Em. unfold JS.entries in Em.
  induction Em as [|b a l l' Hr _ IH]; constructor;
    [apply resolveRule_binds; exact Hr|exact IH].
Qed.

Lemma resolved_bound (l l' : list (string * Rule)) :
  Forall2 ruleBound l l' ->
  Forall (fun entry => bound (snd entry)) (assigned l').
Proof.
  intro H. unfold assigned. apply Forall_forall. intros entry Hin.
  apply filter_In in Hin. destruct Hin as [Hin _].
  induction H as [|b a l l' Hba _ IH]; [contradiction|].
  destruct Hin as [<-|Hin]; [|exact (IH Hin)].
  unfold ruleBound in Hba. tauto.
Qed.

(** X1.  When the resolution of a rule set returns, the result has the
    rules of the source in the same order, each with its identifier,
    description, selectors, severity, tags and enabled flag unchanged and
    with [then] in its original form; every clause keeps its options and
    field, a named function is replaced by the value that the function
    table gives for the name, a clause without a name stays as it is, and
    no clause of the result is left with a name.  The one rule that does
    not come through is a rule with the identifier [__proto__]: the
    result has no such rule, and it has every rule of a source without
    one. *)
Theorem resolveRuleFunctions_binds (ruleset resolved : Ruleset) :
  resolveRuleFunctions ruleset = inr resolved ->
  extends resolved = extends ruleset /\
  Forall2 ruleBound (assigned (rules ruleset)) (rules resolved) /\
  Forall (fun entry => bound (snd entry)) (rules resolved) /\
  ~ In "__proto__" (map fst (rules resolved)) /\
  (~ In "__proto__" (map fst (rules ruleset)) ->
   List.length (rules resolved) = List.length (rules ruleset) /\
   Forall2 ruleBound (rules ruleset) (rules resolved)).
Proof.
  intro H. apply resolveRuleFunctions_rules in H.
  destruct H as [rs [Hr ->]]. cbn [extends rules].
  assert (Ha : Forall2 ruleBound (assigned (rules ruleset)) (assigned rs)).
  { apply assigned_Forall2; [exact ruleBound_fst|exact Hr]. }
  split; [reflexivity|]. split; [exact Ha|].
  split; [exact (resolved_bound Hr)|].
  split; [apply assigned_no_proto|].
  intro Hn. rewrite (assigned_all _ Hn) in Ha.
  split; [symmetry; eapply Forall2_length|]; exact Ha.
Qed.

(** X2.  Resolution is idempotent: resolving a rule set that resolution
    returned gives it back unchanged. *)
Theorem resolveRuleFunctions_idempotent (ruleset resolved : Ruleset) :
  resolveRuleFunctions ruleset = inr resolved ->
  resolveRuleFunctions resolved = inr resolved.
Proof.
  intro H. apply resolveRuleFunctions_rules in H.
  destruct H as [rs [Hr ->]].
  unfold resolveRuleFunctions, JS.entries. cbn [rules extends].
  rewrite (@mapThrows_id _ _ resolveRule (assigned rs)).
  - rewrite assigned_idempotent. reflexivity.
  - eapply Forall_impl; [|exact (resolved_bound Hr)].
    intros [id rule] Hb. apply resolveRule_bound. exact Hb.
Qed.

Lemma mapThrows_first {E X Y : Type} (f : X -> JS.Throws E Y)
      (before rest : list X) (x : X) (e : E) :
  Forall (fun b => exists y, f b = inr y) before -> f x = inl e ->
  JS.mapThrows f (before ++ x :: rest) = inl e.
Proof.
  intros Hb Hx. induction Hb as [|b before [y Hy] _ IH]; simpl.
  - rewrite Hx. reflexivity.
  - rewrite Hy, IH. reflexivity.
Qed.

Lemma resolvable_returns (ruleId : string) (cs : list Then) :
  Forall resolvable cs ->
  Forall (fun c => exists c', resolveThenClause ruleId c = inr c') cs.
Proof.
  intro H. eapply Forall_impl; [|exact H].
  intros c Hc. unfold resolveThenClause, resolvable in *.
  destruct (function c) as [name|f|]; [|eauto|eauto].
  destruct (lookupFunction name) eqn:E; [eauto|].
  exfalso. exact (Hc name eq_refl E).
Qed.

(** X3.  The error of a failed resolution is decided by the order in
    which [Object.entries] lists the rules, which is the order of
    [rules ruleset] (integer-like identifiers first, then the others as
    the document wrote them), and by the order of the clauses: when every
    clause of the rules listed before [ruleId], and every clause of
    [ruleId] before [clause], is resolvable and [clause] names a function
    for which the table has no value, the load throws the error that
    names that function and that rule, whatever comes after. *)
Theorem resolveRuleFunctions_first_undefined
        (ruleset : Ruleset) (before rest : list (string * Rule))
        (ruleId : string) (rule : Rule)
        (earlier later : list Then) (clause : Then) (name : string) :
  rules ruleset = before ++ (ruleId, rule) :: rest ->
  Forall (fun entry => Forall resolvable (clausesOf (snd entry))) before ->
  clausesOf rule = earlier ++ clause :: later ->
  Forall resolvable earlier ->
  function clause = FnName name -> lookupFunction name = None ->
  resolveRuleFunctions ruleset = inl (unknownFunction name ruleId).
Proof.
  intros Hrules Hbefore Hclauses Hearlier Hfn Hlook.
  assert (Hrule : resolveRule (ruleId, rule) =
                  inl (unknownFunction name ruleId)).
  { rewrite resolveRule_clauses, Hclauses.
    rewrite (@mapThrows_first _ _ _ (resolveThenClause ruleId) earlier later
                              clause (unknownFunction name ruleId)).
    - reflexivity.
    - apply resolvable_returns. exact Hearlier.
    - apply resolveThenClause_throws. exists name. auto. }
  unfold resolveRuleFunctions, JS.entries. rewrite Hrules.
  rewrite (@mapThrows_first _ _ _ resolveRule before rest (ruleId, rule)
                            (unknownFunction name ruleId)).
  - reflexivity.
  - eapply Forall_impl; [|exact Hbefore].
    intros [id r] Hr. cbn [snd] in Hr.
    rewrite resolveRule_clauses.
    destruct (JS.mapThrows (resolveThenClause id) (clausesOf r))
      as [e|ys] eqn:Em; [|eauto].
    exfalso. apply mapThrows_thrown in Em. destruct Em as [c [Hin Hc]].
    apply (resolvable_returns id) in Hr.
    rewrite Forall_forall in Hr. destruct (Hr c Hin) as [c' Hc'].
    congruence.
  - exact Hrule.
Qed.

End ResolverBinding.

(** ** Configuration validator: outcomes and error lists *)

Section ValidatorErrors.
Import Types Loader ValidatorSpec.
Local Open Scope Q_scope.

(** X7.  No check of the scoring validator hides another: whenever it
    fails, its errors are those of the base score (reported when it is
    not a number, or is a number below 0 or above 100; NaN is a number
    that is neither), of the weights, of the penalties and of the grading
    scale, all of them. *)
Theorem validateScoringConfig_reports_all (cfg : RawScoringConfig)
        (errors : list ValidationError) :
  validateScoringConfig (Some cfg) = Failure errors ->
  forall e,
    In e errors <->
    (e = BadBaseScore /\
     forall b, raw_base_score cfg = Some b ->
               exists q : Q, b = JS.Num q /\ (q < 0 \/ 100 < q)) \/
    (e = WeightsNotObject /\ raw_weights cfg = None) \/
    (exists w, raw_weights cfg = Some w /\ In e (validateWeights w)) \/
    (e = PenaltiesNotObject /\ raw_penalties cfg = None) \/
    (e = ScaleNotObject /\ raw_grading_scale cfg = None) \/
    (exists s, raw_grading_scale cfg = Some s /\
               In e (validateGradingScale s)).
Proof.
  rewrite validateScoringConfig_eq.
  destruct (allErrors cfg) as [|e0 es] eqn:E; [discriminate|].
  intro H. injection H as <-. rewrite <- E. clear E e0 es.
  intro e. unfold allErrors. rewrite !in_app_iff.
  assert (Hb : In e (baseErrors cfg) <->
               e = BadBaseScore /\
               forall b, raw_base_score cfg = Some b ->
                         exists q : Q, b = JS.Num q /\ (q < 0 \/ 100 < q)).
  { unfold baseErrors. destruct (raw_base_score cfg) as [[|b]|].
    - cbn. split; [contradiction|]. intros [_ Hx].
      destruct (Hx JS.NaN eq_refl) as [q [Hq _]]. discriminate.
    - cbn [JS.ltbN JS.gtbN].
      destruct (JS.ltb b 0) eqn:Elo; [|destruct (JS.gtb b 100) eqn:Ehi];
        cbn [orb]; simpl.
      + apply ltb_true in Elo. split.
        * intros [<-|[]]. split; [reflexivity|].
          intros b' Hb'. injection Hb' as <-. eauto.
        * intros [-> _]. auto.
      + apply gtb_true in Ehi. split.
        * intros [<-|[]]. split; [reflexivity|].
          intros b' Hb'. injection Hb' as <-. eauto.
        * intros [-> _]. auto.
      + apply ltb_false in Elo. apply gtb_false in Ehi.
        split; [contradiction|]. intros [_ Hx].
        destruct (Hx (JS.Num b) eq_refl) as [q [Hq [Hl|Hh]]];
          injection Hq as <-.
        * exact (Qlt_not_le _ _ Hl Elo).
        * exact (Qlt_not_le _ _ Hh Ehi).
    - simpl. split.
      + intros [<-|[]]. split; [reflexivity|]. discriminate.
      + intros [-> _]. auto. }
  assert (Hw : In e (weightsErrors cfg) <->
               (e = WeightsNotObject /\ raw_weights cfg = None) \/
               (exists w, raw_weights cfg = Some w /\
                          In e (validateWeights w))).
  { unfold weightsErrors. destruct (raw_weights cfg) as [w|].
    - split; [eauto|]. intros [[_ H]|[w' [H Hin]]]; [discriminate|].
      injection H as <-. exact Hin.
    - simpl. split.
      + intros [<-|[]]. auto.
      + intros [[-> _]|[w [H _]]]; [auto|discriminate]. }
  assert (Hp : In e (penaltiesErrors cfg) <->
               e = PenaltiesNotObject /\ raw_penalties cfg = None).
  { unfold penaltiesErrors. destruct (raw_penalties cfg); simpl.
    - split; [contradiction|]. intros [_ H]. discriminate.
    - split; [intros [<-|[]]; auto|intros [-> _]; auto]. }
  assert (Hs : In e (scaleErrors cfg) <->
               (e = ScaleNotObject /\ raw_grading_scale cfg = None) \/
               (exists s, raw_grading_scale cfg = Some s /\
                          In e (validateGradingScale s))).
  { unfold scaleErrors. destruct (raw_grading_scale cfg) as [s|].
    - split; [eauto|]. intros [[_ H]|[s' [H Hin]]]; [discriminate|].
      injection H as <-. exact Hin.
    - simpl. split.
      + intros [<-|[]]. auto.
      + intros [[-> _]|[s [H _]]]; [auto|discriminate]. }
  rewrite Hb, Hw, Hp, Hs. tauto.
Qed.

End ValidatorErrors.

(** ** Rule-set validator *)

Section RulesetValidator.
Import Types Loader RulesetLoader RulesetSpec.
Local Open Scope string_scope.
Local Open Scope list_scope.

Lemma checkRule_appends (errors : list RulesetError)
      (entry : string * RawRule) :
  checkRule errors entry = errors ++ ruleErrors entry.
Proof.
  unfold checkRule, ruleErrors. destruct entry as [id [|r]]; cbn [fst snd].
  - reflexivity.
  - destruct (raw_description r), (severityIncluded (raw_severity r));
      cbn [negb app]; rewrite ?app_nil_r, <- ?app_assoc; reflexivity.
Qed.

Lemma validateRuleset_eq (ruleset : RawRuleset) :
  validateRuleset (Some ruleset) =
  match rulesetErrors ruleset with
  | [] => RulesetSuccess ruleset
  | _ :: _ => RulesetFailure (rulesetErrors ruleset)
  end.
Proof.
  unfold validateRuleset, rulesetErrors.
  destruct (raw_rules ruleset) as [rules|]; [|reflexivity].
  rewrite (fold_left_appending checkRule ruleErrors (JS.entries rules)
                               checkRule_appends).
  reflexivity.
Qed.

Lemma ruleErrors_nil (entry : string * RawRule) :
  ruleErrors entry = [] <-> wellFormed (snd entry).
Proof.
  unfold ruleErrors, wellFormed. destruct entry as [id [|r]]; cbn [fst snd].
  - split; [discriminate|]. intros (b & d & H & _). discriminate.
  - destruct (raw_description r) as [d|] eqn:Ed;
      destruct (severityIncluded (raw_severity r)) eqn:Es; cbn [app].
    + split; [|reflexivity]. intros _. exists r, d. auto.
    + split; [discriminate|]. intros (b & d' & H & _ & Hs).
      injection H as <-. congruence.
    + split; [discriminate|]. intros (b & d' & H & Hd & _).
      injection H as <-. congruence.
    + split; [discriminate|]. intros (b & d' & H & Hd & _).
      injection H as <-. congruence.
Qed.

(** X8.  The rule-set validator accepts a document exactly when [extends]
    is absent or an array, [rules] is an object, and every rule is an
    object with a string description and a severity among error, warn,
    info, hint; nothing else about a rule is looked at. *)
Theorem validateRuleset_accepts (ruleset : RawRuleset) :
  validateRuleset (Some ruleset) = RulesetSuccess ruleset <->
  raw_extends ruleset <> ExtendsOther /\
  exists rules,
    raw_rules ruleset = Some rules /\
    Forall (fun entry => wellFormed (snd entry)) rules.
Proof.
  rewrite validateRuleset_eq.
  assert (Hacc : match rulesetErrors ruleset with
                 | [] => RulesetSuccess ruleset
                 | _ :: _ => RulesetFailure (rulesetErrors ruleset)
                 end = RulesetSuccess ruleset <->
                 rulesetErrors ruleset = []).
  { destruct (rulesetErrors ruleset); split; congruence. }
  rewrite Hacc. unfold rulesetErrors. split.
  - intro H. apply app_eq_nil in H. destruct H as [He Hr].
    split; [intro Hx; rewrite Hx in He; discriminate|].
    destruct (raw_rules ruleset) as [rules|]; [|discriminate].
    exists rules. split; [reflexivity|].
    apply Forall_forall. intros entry Hin. apply ruleErrors_nil.
    apply (proj1 (flat_map_nil _ _) Hr entry Hin).
  - intros [He (rules & -> & Hw)].
    destruct (raw_extends ruleset); [| |contradiction]; cbn [app];
      apply flat_map_nil; intros entry Hin; apply ruleErrors_nil;
      rewrite Forall_forall in Hw; auto.
Qed.

(** X9.  The rule-set validator reports every malformed rule by its
    identifier, in one pass: its errors are exactly the error for
    [extends], the error for [rules], and, for each rule, the error that it
    is not an object, or the errors that its description is not a string
    and that its severity is not of the enumeration, both when both hold.
    A failure always carries at least one error. *)
Theorem validateRuleset_errors (ruleset : RawRuleset)
        (errors : list RulesetError) :
  validateRuleset (Some ruleset) = RulesetFailure errors ->
  errors <> [] /\
  forall e,
    In e errors <->
    (e = ExtendsNotArray /\ raw_extends ruleset = ExtendsOther) \/
    (e = RulesNotObject /\ raw_rules ruleset = None) \/
    (exists rules ruleId,
        raw_rules ruleset = Some rules /\
        In (ruleId, RuleNotObject) rules /\ e = RuleMustBeObject ruleId) \/
    (exists rules ruleId body,
        raw_rules ruleset = Some rules /\
        In (ruleId, RuleObject body) rules /\
        raw_description body = None /\ e = MissingDescription ruleId) \/
    (exists rules ruleId body,
        raw_rules ruleset = Some rules /\
        In (ruleId, RuleObject body) rules /\
        severityIncluded (raw_severity body) = false /\
        e = InvalidSeverity ruleId (raw_severity body)).
Proof.
  rewrite validateRuleset_eq.
  destruct (rulesetErrors ruleset) as [|e0 es] eqn:E; [discriminate|].
  intro H. injection H as <-. split; [discriminate|].
  rewrite <- E. clear E e0 es. intro e.
  unfold rulesetErrors. rewrite in_app_iff.
  assert (Hx : In e match raw_extends ruleset with
                    | ExtendsOther => [ExtendsNotArray]
                    | _ => []
                    end <->
               e = ExtendsNotArray /\ raw_extends ruleset = ExtendsOther).
  { destruct (raw_extends ruleset); simpl.
    - split; [contradiction|]. intros [_ H]. discriminate.
    - split; [contradiction|]. intros [_ H]. discriminate.
    - split; [intros [<-|[]]; auto|intros [-> _]; auto]. }
  rewrite Hx. apply or_iff_compat_l.
  destruct (raw_rules ruleset) as [rules|].
  - rewrite in_flat_map. split.
    + intros [[id rule] [Hin He]]. right. unfold ruleErrors in He.
      cbn [fst snd] in He. destruct rule as [|r].
      * destruct He as [<-|[]]. left. exists rules, id. auto.
      * right. apply in_app_iff in He. destruct He as [He|He].
        -- destruct (raw_description r) eqn:Ed; simpl in He;
             [contradiction|]. destruct He as [<-|[]].
           left. exists rules, id, r. auto.
        -- destruct (severityIncluded (raw_severity r)) eqn:Es; simpl in He;
             [contradiction|]. destruct He as [<-|[]].
           right. exists rules, id, r. auto.
    + intros [[_ H]|[H|[H|H]]]; [discriminate| | |].
      * destruct H as (rules' & id & Hr & Hin & ->). injection Hr as <-.
        exists (id, RuleNotObject). split; [exact Hin|]. left. reflexivity.
      * destruct H as (rules' & id & r & Hr & Hin & Hd & ->).
        injection Hr as <-.
        exists (id, RuleObject r). split; [exact Hin|].
        unfold ruleErrors. cbn [fst snd]. rewrite Hd.
        apply in_app_iff. left. left. reflexivity.
      * destruct H as (rules' & id & r & Hr & Hin & Hs & ->).
        injection Hr as <-.
        exists (id, RuleObject r). split; [exact Hin|].
        unfold ruleErrors. cbn [fst snd]. rewrite Hs.
        apply in_app_iff. right. left. reflexivity.
  - simpl. split.
    + intros [<-|[]]. auto.
    + intros [[-> _]|[H|[H|H]]]; [auto| | |];
        [destruct H as (r & i & H & _)|destruct H as (r & i & b & H & _)
         |destruct H as (r & i & b & H & _)]; discriminate.
Qed.

End RulesetValidator.

(** ** The configuration loader and its cache *)

Section LoaderCache.
Import Types Loader RulesetLoader ResolverSpec ResolutionSpec LoaderSpec.
Local Open Scope string_scope.

Lemma loadScoringConfig_inr (disk : Disk) (this this1 : ConfigLoader)
      (scoring : RawScoringConfig) :
  loadScoringConfig disk this = (inr scoring, this1) ->
  _scoringConfig this1 = Some scoring /\
  _rulesetConfig this1 = _rulesetConfig this /\
  configDir this1 = configDir this /\
  (_scoringConfig this = None ->
   scoringFile disk = Parsed (Some scoring) /\
   ValidatorSpec.accepted scoring).
Proof.
  unfold loadScoringConfig.
  destruct (_scoringConfig this) as [cached|] eqn:Ec.
  - intro H. injection H as <- <-. repeat split; auto; congruence.
  - destruct (scoringFile disk) as [|msg|doc] eqn:Ef; cbn [loadYamlFile];
      try discriminate.
    destruct (validateScoringConfig doc) as [data|errors] eqn:Ev;
      [|discriminate].
    intro H. injection H as <- <-. cbn.
    destruct doc as [cfg|]; [|discriminate].
    assert (Hacc : ValidatorSpec.accepted cfg /\ data = cfg).
    { unfold ValidatorSpec.accepted.
      rewrite validateScoringConfig_eq in Ev |- *.
      destruct (ValidatorSpec.allErrors cfg); [|discriminate].
      injection Ev as <-. auto. }
    destruct Hacc as [Hacc ->]. auto.
Qed.

Lemma loadScoringConfig_inl (disk : Disk) (this this1 : ConfigLoader)
      (e : LoadError) :
  loadScoringConfig disk this = (inl e, this1) -> this1 = this.
Proof.
  unfold loadScoringConfig.
  destruct (_scoringConfig this); [discriminate|].
  destruct (loadYamlFile _ (scoringFile disk)) as [e'|doc].
  - intro H. injection H as _ <-. reflexivity.
  - destruct (validateScoringConfig doc); [discriminate|].
    intro H. injection H as _ <-. reflexivity.
Qed.

Lemma loadRulesetConfig_inr (disk : Disk) (this this1 : ConfigLoader)
      (ruleset : Ruleset) :
  loadRulesetConfig disk this = (inr ruleset, this1) ->
  _rulesetConfig this1 = Some ruleset /\
  _scoringConfig this1 = _scoringConfig this /\
  configDir this1 = configDir this /\
  (_rulesetConfig this = None ->
   exists raw typed,
     rulesetFile disk = Parsed (Some raw) /\
     validateRuleset (Some raw) = RulesetSuccess raw /\
     asRuleset raw = Some typed /\
     resolveRuleFunctions typed = inr ruleset).
Proof.
  unfold loadRulesetConfig.
  destruct (_rulesetConfig this) as [cached|] eqn:Ec.
  - intro H. injection H as <- <-. repeat split; auto; congruence.
  - destruct (rulesetFile disk) as [|msg|doc] eqn:Ef; cbn [loadYamlFile];
      try discriminate.
    destruct (validateRuleset doc) as [data|errors] eqn:Ev; [|discriminate].
    destruct (asRuleset data) as [typed|] eqn:Ea; [|discriminate].
    destruct (resolveRuleFunctions typed) as [e|resolved] eqn:Er;
      [discriminate|].
    intro H. injection H as <- <-. cbn. repeat split.
    intros _. destruct doc as [raw|]; [|discriminate].
    assert (data = raw) as ->.
    { rewrite validateRuleset_eq in Ev.
      destruct (RulesetSpec.rulesetErrors raw); [|discriminate].
      injection Ev as <-. reflexivity. }
    exists raw, typed. auto.
Qed.

Lemma loadRulesetConfig_inl (disk : Disk) (this this1 : ConfigLoader)
      (e : LoadError) :
  loadRulesetConfig disk this = (inl e, this1) -> this1 = this.
Proof.
  unfold loadRulesetConfig.
  destruct (_rulesetConfig this); [discriminate|].
  destruct (loadYamlFile _ (rulesetFile disk)) as [e'|doc];
    [intro H; injection H as _ <-; reflexivity|].
  destruct (validateRuleset doc) as [data|errors];
    [|intro H; injection H as _ <-; reflexivity].
  destruct (asRuleset data) as [typed|];
    [|intro H; injection H as _ <-; reflexivity].
  destruct (resolveRuleFunctions typed); [|discriminate].
  intro H. injection H as _ <-. reflexivity.
Qed.

(** X10.  Once [loadAll] has returned, every later [loadAll] on that
    loader returns the same pair and leaves the loader as it is, whatever
    has become of the files since: the cache is never checked against the
    disk. *)
Theorem loadAll_cached (disk : Disk) (this this1 : ConfigLoader)
        (scoring : RawScoringConfig) (ruleset : Ruleset) :
  loadAll disk this = (inr (scoring, ruleset), this1) ->
  forall later : Disk,
    loadAll later this1 = (inr (scoring, ruleset), this1).
Proof.
  unfold loadAll.
  destruct (loadScoringConfig disk this) as [[e|s] thisA] eqn:Es;
    [discriminate|].
  destruct (loadRulesetConfig disk thisA) as [[e|r] thisB] eqn:Er;
    [discriminate|].
  intro H. injection H as <- <- <-. intro later.
  apply loadScoringConfig_inr in Es. destruct Es as (Hs & _ & _ & _).
  apply loadRulesetConfig_inr in Er. destruct Er as (Hr & Hs' & _ & _).
  rewrite Hs in Hs'.
  unfold loadScoringConfig, loadRulesetConfig. rewrite Hs', Hr. reflexivity.
Qed.

(** X11.  A failed [loadAll] never caches a rule set.  Either it leaves
    the loader as it was, or the failure came from the rule set after the
    scoring document had been loaded, and then the scoring document stays
    cached. *)
Theorem loadAll_failure (disk : Disk) (this this1 : ConfigLoader)
        (e : LoadError) :
  loadAll disk this = (inl e, this1) ->
  _rulesetConfig this1 = _rulesetConfig this /\
  (this1 = this \/
   exists scoring,
     loadScoringConfig disk this = (inr scoring, this1) /\
     loadRulesetConfig disk this1 = (inl e, this1)).
Proof.
  unfold loadAll.
  destruct (loadScoringConfig disk this) as [[e1|s] thisA] eqn:Es.
  - intro H. injection H as <- <-.
    apply loadScoringConfig_inl in Es. subst thisA. auto.
  - destruct (loadRulesetConfig disk thisA) as [[e2|r] thisB] eqn:Er;
      [|discriminate].
    intro H. injection H as <- <-.
    pose proof (loadRulesetConfig_inl _ _ Er) as ->.
    pose proof (loadScoringConfig_inr _ _ Es) as (_ & Hr & _).
    split; [exact Hr|]. right. exists s. auto.
Qed.

Lemma perform_consistent (this : ConfigLoader) (call : Call) :
  Consistent this ->
  Consistent (perform this call) /\
  configDir (perform this call) = configDir this.
Proof.
  intros [Hs Hr].
  assert (Hscoring : forall disk,
             Consistent (snd (loadScoringConfig disk this)) /\
             configDir (snd (loadScoringConfig disk this)) = configDir this).
  { intro disk.
    destruct (loadScoringConfig disk this) as [[e|s] this1] eqn:E; cbn [snd].
    - apply loadScoringConfig_inl in E. subst. split; [split|]; auto.
    - pose proof (loadScoringConfig_inr _ _ E) as (H1 & H2 & H3 & H4).
      split; [split|exact H3].
      + intros c Hc. rewrite H1 in Hc. injection Hc as <-.
        destruct (_scoringConfig this) as [c0|] eqn:E0.
        * unfold loadScoringConfig in E. rewrite E0 in E.
          injection E as <- _. auto.
        * apply H4. reflexivity.
      + intros r Hr'. rewrite H2 in Hr'. auto. }
  assert (Hruleset : forall disk that,
             Consistent that ->
             Consistent (snd (loadRulesetConfig disk that)) /\
             configDir (snd (loadRulesetConfig disk that)) = configDir that).
  { intros disk that [Hs' Hr'].
    destruct (loadRulesetConfig disk that) as [[e|r] this1] eqn:E; cbn [snd].
    - apply loadRulesetConfig_inl in E. subst. split; [split|]; auto.
    - pose proof (loadRulesetConfig_inr _ _ E) as (H1 & H2 & H3 & H4).
      split; [split|exact H3].
      + intros c Hc. rewrite H2 in Hc. auto.
      + intros r' Hr''. rewrite H1 in Hr''. injection Hr'' as <-.
        destruct (_rulesetConfig that) as [r0|] eqn:E0.
        * unfold loadRulesetConfig in E. rewrite E0 in E.
          injection E as <- _. auto.
        * destruct (H4 eq_refl) as (raw & typed & _ & _ & _ & Hres).
          apply resolveRuleFunctions_rules in Hres.
          destruct Hres as [rs [Hf ->]]. exact (resolved_bound Hf). }
  destruct call as [disk|disk|disk|]; cbn [perform].
  - apply Hscoring.
  - apply Hruleset. split; assumption.
  - unfold loadAll.
    destruct (Hscoring disk) as [Hc Hd].
    destruct (loadScoringConfig disk this) as [[e|s] this1]; cbn [snd] in *.
    + auto.
    + destruct (Hruleset disk this1 Hc) as [Hc' Hd'].
      destruct (loadRulesetConfig disk this1) as [[e|r] this2];
        cbn [snd] in *; split; auto; congruence.
  - split; [|reflexivity]. split; cbn; discriminate.
Qed.

(** X12.  Whatever calls are made on a new loader, against whatever
    disks, the loader keeps its directory, a scoring document it returns
    is one that the validator accepts, and no rule of a rule set it
    returns has a clause left with a function name. *)
Theorem loader_returns_validated (dir : string) (calls : list Call)
        (disk : Disk) (scoring : RawScoringConfig) (ruleset : Ruleset)
        (this1 : ConfigLoader) :
  loadAll disk (after dir calls) = (inr (scoring, ruleset), this1) ->
  configDir (after dir calls) = dir /\
  ValidatorSpec.accepted scoring /\
  Forall (fun entry => bound (snd entry)) (rules ruleset).
Proof.
  assert (Hreach : forall calls this,
             Consistent this ->
             Consistent (fold_left perform calls this) /\
             configDir (fold_left perform calls this) = configDir this).
  { clear. induction calls as [|call calls IH]; intros this Hc; simpl.
    - auto.
    - destruct (perform_consistent call Hc) as [Hc' Hd].
      destruct (IH _ Hc') as [Hc'' Hd'']. split; [exact Hc''|congruence]. }
  destruct (Hreach calls (createConfigLoader dir)) as [Hc Hd].
  { split; cbn; discriminate. }
  fold (after dir calls) in Hc, Hd.
  intro H.
  destruct (perform_consistent (CallLoadAll disk) Hc) as [[Hs Hr] _].
  cbn [perform] in Hs, Hr. rewrite H in Hs, Hr. cbn [snd] in Hs, Hr.
  unfold loadAll in H.
  destruct (loadScoringConfig disk (after dir calls))
    as [[e|s] thisA] eqn:Es; [discriminate|].
  destruct (loadRulesetConfig disk thisA) as [[e|r] thisB] eqn:Er;
    [discriminate|].
  injection H as <- <- <-.
  apply loadScoringConfig_inr in Es. destruct Es as (Es & _).
  apply loadRulesetConfig_inr in Er. destruct Er as (Er & Es' & _).
  rewrite Es in Es'.
  split; [exact Hd|]. split; [apply Hs; exact Es'|apply Hr; exact Er].
Qed.

End LoaderCache.

(** ** Score calculator: breakdown, bounds and monotonicity *)

Section ScoreBreakdown.
Import Types Auditor ScoringSpec.
Local Open Scope string_scope.
Local Open Scope Q_scope.

Lemma inCategory_cases {Fn} (rs : SpectralRuleset Fn) (v : Violation) :
  exists c, In c categories /\
            forall c', In c' categories ->
                       ScoreSpec.inCategory rs c' v =
                       if String.eqb (category_name c) (category_name c')
                       then true else false.
Proof.
  destruct (getRuleCategory_scored (ruleId v) (tagsOf rs (ruleId v)))
    as [c [Hin Hc]].
  exists c. split; [exact Hin|].
  intros c' _. unfold ScoreSpec.inCategory. rewrite Hc.
  destruct (String.eqb (category_name c) (category_name c')); reflexivity.
Qed.

Lemma filter_four_perm {Fn} (rs : SpectralRuleset Fn) (vs : list Violation) :
  Permutation
    (filter (ScoreSpec.inCategory rs security) vs ++
     filter (ScoreSpec.inCategory rs completeness) vs ++
     filter (ScoreSpec.inCategory rs structure) vs ++
     filter (ScoreSpec.inCategory rs consistency) vs)%list
    vs.
Proof.
  induction vs as [|v vs IH]; [constructor|].
  destruct (inCategory_cases rs v) as [c [Hin Hc]].
  cbn [filter].
  rewrite (Hc security), (Hc completeness), (Hc structure),
    (Hc consistency) by (simpl; auto 6).
  simpl in Hin. destruct Hin as [<-|[<-|[<-|[<-|[]]]]]; cbn.
  - constructor. exact IH.
  - rewrite <- Permutation_middle. constructor. exact IH.
  - rewrite app_assoc, <- Permutation_middle, <- app_assoc.
    constructor. exact IH.
  - rewrite !app_assoc, <- Permutation_middle, <- !app_assoc.
    constructor. exact IH.
Qed.

(** X13.  The breakdown has one entry for each of security, completeness,
    structure and consistency, in that order, each with the configured
    weight of its category and with the violations that the classifier
    puts in that category; every violation is in the list of exactly one
    entry, so the lists together are a rearrangement of the violations.
    The points of an entry are NaN as soon as its list holds a violation
    whose rule identifier has no penalty entry and is the name of a
    member of [Object.prototype]. *)
Theorem calculateCategoryScores_partition {Fn}
        (vs : list Violation) (cfg : ScoringConfig)
        (rs : SpectralRuleset Fn) :
  let breakdown := calculateCategoryScores vs cfg rs in
  map category breakdown =
    [security; completeness; structure; consistency] /\
  Forall (fun entry => weight entry = weight_of (weights cfg) (category entry))
         breakdown /\
  Forall (fun entry =>
            cs_violations entry =
            filter (ScoreSpec.inCategory rs (category entry)) vs)
         breakdown /\
  Permutation (List.concat (map cs_violations breakdown)) vs /\
  Forall (fun entry =>
            ScoreSpec.inheritedEntry cfg (cs_violations entry) ->
            pointsDeducted entry = JS.NaN)
         breakdown.
Proof.
  intro breakdown. unfold breakdown.
  rewrite calculateCategoryScores_eq. unfold categories.
  cbn [map category weight cs_violations pointsDeducted List.concat].
  split; [reflexivity|]. split; [repeat constructor|].
  split; [repeat constructor|].
  rewrite app_nil_r. split; [apply filter_four_perm|].
  repeat constructor; cbn [cs_violations pointsDeducted]; intro H;
    apply fold_addPenalty_inherited; exact H.
Qed.

End ScoreBreakdown.

Section ScoreBounds.
Import Types Auditor ScoringSpec.
Local Open Scope Q_scope.













Lemma audit_rawScore {Fn} (cfg : ScoringConfig) (rs : SpectralRuleset Fn)
      (unresolved : bool) (results : list SpectralResult) :
  finalScore (audit cfg rs unresolved results) =
    JS.Math_roundN (rawScore cfg rs results) /\
  grade (audit cfg rs unresolved results) =
    calculateGrade (rawScore cfg rs results) (grading_scale cfg).
Proof. split; reflexivity. Qed.







(** X16.  The weight configured for architecture is never read: an audit
    gives the same result whatever that weight is. *)
Theorem architecture_weight_unused {Fn} (cfg : ScoringConfig) (w : Q)
        (rs : SpectralRuleset Fn) (unresolved : bool)
        (results : list SpectralResult) :
  audit (withArchitecture cfg w) rs unresolved results =
  audit cfg rs unresolved results.
Proof.
  destruct cfg as [b [w1 w2 w3 w4 w5] p s]. reflexivity.
Qed.

End ScoreBounds.

(** ** Audit result: fatal count, rounding and what the command line shows *)

Section AuditResultFacts.
Import Types Auditor ScoringSpec CliReport.
Local Open Scope string_scope.
Local Open Scope Q_scope.

Lemma filter_length_zero {X : Type} (p : X -> bool) (l : list X) :
  List.length (filter p l) = 0%nat <-> existsb p l = false.
Proof.
  induction l as [|x l IH]; simpl; [tauto|].
  destruct (p x); simpl; [split; discriminate|exact IH].
Qed.

Lemma hasFatalErrors_existsb {Fn} (cfg : ScoringConfig)
      (rs : SpectralRuleset Fn) (unresolved : bool)
      (results : list SpectralResult) :
  hasFatalErrors (audit cfg rs unresolved results) =
  existsb (isFatal cfg) (convertResults results).
Proof.
  unfold audit, calculateScore. cbn [hasFatalErrors].
  destruct (existsb (isFatal cfg) (convertResults results)); reflexivity.
Qed.

(** X17.  In every audit result the fatal count and the fatal flag agree:
    the count is 0 exactly when the flag is off, and it never exceeds the
    number of violations.  With the flag on, the reported score is 0 and
    the result has not passed, whatever the grading scale makes of 0. *)
Theorem fatal_count_and_flag {Fn} (cfg : ScoringConfig)
        (rs : SpectralRuleset Fn) (unresolved : bool)
        (results : list SpectralResult) :
  let r := audit cfg rs unresolved results in
  (fatalCount (summary r) = 0%nat <-> hasFatalErrors r = false) /\
  (fatalCount (summary r) <= totalViolations (summary r))%nat /\
  (hasFatalErrors r = true -> finalScore r = 0 /\ passed r = false) /\
  (passed r = true -> grade r <> "F" /\ fatalCount (summary r) = 0%nat).
Proof.
  intro r. unfold r. rewrite hasFatalErrors_existsb.
  assert (Hcount : fatalCount (summary (audit cfg rs unresolved results)) =
                   List.length (filter (isFatal cfg) (convertResults results)))
    by reflexivity.
  rewrite Hcount. split; [apply filter_length_zero|]. split.
  { cbn [summary totalViolations]. apply filter_length_le. }
  assert (Hpassed : passed (audit cfg rs unresolved results) =
                    negb (String.eqb (grade (audit cfg rs unresolved results))
                                     "F") &&
                    negb (existsb (isFatal cfg) (convertResults results))).
  { rewrite <- (hasFatalErrors_existsb cfg rs unresolved results).
    reflexivity. }
  split.
  - intro Hf. split.
    + unfold audit, calculateScore. cbn [finalScore]. rewrite Hf.
      reflexivity.
    + rewrite Hpassed, Hf. apply andb_false_r.
  - rewrite Hpassed. intro Hp. apply andb_true_iff in Hp.
    destruct Hp as [Hg Hf]. apply negb_true_iff in Hg, Hf. split.
    + intro E. rewrite E in Hg. discriminate.
    + apply filter_length_zero. exact Hf.
Qed.

Lemma floor_unique (y : Q) (m : Z) :
  inject_Z m <= y -> y < inject_Z m + 1 -> Qfloor y = m.
Proof.
  intros Hlo Hhi.
  pose proof (Qfloor_le y) as H1. pose proof (Qlt_floor y) as H2.
  assert (Ha : (m < Qfloor y + 1)%Z).
  { rewrite Zlt_Qlt. eapply Qle_lt_trans; eassumption. }
  assert (Hb : (Qfloor y < m + 1)%Z).
  { rewrite Zlt_Qlt, inject_Z_plus.
    eapply Qle_lt_trans; eassumption. }
  lia.
Qed.

(** X18.  The grade is taken from the score before rounding, the reported
    score after: a run whose score lies within half a point below an
    integer threshold of grade A is reported with that threshold as its
    score and with a grade other than A. *)
Theorem rounded_score_and_grade {Fn} (cfg : ScoringConfig)
        (rs : SpectralRuleset Fn) (unresolved : bool)
        (results : list SpectralResult) (m : Z) (score : Q) :
  min (A (grading_scale cfg)) == inject_Z m ->
  rawScore cfg rs results = JS.Num score ->
  inject_Z m - (1 # 2) <= score ->
  score < inject_Z m ->
  finalScore (audit cfg rs unresolved results) = inject_Z m /\
  grade (audit cfg rs unresolved results) <> "A".
Proof.
  intros Hm Hs Hlo Hhi.
  destruct (audit_rawScore cfg rs unresolved results) as [-> ->].
  rewrite Hs. cbn [JS.Math_roundN]. split.
  - unfold JS.Math_round. do 2 f_equal. apply floor_unique.
    + apply Qplus_le_l with (z := - (1 # 2)).
      setoid_replace (score + (1 # 2) + - (1 # 2)) with score by ring.
      exact Hlo.
    + apply Qplus_lt_l with (z := - (1 # 2)).
      setoid_replace (score + (1 # 2) + - (1 # 2)) with score by ring.
      eapply Qlt_le_trans; [exact Hhi|].
      setoid_replace (inject_Z m + 1 + - (1 # 2))
        with (inject_Z m + (1 # 2)) by ring.
      rewrite <- (Qplus_0_r (inject_Z m)) at 1.
      apply Qplus_le_r. discriminate.
  - unfold calculateGrade. cbn [JS.gebN].
    assert (Hn : JS.geb score (min (A (grading_scale cfg))) = false).
    { apply geb_false. rewrite Hm. exact Hhi. }
    rewrite Hn.
    repeat match goal with
           | |- context [if ?b then _ else _] => destruct b
           end; discriminate.
Qed.

Lemma meets_rank (g m : string) :
  In g Loader.grades -> In m Loader.grades ->
  Cli.meetsMinimumGrade g m = Nat.leb (rank m) (rank g).
Proof.
  unfold Loader.grades. simpl.
  intros [<-|[<-|[<-|[<-|[<-|[]]]]]] [<-|[<-|[<-|[<-|[<-|[]]]]]];
    reflexivity.
Qed.

Lemma includes_In (l : list string) (x : string) :
  JS.includes l x = true <-> In x l.
Proof.
  unfold JS.includes. rewrite existsb_exists. split.
  - intros [y [Hin Hy]]. apply String.eqb_eq in Hy. subst. exact Hin.
  - intro H. exists x. split; [exact H|apply String.eqb_refl].
Qed.

(** The exit status of a reported run with a valid grade. *)
Lemma exitStatus_reported (failOn : string) (result : AuditResult) :
  In (toUpperCase failOn) validGrades ->
  In (grade result) Loader.grades ->
  (exitStatus failOn (Reported result) = 0%Z <->
   (rank (toUpperCase failOn) <= rank (grade result))%nat).
Proof.
  intros Hv Hg. unfold exitStatus. cbv zeta.
  rewrite (proj2 (includes_In _ _) Hv). cbn [negb].
  rewrite (meets_rank Hg Hv).
  destruct (Nat.leb (rank (toUpperCase failOn)) (rank (grade result)))
    eqn:E; cbn [negb].
  - apply Nat.leb_le in E. tauto.
  - apply Nat.leb_gt in E. split; [discriminate|lia].
Qed.

(** X19.  The exit status of the audit command is 0 exactly when the
    report of the run was written, the --fail-on option put in upper case
    is one of the five grades, and the rank of the grade is at least the
    rank of that grade.  So with f or F every reported run exits with 0,
    fatal violations or not; with a or A only a run of grade A does; and
    a stopped run, or an option that is not a grade, exits with 1. *)
Theorem exitStatus_by_rank {Fn} (cfg : ScoringConfig)
        (rs : SpectralRuleset Fn) (unresolved : bool)
        (results : list SpectralResult) (failOn : string) (run : Run) :
  let r := audit cfg rs unresolved results in
  (exitStatus failOn run = 0%Z <->
   exists result,
     run = Reported result /\ In (toUpperCase failOn) validGrades /\
     Cli.meetsMinimumGrade (grade result) (toUpperCase failOn) = true) /\
  (In (toUpperCase failOn) validGrades ->
   (exitStatus failOn (Reported r) = 0%Z <->
    (rank (toUpperCase failOn) <= rank (grade r))%nat)) /\
  exitStatus "f" (Reported r) = 0%Z /\
  exitStatus "F" (Reported r) = 0%Z /\
  (exitStatus "a" (Reported r) = 0%Z <-> grade r = "A") /\
  (exitStatus "A" (Reported r) = 0%Z <-> grade r = "A") /\
  exitStatus failOn Stopped = 1%Z /\
  (~ In (toUpperCase failOn) validGrades -> exitStatus failOn run = 1%Z).
Proof.
  intro r.
  assert (Hg : In (grade r) Loader.grades) by apply calculateGrade_letter.
  assert (Hletters : forall g,
             In g Loader.grades ->
             (rank "F" <= rank g)%nat /\
             ((rank "A" <= rank g)%nat <-> g = "A")).
  { intros g Hin. unfold Loader.grades in Hin. cbn [In] in Hin.
    destruct Hin as [<-|[<-|[<-|[<-|[<-|[]]]]]]; vm_compute;
      (split; [lia|split; intro H; try reflexivity; try lia;
                   discriminate]). }
  destruct (Hletters _ Hg) as [HF HA].
  split; [|split; [|split; [|split; [|split; [|split; [|split]]]]]].
  - unfold exitStatus. cbv zeta.
    destruct (JS.includes validGrades (toUpperCase failOn)) eqn:Ev;
      cbn [negb].
    + apply includes_In in Ev. destruct run as [|result].
      * split; [discriminate|]. intros [x [Hx _]]. discriminate.
      * destruct (Cli.meetsMinimumGrade (grade result) (toUpperCase failOn))
          eqn:Em; cbn [negb].
        -- split; [|reflexivity]. intros _. exists result. auto.
        -- split; [discriminate|]. intros [x [Hx [_ Hm]]].
           injection Hx as <-. congruence.
    + split; [discriminate|]. intros [x [_ [Hin _]]].
      apply includes_In in Hin. congruence.
  - intro Hv. apply exitStatus_reported; assumption.
  - apply (@exitStatus_reported "f" r); [simpl; auto 6|exact Hg|exact HF].
  - apply (@exitStatus_reported "F" r); [simpl; auto 6|exact Hg|exact HF].
  - rewrite (@exitStatus_reported "a" r); [exact HA|simpl; auto|exact Hg].
  - rewrite (@exitStatus_reported "A" r); [exact HA|simpl; auto|exact Hg].
  - unfold exitStatus. cbv zeta.
    destruct (negb (JS.includes validGrades (toUpperCase failOn)));
      reflexivity.
  - intro Hn. unfold exitStatus. cbv zeta.
    destruct (JS.includes validGrades (toUpperCase failOn)) eqn:Ev;
      [|reflexivity].
    apply includes_In in Ev. contradiction.
Qed.



(** X22.  The counts of the summary in terms of what the rule engine
    reported: the total is the number of findings; severity 0 counts as an
    error, 1 as a warning, 2 as info; any other severity number, in or out
    of the engine's range, becomes a hint and counts in the total only.
    The violations keep the order and the codes of the findings. *)
Theorem summary_of_findings {Fn} (cfg : ScoringConfig)
        (rs : SpectralRuleset Fn) (unresolved : bool)
        (results : list SpectralResult) :
  let r := audit cfg rs unresolved results in
  let count (n : Z) :=
    List.length (filter (fun x => Z.eqb (sr_severity x) n) results) in
  map ruleId (violations r) = map code results /\
  totalViolations (summary r) = List.length results /\
  errorCount (summary r) = count 0%Z /\
  warningCount (summary r) = count 1%Z /\
  infoCount (summary r) = count 2%Z /\
  Forall2 (fun x v =>
             severity v = hint <->
             sr_severity x <> 0%Z /\ sr_severity x <> 1%Z /\
             sr_severity x <> 2%Z)
          results (violations r).
Proof.
  intros r count. unfold r, audit, count. clear r count.
  cbn [violations summary totalViolations errorCount warningCount infoCount].
  unfold convertResults.
  assert (Hf : forall sev n,
             (forall x, severity_eqb
                          (if Z.eqb (sr_severity x) 0 then error
                           else if Z.eqb (sr_severity x) 1 then warn
                           else if Z.eqb (sr_severity x) 2 then info
                           else hint) sev = Z.eqb (sr_severity x) n) ->
             forall l,
             List.length
               (filter (fun v => severity_eqb (severity v) sev)
                       (map (fun result =>
                               mkViolation
                                 (code result)
                                 (if Z.eqb (sr_severity result) 0 then error
                                  else if Z.eqb (sr_severity result) 1
                                  then warn
                                  else if Z.eqb (sr_severity result) 2
                                  then info else hint)
                                 (sr_message result)
                                 (String.concat "." (sr_path result))
                                 (option_map fst (range result))
                                 (option_map snd (range result)))
                            l)) =
             List.length
               (filter (fun x => Z.eqb (sr_severity x) n) l)).
  { intros sev n Hsev l. induction l as [|x l IH]; [reflexivity|].
    cbn [map filter severity]. rewrite Hsev.
    destruct (Z.eqb (sr_severity x) n); cbn [List.length]; rewrite IH;
      reflexivity. }
  split; [rewrite map_map; reflexivity|].
  split; [apply length_map|].
  split; [apply Hf|]. 2: split; [apply Hf|]. 3: split; [apply Hf|].
  - intro x. destruct (Z.eqb (sr_severity x) 0); [reflexivity|].
    destruct (Z.eqb (sr_severity x) 1); [reflexivity|].
    destruct (Z.eqb (sr_severity x) 2); reflexivity.
  - intro x. destruct (Z.eqb_spec (sr_severity x) 0) as [E|E].
    + rewrite E. reflexivity.
    + destruct (Z.eqb (sr_severity x) 1); [reflexivity|].
      destruct (Z.eqb (sr_severity x) 2); reflexivity.
  - intro x. destruct (Z.eqb_spec (sr_severity x) 0) as [E|E].
    + rewrite E. reflexivity.
    + destruct (Z.eqb_spec (sr_severity x) 1) as [E1|E1].
      * rewrite E1. reflexivity.
      * destruct (Z.eqb (sr_severity x) 2); reflexivity.
  - clear Hf. induction results as [|x l IH]; cbn [map]; constructor;
      [|exact IH].
    cbn [severity].
    destruct (Z.eqb_spec (sr_severity x) 0) as [E0|E0];
      [split; [discriminate|tauto]|].
    destruct (Z.eqb_spec (sr_severity x) 1) as [E1|E1];
      [split; [discriminate|tauto]|].
    destruct (Z.eqb_spec (sr_severity x) 2) as [E2|E2];
      [split; [discriminate|tauto]|].
    tauto.
Qed.

End AuditResultFacts.

(** ** The merged rule set *)

Section MergedRuleset.
Import Types Loader AuditorRuleset.
Local Open Scope list_scope.

Variable A : Type.

Lemma get_set (o : JS.Obj A) (k k' : string) (v : A) :
  JS.get (JSObject.set o k v) k' =
  if String.eqb k k' then Some v else JS.get o k'.
Proof.
  induction o as [|[k1 v1] o IH]; simpl.
  - reflexivity.
  - destruct (String.eqb k1 k) eqn:E1; simpl.
    + apply String.eqb_eq in E1. subst k1.
      destruct (String.eqb k k'); reflexivity.
    + rewrite IH. destruct (String.eqb k1 k') eqn:E2; [|reflexivity].
      apply String.eqb_eq in E2. subst k1.
      rewrite String.eqb_sym, E1. reflexivity.
Qed.

Lemma get_None_keys (o : JS.Obj A) (k : string) :
  JS.get o k = None <-> ~ In k (map fst o).
Proof.
  induction o as [|[k1 v1] o IH]; simpl; [tauto|].
  destruct (String.eqb k1 k) eqn:E.
  - apply String.eqb_eq in E. split; [discriminate|]. tauto.
  - apply String.eqb_neq in E. rewrite IH. tauto.
Qed.

Lemma keys_set (o : JS.Obj A) (k : string) (v : A) :
  map fst (JSObject.set o k v) =
  if JS.has o k then map fst o else map fst o ++ [k].
Proof.
  unfold JS.has. induction o as [|[k1 v1] o IH]; simpl; [reflexivity|].
  destruct (String.eqb k1 k) eqn:E; simpl; [reflexivity|].
  rewrite IH. destruct (JS.get o k); reflexivity.
Qed.

Lemma set_NoDup (o : JS.Obj A) (k : string) (v : A) :
  NoDup (map fst o) -> NoDup (map fst (JSObject.set o k v)).
Proof.
  intro H. rewrite keys_set. unfold JS.has.
  destruct (JS.get o k) eqn:E; [exact H|].
  apply get_None_keys in E.
  apply NoDup_app; [exact H|repeat constructor; intros []|].
  intros x Hx [<-|[]]. contradiction.
Qed.

Lemma get_fold_set (l : JS.Obj A) :
  NoDup (map fst l) ->
  forall (o : JS.Obj A) (k : string),
    JS.get (fold_left (fun o kv => JSObject.set o (fst kv) (snd kv)) l o) k =
    match JS.get l k with
    | Some v => Some v
    | None => JS.get o k
    end.
Proof.
  induction l as [|[k1 v1] l IH]; intros Hnd o k; simpl; [reflexivity|].
  inversion Hnd as [|? ? Hnotin Hnd']; subst.
  rewrite (IH Hnd'), get_set.
  destruct (String.eqb k1 k) eqn:E; [|reflexivity].
  apply String.eqb_eq in E. subst k1.
  apply get_None_keys in Hnotin. rewrite Hnotin. reflexivity.
Qed.

Lemma fold_set_NoDup (l o : JS.Obj A) :
  NoDup (map fst o) ->
  NoDup (map fst (fold_left (fun o kv => JSObject.set o (fst kv) (snd kv))
                            l o)).
Proof.
  revert o. induction l as [|[k v] l IH]; intros o H; simpl; [exact H|].
  apply IH. apply set_NoDup. exact H.
Qed.

Lemma get_spread (a b : JS.Obj A) (k : string) :
  NoDup (map fst a) -> NoDup (map fst b) ->
  JS.get (JSObject.spread a b) k =
  match JS.get b k with
  | Some v => Some v
  | None => JS.get a k
  end.
Proof.
  intros Ha Hb. unfold JSObject.spread. rewrite fold_left_app.
  rewrite (@get_fold_set b Hb), (@get_fold_set a Ha). simpl.
  destruct (JS.get b k); [reflexivity|].
  destruct (JS.get a k); reflexivity.
Qed.

End MergedRuleset.

Section BuildRuleset.
Import Types Loader AuditorRuleset.

(** X23.  In the merged rule set a rule identifier that the custom rule
    set defines has the custom rule, whole, and every other identifier has
    the rule of the base rule set; no identifier appears twice, and the
    [extends] of the custom rule set is dropped for that of the base. *)
Theorem buildRuleset_precedence (oas customRuleset : Ruleset) :
  NoDup (map fst (rules oas)) -> NoDup (map fst (rules customRuleset)) ->
  (forall ruleId,
      JS.get (rules (buildRuleset oas customRuleset)) ruleId =
      match JS.get (rules customRuleset) ruleId with
      | Some rule => Some rule
      | None => JS.get (rules oas) ruleId
      end) /\
  NoDup (map fst (rules (buildRuleset oas customRuleset))) /\
  extends (buildRuleset oas customRuleset) = extends oas.
Proof.
  intros Ha Hb. unfold buildRuleset. cbn [rules extends].
  split; [intro ruleId; apply get_spread; assumption|].
  split; [|reflexivity].
  unfold JSObject.spread. apply fold_set_NoDup. constructor.
Qed.

End BuildRuleset.

(** ** Casing detector: keys, arrays, order and the finding *)

Section CasingKeys.
Import RegExp ConsistentCasing CasingSpec KeySpec.
Local Open Scope string_scope.
Local Open Scope list_scope.

Lemma test_void_cat (r : RegExp.t) (s : string) :
  RegExp.test (Cat Void r) s = false.
Proof. induction s as [|c s IH]; simpl; [reflexivity|exact IH]. Qed.

Lemma test_alt (s : string) :
  forall a b : RegExp.t,
    RegExp.test (Alt a b) s = RegExp.test a s || RegExp.test b s.
Proof.
  induction s as [|c s IH]; intros a b; simpl; [reflexivity|apply IH].
Qed.

Lemma test_eps_star (p : ascii -> bool) (s : string) :
  RegExp.test (Cat Eps (Star (Class p))) s = allChars p s.
Proof.
  induction s as [|c s IH]; [reflexivity|].
  cbn [RegExp.test deriv nullable allChars].
  rewrite test_alt, test_void_cat. cbn [orb].
  destruct (p c); cbn [andb]; [exact IH|apply test_void_cat].
Qed.

Lemma alnum_not_underscore (c : ascii) :
  union lower (union upper digit) c = true -> Ascii.eqb c "_" = false.
Proof.
  destruct c as [[] [] [] [] [] [] [] []]; vm_compute; congruence.
Qed.

Lemma lower_not_underscore (c : ascii) :
  lower c = true -> Ascii.eqb c "_" = false.
Proof.
  destruct c as [[] [] [] [] [] [] [] []]; vm_compute; congruence.
Qed.

Lemma allChars_no_underscore (s : string) :
  allChars (union lower (union upper digit)) s = true ->
  JS.includesChar s "_" = false.
Proof.
  induction s as [|c s IH]; simpl; [reflexivity|].
  intro H. apply andb_true_iff in H. destruct H as [Hc Hs].
  rewrite (alnum_not_underscore _ Hc), (IH Hs). reflexivity.
Qed.

Lemma first_not_lower (c : ascii) (rest : string) :
  lower c = false ->
  isCamelCase (String c rest) = false /\
  isSnakeCase (String c rest) = false.
Proof.
  intro H. unfold isCamelCase, isSnakeCase, CAMEL_CASE_PATTERN,
             SNAKE_CASE_PATTERN.
  cbn [RegExp.test deriv nullable]. rewrite H, !test_void_cat.
  split; reflexivity.
Qed.

(** X24.  A key is camelCase exactly when its first character is one of
    a-z and all the others are letters or digits; a key without such a
    first character, the empty key included, is of neither style.  So a
    plain lower-case word is camelCase, never snake_case. *)
Theorem isCamelCase_characters (key : string) :
  (isCamelCase key = true <->
   exists c rest,
     key = String c rest /\ lower c = true /\
     allChars (union lower (union upper digit)) rest = true) /\
  ((forall c rest, key = String c rest -> lower c = false) ->
   isCamelCase key = false /\ isSnakeCase key = false) /\
  (isCamelCase key = true -> isSnakeCase key = false).
Proof.
  split; [|split].
  - destruct key as [|c rest].
    + split; [discriminate|]. intros (c & rest & H & _). discriminate.
    + unfold isCamelCase, CAMEL_CASE_PATTERN.
      cbn [RegExp.test deriv nullable].
      destruct (lower c) eqn:El.
      * rewrite test_eps_star. split.
        -- intro H. apply andb_true_iff in H. destruct H as [Ha _].
           exists c, rest. auto.
        -- intros (c' & rest' & Hk & _ & Ha). injection Hk as <- <-.
           rewrite Ha. cbn [andb JS.includesChar].
           rewrite (lower_not_underscore _ El),
             (allChars_no_underscore _ Ha).
           reflexivity.
      * rewrite test_void_cat. split; [discriminate|].
        intros (c' & rest' & Hk & Hl & _). injection Hk as <- <-.
        congruence.
  - intro H. destruct key as [|c rest]; [split; reflexivity|].
    apply first_not_lower. apply (H c rest eq_refl).
  - intro H. pose proof (styles_exclusive key) as Hx.
    rewrite H in Hx. exact Hx.
Qed.

Lemma to_uint_cons (i : nat) :
  exists c rest,
    JS.indexKey i = String c rest /\ digit c = true.
Proof.
  unfold JS.indexKey.
  assert (Hn : Nat.to_uint i <> Decimal.Nil).
  { rewrite <- (DecimalNat.Unsigned.of_to i) at 1.
    rewrite DecimalNat.Unsigned.to_of. apply DecimalFacts.unorm_nonnil. }
  destruct (Nat.to_uint i); [contradiction| | | | | | | | | |];
    cbn [NilEmpty.string_of_uint]; eexists; eexists;
    (split; [reflexivity|reflexivity]).
Qed.

Lemma digit_not_lower (c : ascii) : digit c = true -> lower c = false.
Proof.
  destruct c as [[] [] [] [] [] [] [] []]; vm_compute; congruence.
Qed.

Lemma digit_first_not_ignored (c : ascii) (rest : string) :
  digit c = true -> JS.includes IGNORED_KEYS (String c rest) = false.
Proof.
  intro H. unfold JS.includes, IGNORED_KEYS. cbn [existsb String.eqb].
  assert (Ht : Ascii.eqb c "t" = false /\ Ascii.eqb c "f" = false /\
               Ascii.eqb c "p" = false /\ Ascii.eqb c "i" = false /\
               Ascii.eqb c "r" = false /\ Ascii.eqb c "d" = false /\
               Ascii.eqb c "e" = false).
  { revert H. destruct c as [[] [] [] [] [] [] [] []]; vm_compute;
      intro H; try discriminate; repeat split. }
  destruct Ht as (-> & -> & -> & -> & -> & -> & ->). reflexivity.
Qed.

Lemma indexKey_counted (i : nat) (below : list string) :
  keysAt (JS.indexKey i) below = JS.indexKey i :: below /\
  styleOf (JS.indexKey i) = Neither.
Proof.
  destruct (to_uint_cons i) as (c & rest & -> & Hd).
  unfold keysAt, styleOf.
  rewrite (@digit_first_not_ignored c rest Hd).
  destruct (@first_not_lower c rest (@digit_not_lower c Hd)) as [-> ->].
  auto.
Qed.

Lemma countStyle_perm (s : Style) (a b : list string) :
  Permutation a b -> countStyle s a = countStyle s b.
Proof.
  unfold countStyle.
  induction 1 as [|x a b _ IH|x y a|a b c _ IH1 _ IH2]; simpl.
  - reflexivity.
  - destruct (isStyle s x); simpl; rewrite IH; reflexivity.
  - destruct (isStyle s x), (isStyle s y); reflexivity.
  - congruence.
Qed.

Lemma tally_perm (a b : list string) (stats : Stats) :
  Permutation a b -> tally a stats = tally b stats.
Proof.
  intro H. unfold tally.
  rewrite (countStyle_perm Camel H), (countStyle_perm Snake H),
    (Permutation_length H).
  reflexivity.
Qed.

Lemma keysOfItems_perm (items : list JValue) :
  forall i,
    Permutation (keysOfItems countedKeys items i)
                (map JS.indexKey (seq i (List.length items)) ++
                 List.concat (map countedKeys items)).
Proof.
  induction items as [|v items IH]; intro i; simpl; [constructor|].
  destruct (indexKey_counted i (countedKeys v)) as [-> _]. simpl.
  constructor. rewrite (IH (S i)).
  rewrite !app_assoc. apply Permutation_app_tail.
  apply Permutation_app_comm.
Qed.

Lemma countStyle_index (n : nat) :
  forall i,
    countStyle Camel (map JS.indexKey (seq i n)) = 0%nat /\
    countStyle Snake (map JS.indexKey (seq i n)) = 0%nat.
Proof.
  unfold countStyle.
  induction n as [|n IH]; intro i; simpl; [auto|].
  destruct (indexKey_counted i []) as [_ Hs].
  unfold isStyle at 1 3. rewrite Hs. apply IH.
Qed.

(** X25.  Every element of an array counts as one key of neither style,
    whatever it is: walking an array adds its length to the total and
    then counts the keys inside its elements. *)
Theorem countCasingStyles_array (items : list JValue) (stats : Stats) :
  countCasingStyles (JArray items) stats =
  tally (List.concat (map countedKeys items))
        (mkStats (camelCase stats) (snakeCase stats)
                 (total stats + List.length items)%nat).
Proof.
  rewrite countCasingStyles_tally.
  change (countedKeys (JArray items))
    with (keysOfItems countedKeys items 0%nat).
  rewrite (tally_perm stats (keysOfItems_perm items 0%nat)), tally_app.
  f_equal. unfold tally.
  destruct (countStyle_index (List.length items) 0%nat) as [-> ->].
  rewrite length_map, length_seq, !Nat.add_0_r. reflexivity.
Qed.

Lemma keysOfMembers_perm (a b : list (string * JValue)) :
  Permutation a b ->
  Permutation (keysOfMembers countedKeys a) (keysOfMembers countedKeys b).
Proof.
  induction 1 as [|[k v] a b _ IH|[k v] [k' v'] a|a b c _ IH1 _ IH2]; simpl.
  - constructor.
  - apply Permutation_app_head. exact IH.
  - rewrite !app_assoc. apply Permutation_app_tail.
    apply Permutation_app_comm.
  - etransitivity; eassumption.
Qed.

(** X26.  The counts do not depend on the order in which an object lists
    its members, nor on where the counting starts: the result is the
    starting counters plus what the subtree adds to fresh ones. *)
Theorem countCasingStyles_order_free
        (members members' : list (string * JValue)) (stats : Stats) :
  Permutation members members' ->
  countCasingStyles (JObject members) stats =
  countCasingStyles (JObject members') stats /\
  (let fresh := countCasingStyles (JObject members) (mkStats 0%nat 0%nat 0%nat) in
   countCasingStyles (JObject members) stats =
   mkStats (camelCase stats + camelCase fresh)%nat
           (snakeCase stats + snakeCase fresh)%nat
           (total stats + total fresh)%nat).
Proof.
  intro H. split.
  - rewrite !countCasingStyles_tally. apply tally_perm.
    apply (keysOfMembers_perm H).
  - cbv zeta. rewrite !countCasingStyles_tally. reflexivity.
Qed.

End CasingKeys.

(** ** Casing detector: when a finding is emitted and what it says *)

Section CasingFinding.
Import ConsistentCasing CasingSpec.
Local Open Scope string_scope.
Local Open Scope list_scope.

(** X27.  The decision of the detector in whole numbers, and the styles
    that its finding names.  A finding is emitted exactly when more than
    five keys were counted and the smaller of the two style counts is more
    than a fifth of the two together; there is never more than one.  The
    finding carries the two counts, names two different styles, and names
    camelCase as the majority exactly when camelCase keys outnumber
    snake_case keys (a tie reports snake_case as the majority). *)
Theorem consistentCasing_finding (targetVal : JValue) :
  let stats := countCasingStyles targetVal (mkStats 0 0 0) in
  (consistentCasing targetVal <> [] <->
   (5 < total stats)%nat /\
   (majority stats + minority stats < 5 * minority stats)%nat) /\
  (forall finding,
      In finding (consistentCasing targetVal) ->
      consistentCasing targetVal = [finding] /\
      found_camelCase finding = camelCase stats /\
      found_snakeCase finding = snakeCase stats /\
      majorityStyle finding <> minorityStyle finding /\
      (majorityStyle finding = "camelCase" <->
       (snakeCase stats < camelCase stats)%nat) /\
      (majorityStyle finding = "snake_case" <->
       (camelCase stats <= snakeCase stats)%nat)).
Proof.
  intro stats. unfold consistentCasing. fold stats.
  change (Nat.min (camelCase stats) (snakeCase stats))
    with (minority stats).
  change (Nat.max (camelCase stats) (snakeCase stats))
    with (majority stats).
  change (num (minority stats) / (num (majority stats) + num (minority stats)))%Q
    with (ratio stats).
  destruct (total stats <=? 5)%nat eqn:Et.
  { apply Nat.leb_le in Et. split.
    - split; [congruence|]. intros [H _]. lia.
    - intros f []. }
  apply Nat.leb_gt in Et.
  destruct (minority stats =? 0)%nat eqn:Em.
  { apply Nat.eqb_eq in Em. split.
    - split; [congruence|]. intros [_ H]. lia.
    - intros f []. }
  apply Nat.eqb_neq in Em.
  pose proof (ratio_over_fifth stats Em) as Hfifth.
  destruct (JS.gtb (ratio stats) (20 # 100)) eqn:Er.
  - apply gtb_true in Er. split.
    + split; [|discriminate]. intros _. split; [exact Et|].
      apply Hfifth. exact Er.
    + intros f [<-|[]].
      cbn [majorityStyle minorityStyle found_camelCase found_snakeCase].
      split; [reflexivity|]. split; [reflexivity|]. split; [reflexivity|].
      destruct (snakeCase stats <? camelCase stats)%nat eqn:Ec.
      * apply Nat.ltb_lt in Ec.
        split; [discriminate|]. split; [tauto|].
        split; [discriminate|lia].
      * apply Nat.ltb_ge in Ec.
        split; [discriminate|].
        split; [split; [discriminate|lia]|tauto].
  - apply gtb_false in Er. split.
    + split; [congruence|]. intros [_ H]. apply Hfifth in H.
      exfalso. apply (Qlt_not_le _ _ H). exact Er.
    + intros f [].
Qed.

End CasingFinding.

(** ** Grades and the ranges of the scale *)

Section GradeRanges.
Import Types Loader RulesetLoader Auditor ValidatorSpec GradeSpec.
Local Open Scope string_scope.
Local Open Scope Q_scope.
Local Open Scope list_scope.

Lemma byMax_after (a b : GradeThreshold) :
  max b < max a -> JS.gtbN (JS.Num (max a - max b)) (JS.Num 0) = true.
Proof.
  intro H. cbn [JS.gtbN]. apply gtb_true. unfold Qminus.
  rewrite <- (Qplus_opp_r (max b)).
  apply Qplus_lt_l. exact H.
Qed.

Lemma sort_letter_order (tA tB tC tD tF : GradeThreshold) :
  max tF < max tD -> max tD < max tC -> max tC < max tB ->
  max tB < max tA ->
  JS.sort (fun a b => max a - max b) [tA; tB; tC; tD; tF] =
  [tF; tD; tC; tB; tA].
Proof.
  intros HFD HDC HCB HBA.
  assert (HFC : max tF < max tC) by (eapply Qlt_trans; eassumption).
  assert (HFB : max tF < max tB) by (eapply Qlt_trans; eassumption).
  assert (HFA : max tF < max tA) by (eapply Qlt_trans; eassumption).
  assert (HDB : max tD < max tB) by (eapply Qlt_trans; eassumption).
  assert (HDA : max tD < max tA) by (eapply Qlt_trans; eassumption).
  assert (HCA : max tC < max tA) by (eapply Qlt_trans; eassumption).
  cbn [JS.sort JS.insert].
  rewrite (byMax_after _ _ HFD). cbn [JS.insert].
  rewrite (byMax_after _ _ HFC). cbn [JS.insert].
  rewrite (byMax_after _ _ HDC). cbn [JS.insert].
  rewrite (byMax_after _ _ HFB). cbn [JS.insert].
  rewrite (byMax_after _ _ HDB). cbn [JS.insert].
  rewrite (byMax_after _ _ HCB). cbn [JS.insert].
  rewrite (byMax_after _ _ HFA). cbn [JS.insert].
  rewrite (byMax_after _ _ HDA). cbn [JS.insert].
  rewrite (byMax_after _ _ HCA). cbn [JS.insert].
  rewrite (byMax_after _ _ HBA). reflexivity.
Qed.

Lemma asThreshold_range (entry : GradeEntry) (t : GradeThreshold) :
  asThreshold entry = Some t -> entry = rangeEntry t.
Proof.
  destruct entry as [[[|lo] [|hi]]|truth]; try discriminate.
  intro H. injection H as <-. reflexivity.
Qed.

Lemma getThreshold_range (s : JS.Obj GradeEntry) (g : string)
      (t : GradeThreshold) :
  getThreshold s g = Some t -> JS.get s g = Some (rangeEntry t).
Proof.
  unfold getThreshold. destruct (JS.get s g) as [entry|]; [|discriminate].
  intro H. apply asThreshold_range in H. subst. reflexivity.
Qed.

(** A document that can be read at the type of the configuration has a
    scale whose entries are objects with numeric bounds, and the ranges
    of the configuration are those entries. *)
Lemma asScoringConfig_scale (cfg : RawScoringConfig) (sc : ScoringConfig) :
  asScoringConfig cfg = Some sc ->
  exists s,
    raw_grading_scale cfg = Some s /\ numeric s /\
    JS.get s "A" = Some (rangeEntry (A (grading_scale sc))) /\
    JS.get s "B" = Some (rangeEntry (B (grading_scale sc))) /\
    JS.get s "C" = Some (rangeEntry (C (grading_scale sc))) /\
    JS.get s "D" = Some (rangeEntry (D (grading_scale sc))) /\
    JS.get s "F" = Some (rangeEntry (F (grading_scale sc))).
Proof.
  unfold asScoringConfig. intro H.
  destruct (raw_base_score cfg) as [[|b]|]; try discriminate.
  destruct (raw_weights cfg) as [w|]; [|discriminate].
  destruct (raw_penalties cfg) as [p|]; [|discriminate].
  destruct (raw_grading_scale cfg) as [s|]; [|discriminate].
  destruct (getNumber w "security"); [|discriminate].
  destruct (getNumber w "completeness"); [|discriminate].
  destruct (getNumber w "structure"); [|discriminate].
  destruct (getNumber w "consistency"); [|discriminate].
  destruct (getNumber w "architecture"); [|discriminate].
  destruct (getThreshold s "A") as [tA|] eqn:HA; [|discriminate].
  destruct (getThreshold s "B") as [tB|] eqn:HB; [|discriminate].
  destruct (getThreshold s "C") as [tC|] eqn:HC; [|discriminate].
  destruct (getThreshold s "D") as [tD|] eqn:HD; [|discriminate].
  destruct (getThreshold s "F") as [tF|] eqn:HF; [|discriminate].
  injection H as <-. cbn [grading_scale A B C D F].
  apply getThreshold_range in HA, HB, HC, HD, HF.
  exists s. split; [reflexivity|]. split; [|auto 6].
  intros g entry Hin Hg. unfold grades in Hin. cbn [In] in Hin.
  destruct Hin as [<-|[<-|[<-|[<-|[<-|[]]]]]];
    [rewrite HA in Hg|rewrite HB in Hg|rewrite HC in Hg|rewrite HD in Hg
    |rewrite HF in Hg]; injection Hg as <-; eexists; reflexivity.
Qed.

(** X28.  On a scale that the validator accepted and whose ranges lie in
    the order of the letters, the grade given to a score is the grade
    whose range holds it: a score not below the lowest bound of the scale
    is at least the lower bound of its grade's range, and a score not
    above the highest bound is less than one above the upper bound of its
    grade's range.  A whole-number score within the scale is therefore
    inside the declared range of its grade. *)
Theorem grade_range_holds_score (cfg : RawScoringConfig)
        (sc : ScoringConfig) (score : Q) :
  accepted cfg -> asScoringConfig cfg = Some sc ->
  inLetterOrder (grading_scale sc) ->
  let scale := grading_scale sc in
  let range := thresholdOf scale (calculateGrade score scale) in
  (min (F scale) <= score -> min range <= score) /\
  (score <= max (A scale) -> score < max range + 1) /\
  (forall z : Z,
      score = inject_Z z ->
      (exists k, max range = inject_Z k) ->
      min (F scale) <= score -> score <= max (A scale) ->
      min range <= score /\ score <= max range).
Proof.
  intros Hacc Hsc Hord.
  destruct (asScoringConfig_scale cfg Hsc)
    as (s & Hs & Hnum & HA & HB & HC & HD & HF).
  destruct (@accepted_scale_inv cfg s Hacc Hs Hnum)
    as (tA & tB & tC & tD & tF & HA' & HB' & HC' & HD' & HF' & _ & Hcont).
  rewrite HA in HA'. rewrite HB in HB'. rewrite HC in HC'.
  rewrite HD in HD'. rewrite HF in HF'.
  destruct (grading_scale sc) as [gA gB gC gD gF]. cbn [A B C D F] in *.
  assert (E : forall a b, Some (rangeEntry a) = Some (rangeEntry b) -> b = a).
  { intros [a1 a2] [b1 b2] H. injection H as -> ->. reflexivity. }
  apply E in HA', HB', HC', HD', HF'. subst tA tB tC tD tF.
  clear E HA HB HC HD HF.
  destruct Hord as (HFD & HDC & HCB & HBA).
  cbn [A B C D F] in HFD, HDC, HCB, HBA.
  rewrite (@sort_letter_order gA gB gC gD gF HFD HDC HCB HBA) in Hcont.
  inversion Hcont as [| |? ? ? EF Hc1]; subst.
  inversion Hc1 as [| |? ? ? ED Hc2]; subst.
  inversion Hc2 as [| |? ? ? EC Hc3]; subst.
  inversion Hc3 as [| |? ? ? EB _]; subst.
  cbv zeta.
  assert (Hmain :
    let range := thresholdOf (mkGradingScale gA gB gC gD gF)
                   (calculateGrade score
                                   (mkGradingScale gA gB gC gD gF)) in
    (min gF <= score -> min range <= score) /\
    (score <= max gA -> score < max range + 1)).
  { cbv zeta. unfold calculateGrade. cbn [A B C D F JS.gebN].
    destruct (JS.geb score (min gA)) eqn:GA.
    { apply geb_true in GA. cbn. split; [auto|].
      intro H. apply Qle_lt_trans with (1 := H).
      rewrite <- (Qplus_0_r (max gA)) at 1.
      apply Qplus_lt_r. reflexivity. }
    apply geb_false in GA.
    destruct (JS.geb score (min gB)) eqn:GB.
    { apply geb_true in GB. cbn. split; [auto|].
      intros _. rewrite EB. exact GA. }
    apply geb_false in GB.
    destruct (JS.geb score (min gC)) eqn:GC.
    { apply geb_true in GC. cbn. split; [auto|].
      intros _. rewrite EC. exact GB. }
    apply geb_false in GC.
    destruct (JS.geb score (min gD)) eqn:GD.
    { apply geb_true in GD. cbn. split; [auto|].
      intros _. rewrite ED. exact GC. }
    apply geb_false in GD. cbn. split; [auto|].
    intros _. rewrite EF. exact GD. }
  cbv zeta in Hmain. destruct Hmain as [Hlo Hhi].
  cbn [A F].
  split; [exact Hlo|]. split; [exact Hhi|].
  intros z Hz [k Hk] Hmin Hmax. split; [auto|].
  specialize (Hhi Hmax). rewrite Hk, Hz in *.
  change 1 with (inject_Z 1) in Hhi.
  rewrite <- (inject_Z_plus k 1) in Hhi.
  rewrite <- Zlt_Qlt in Hhi. rewrite <- Zle_Qle. lia.
Qed.

End GradeRanges.

(** ** The further properties at sample documents *)

Section FurtherInstances.
Import Types Loader RulesetLoader Auditor AuditorRuleset CliReport.
Import ResolverSpec ResolutionSpec ScoringSpec GradeSpec.
Import ConsistentCasing Samples LoaderSamples.
Local Open Scope string_scope.
Local Open Scope Q_scope.
Local Open Scope list_scope.


(** X1 at the rule set with one rule that names [truthy]. *)
Lemma resolveRuleFunctions_binds_witness :
  exists resolved,
    resolveRuleFunctions knownNameRuleset = inr resolved /\
    Forall (fun entry => bound (snd entry)) (rules resolved).
Proof.
  destruct (resolveRuleFunctions knownNameRuleset) as [e|resolved] eqn:E;
    [vm_compute in E; discriminate|].
  exists resolved. split; [reflexivity|].
  exact (proj1 (proj2 (proj2 (@resolveRuleFunctions_binds
                                knownNameRuleset resolved E)))).
Defined.

(** X2 at the same rule set. *)
Lemma resolveRuleFunctions_idempotent_witness :
  exists resolved,
    resolveRuleFunctions knownNameRuleset = inr resolved /\
    resolveRuleFunctions resolved = inr resolved.
Proof.
  destruct (resolveRuleFunctions knownNameRuleset) as [e|resolved] eqn:E;
    [vm_compute in E; discriminate|].
  exists resolved. split; [reflexivity|].
  exact (@resolveRuleFunctions_idempotent knownNameRuleset resolved E).
Defined.

(** X3 at the rule set whose second rule names a function that the table
    does not have. *)
Lemma resolveRuleFunctions_first_undefined_witness :
  resolveRuleFunctions unknownNameRuleset =
  inl (unknownFunction "doesNotExist" "com-bogus").
Proof.
  apply (@resolveRuleFunctions_first_undefined
           unknownNameRuleset
           [("com-summary", ruleNaming "truthy")] []
           "com-bogus" (ruleNaming "doesNotExist") [] []
           (mkThen (FnName "doesNotExist") None (Some "summary"))
           "doesNotExist").
  - reflexivity.
  - constructor; [|constructor]. constructor; [|constructor].
    intros name H. injection H as <-. vm_compute. discriminate.
  - reflexivity.
  - constructor.
  - reflexivity.
  - reflexivity.
Defined.

(** X5 at the weights of the README with security set to NaN. *)
Lemma validateWeights_NaN_witness :
  In JS.NaN (JS.values nanWeights) /\ validateWeights nanWeights = [].
Proof.
  assert (Hin : In JS.NaN (JS.values nanWeights)) by (left; reflexivity).
  split; [exact Hin|].
  apply (proj2 (proj2 (proj2 (@validateWeights_NaN nanWeights Hin)))).
  intros c Hc. cbn in Hc.
  destruct Hc as [<-|[<-|[<-|[<-|[<-|[]]]]]]; reflexivity.
Defined.

(** X7 at the document whose weights sum to 1.1. *)
Lemma validateScoringConfig_reports_all_witness :
  exists errors,
    validateScoringConfig (Some heavyRaw) = Failure errors /\
    forall e,
      In e errors ->
      exists w, raw_weights heavyRaw = Some w /\ In e (validateWeights w).
Proof.
  destruct (validateScoringConfig (Some heavyRaw)) as [d|errors] eqn:E;
    [vm_compute in E; discriminate|].
  exists errors. split; [reflexivity|].
  intros e He.
  apply (@validateScoringConfig_reports_all heavyRaw errors E) in He.
  destruct He as [[_ H]|[[_ H]|[H|[[_ H]|[[_ H]|H]]]]].
  - destruct (H (JS.Num 100) eq_refl) as [q [Hq [H1|H1]]];
      injection Hq as <-; discriminate.
  - discriminate.
  - exact H.
  - discriminate.
  - discriminate.
  - destruct H as (s & Hs & Hin). injection Hs as <-.
    vm_compute in Hin. contradiction.
Defined.

(** X9 at the document whose second rule has no description. *)
Lemma validateRuleset_errors_witness :
  exists errors,
    validateRuleset (Some undescribedDocument) = RulesetFailure errors /\
    errors <> [].
Proof.
  destruct (validateRuleset (Some undescribedDocument)) as [d|errors] eqn:E;
    [vm_compute in E; discriminate|].
  exists errors. split; [reflexivity|].
  exact (proj1 (@validateRuleset_errors undescribedDocument errors E)).
Defined.

(** X10: after a first load the files can go away. *)
Lemma loadAll_cached_witness :
  exists scoring ruleset this1,
    loadAll bothFiles (createConfigLoader "config") =
      (inr (scoring, ruleset), this1) /\
    loadAll noFiles this1 = (inr (scoring, ruleset), this1).
Proof.
  destruct (loadAll bothFiles (createConfigLoader "config"))
    as [[e|[scoring ruleset]] this1] eqn:E;
    [vm_compute in E; discriminate|].
  exists scoring, ruleset, this1. split; [reflexivity|].
  exact (@loadAll_cached bothFiles (createConfigLoader "config") this1
                         scoring ruleset E noFiles).
Defined.

(** X11 at a directory without the rule-set file. *)
Lemma loadAll_failure_witness :
  exists e this1,
    loadAll scoringOnly (createConfigLoader "config") = (inl e, this1) /\
    _rulesetConfig this1 = None.
Proof.
  destruct (loadAll scoringOnly (createConfigLoader "config"))
    as [[e|ok] this1] eqn:E; [|vm_compute in E; discriminate].
  exists e, this1. split; [reflexivity|].
  exact (proj1 (@loadAll_failure scoringOnly (createConfigLoader "config")
                                 this1 e E)).
Defined.

(** X12 after a failed load, a clearing of the cache and a load of the
    scoring document. *)
Lemma loader_returns_validated_witness :
  exists scoring ruleset this1,
    loadAll bothFiles
            (after "config" [CallLoadAll noFiles; CallClearCache;
                             CallLoadScoring bothFiles]) =
      (inr (scoring, ruleset), this1) /\
    ValidatorSpec.accepted scoring.
Proof.
  destruct (loadAll bothFiles
              (after "config" [CallLoadAll noFiles; CallClearCache;
                               CallLoadScoring bothFiles]))
    as [[e|[scoring ruleset]] this1] eqn:E;
    [vm_compute in E; discriminate|].
  exists scoring, ruleset, this1. split; [reflexivity|].
  exact (proj1 (proj2 (@loader_returns_validated
                         "config"
                         [CallLoadAll noFiles; CallClearCache;
                          CallLoadScoring bothFiles]
                         bothFiles scoring ruleset this1 E))).
Defined.



(** X18 at a weighted score of 89.5: the report shows 90 and the grade
    is not A. *)
Lemma rounded_score_and_grade_witness :
  finalScore (audit authScoring knownNameRuleset false [noAuth]) = 90 /\
  grade (audit authScoring knownNameRuleset false [noAuth]) <> "A".
Proof.
  destruct (rawScore authScoring knownNameRuleset [noAuth]) as [|score]
    eqn:E; [vm_compute in E; discriminate|].
  apply (@rounded_score_and_grade _ authScoring knownNameRuleset false
                                  [noAuth] 90%Z score).
  - reflexivity.
  - exact E.
  - vm_compute in E. injection E as <-. vm_compute. discriminate.
  - vm_compute in E. injection E as <-. reflexivity.
Defined.


(** X23: the custom rule [com-summary] replaces that of the engine's rule
    set and the engine's other rule stays. *)
Lemma buildRuleset_precedence_witness :
  JS.get (rules (buildRuleset engineRuleset knownNameRuleset))
         "com-summary" = Some (ruleNaming "truthy") /\
  NoDup (map fst (rules (buildRuleset engineRuleset knownNameRuleset))).
Proof.
  assert (Ho : NoDup (map fst (rules engineRuleset))).
  { repeat constructor; cbn; intuition discriminate. }
  assert (Hc : NoDup (map fst (rules knownNameRuleset))).
  { repeat constructor; cbn; intuition discriminate. }
  destruct (@buildRuleset_precedence engineRuleset knownNameRuleset Ho Hc)
    as (Hget & Hnd & _).
  split; [|exact Hnd].
  rewrite Hget. reflexivity.
Defined.

(** X26 at two members in either order. *)
Lemma countCasingStyles_order_free_witness :
  countCasingStyles
    (JObject [("firstName", str); ("created_at", str)]) (mkStats 0 0 0) =
  countCasingStyles
    (JObject [("created_at", str); ("firstName", str)]) (mkStats 0 0 0).
Proof.
  exact (proj1 (@countCasingStyles_order_free
                  [("firstName", str); ("created_at", str)]
                  [("created_at", str); ("firstName", str)]
                  (mkStats 0 0 0)
                  (perm_swap _ _ _))).
Defined.

(** X28 at the scale of the README and the score 85. *)
Lemma grade_range_holds_score_witness :
  ValidatorSpec.accepted readmeRaw /\
  inLetterOrder (grading_scale readmeScoring) /\
  min (thresholdOf (grading_scale readmeScoring)
                   (calculateGrade 85 (grading_scale readmeScoring))) <= 85.
Proof.
  assert (Ha : ValidatorSpec.accepted readmeRaw) by reflexivity.
  assert (Ho : inLetterOrder (grading_scale readmeScoring)).
  { repeat split. }
  split; [exact Ha|]. split; [exact Ho|].
  destruct (@grade_range_holds_score readmeRaw readmeScoring 85 Ha
                                     eq_refl Ho) as (Hlo & _).
  apply Hlo. discriminate.
Defined.

End FurtherInstances.
